(** * PostForge: the execution engine and the image sample converters

    A shallow embedding of [postforge/operators/_control_cy.pyx]
    ([exec_exec], [_handle_loop]) and of the Cython image helpers that
    follow it in the same source listing ([cmyk8_to_bgrx],
    [cmyk4_to_bgrx], [cmyk12_to_bgrx], [apply_color_key_mask_8]).

    Python objects have identity and are mutated in place, so the
    interpreter state carries an object store: a stack holds references
    into the store, [__copy__] allocates a new reference, and an attribute
    assignment such as [top.length -= 1] rewrites the store at the
    reference of [top]. *)

From Stdlib Require Import ZArith Bool List Lia Floats Ascii String.
From stdpp Require Import base option list gmap strings.

Local Open Scope Z_scope.

(** ** Python values *)

(** A reference to a Python object: its index in the object store. *)
Abbreviation ref := nat (only parsing).

(** The payload [val] of a PSObject, as the engine reads it. *)
Inductive PyVal :=
| PyNone
| PyInt (z : Z)
| PyFloat (f : float)
| PyBool (b : bool)
| PyBytes (s : string)
| PyList (l : list ref)
| PyDict (d : gmap string ref)
| PyCallable (id : nat).

(** A Python number held by a [for] loop: [int] or [float]. *)
Inductive PyNum :=
| NInt (z : Z)
| NFloat (f : float).

Inductive PyOrd := PLt | PEq | PGt | PUnordered.

Definition ord_of_comparison (c : comparison) : PyOrd :=
  match c with Lt => PLt | Eq => PEq | Gt => PGt end.

Definition ord_flip (o : PyOrd) : PyOrd :=
  match o with PLt => PGt | PGt => PLt | o => o end.

(** Python compares an [int] with a [float] exactly, without rounding the
    integer: the float is [(-1)^s * m * 2^e]. *)
Definition cmp_int_float (z : Z) (f : float) : PyOrd :=
  match Prim2SF f with
  | S754_nan => PUnordered
  | S754_infinity s => if s then PGt else PLt
  | S754_zero _ => ord_of_comparison (z ?= 0)
  | S754_finite s m e =>
      let sm := if s then Z.neg m else Z.pos m in
      if 0 <=? e then ord_of_comparison (z ?= sm * 2 ^ e)
      else ord_of_comparison (z * 2 ^ (- e) ?= sm)
  end.

Definition py_cmp (a b : PyNum) : PyOrd :=
  match a, b with
  | NInt x, NInt y => ord_of_comparison (x ?= y)
  | NFloat x, NFloat y =>
      match PrimFloat.compare x y with
      | FEq => PEq | FLt => PLt | FGt => PGt | FNotComparable => PUnordered
      end
  | NInt x, NFloat y => cmp_int_float x y
  | NFloat x, NInt y => ord_flip (cmp_int_float y x)
  end.

(** [a <= b], [a >= b], [a < b] of Python numbers. *)
Definition py_le (a b : PyNum) : bool :=
  match py_cmp a b with PLt | PEq => true | _ => false end.
Definition py_ge (a b : PyNum) : bool :=
  match py_cmp a b with PGt | PEq => true | _ => false end.
Definition py_lt (a b : PyNum) : bool :=
  match py_cmp a b with PLt => true | _ => false end.

(** [float(z)]: the nearest binary64 value, ties to even. *)
Definition float_of_Z (z : Z) : float :=
  SF2Prim (binary_normalize prec emax z 0 false).

(** [a + b]: integer addition is exact; a mixed sum converts the integer. *)
Definition py_add (a b : PyNum) : PyNum :=
  match a, b with
  | NInt x, NInt y => NInt (x + y)
  | NFloat x, NFloat y => NFloat (x + y)%float
  | NInt x, NFloat y => NFloat (float_of_Z x + y)%float
  | NFloat x, NInt y => NFloat (x + float_of_Z y)%float
  end.

Definition py_is_int (a : PyNum) : bool :=
  match a with NInt _ => true | NFloat _ => false end.

(** Truth value of a number: [not x] holds exactly for zero. *)
Definition py_is_zero (a : PyNum) : bool :=
  match a with
  | NInt z => z =? 0
  | NFloat f => PrimFloat.eqb f 0%float
  end.

(** [l[i]] on a Python list: a negative index counts from the end, an
    index out of range raises IndexError ([None]). *)
Definition py_index {A} (l : list A) (i : Z) : option A :=
  let n := Z.of_nat (List.length l) in
  if 0 <=? i then l !! Z.to_nat i
  else if 0 <=? n + i then l !! Z.to_nat (n + i)
  else None.

(** [bytes.decode("ascii")]: fails on any byte above 127. *)
Definition is_ascii_byte (a : ascii) : bool :=
  (Z.of_nat (nat_of_ascii a) <? 128).

Fixpoint all_ascii (s : string) : bool :=
  match s with
  | EmptyString => true
  | String a r => is_ascii_byte a && all_ascii r
  end.

Definition decode_ascii (s : string) : option string :=
  if all_ascii s then Some s else None.

(** ** Constants of the engine *)

Definition C_T_ARRAY : Z := 0.
Definition C_T_BOOL : Z := 1.
Definition C_T_DICT : Z := 2.
Definition C_T_FILE : Z := 3.
Definition C_T_INT : Z := 6.
Definition C_T_MARK : Z := 7.
Definition C_T_NAME : Z := 8.
Definition C_T_NULL : Z := 9.
Definition C_T_OPERATOR : Z := 10.
Definition C_T_PACKED_ARRAY : Z := 11.
Definition C_T_REAL : Z := 12.
Definition C_T_SAVE : Z := 13.
Definition C_T_STRING : Z := 14.
Definition C_T_STOPPED : Z := 15.
Definition C_T_LOOP : Z := 16.
Definition C_T_HARD_RETURN : Z := 17.

Definition C_ATTRIB_LIT : Z := 0.
Definition C_ATTRIB_EXEC : Z := 1.

Definition C_LT_LOOP : Z := 6.
Definition C_LT_REPEAT : Z := 8.
Definition C_LT_FOR : Z := 3.
Definition C_LT_FORALL : Z := 4.
Definition C_LT_FILENAMEFORALL : Z := 2.
Definition C_LT_PATHFORALL : Z := 7.
Definition C_LT_CSHOW : Z := 1.
Definition C_LT_KSHOW : Z := 5.

(** Access levels, ordered: none, execute-only, read-only, unlimited. *)
Definition ACCESS_NONE : Z := 0.
Definition ACCESS_EXECUTE_ONLY : Z := 1.
Definition ACCESS_READ_ONLY : Z := 2.
Definition ACCESS_UNLIMITED : Z := 4.

(** ** PostScript objects *)

Module ps.

(** The attributes of a PSObject the engine touches.  [start] and
    [length] are the view of an array on its backing list [val];
    [proc], [control], [increment] and [limit] belong to Loop markers
    ([val] is then the loop type). *)
Record PSObject := mk {
  TYPE : Z;
  attrib : Z;
  access : Z;
  val : PyVal;
  start : Z;
  length : Z;
  proc : option ref;
  control : PyNum;
  increment : PyNum;
  limit : PyNum
}.

Definition set_start (n : Z) (o : PSObject) : PSObject :=
  mk (TYPE o) (attrib o) (access o) (val o) n (length o)
     (proc o) (control o) (increment o) (limit o).
Definition set_length (n : Z) (o : PSObject) : PSObject :=
  mk (TYPE o) (attrib o) (access o) (val o) (start o) n
     (proc o) (control o) (increment o) (limit o).
Definition set_control (c : PyNum) (o : PSObject) : PSObject :=
  mk (TYPE o) (attrib o) (access o) (val o) (start o) (length o)
     (proc o) c (increment o) (limit o).
Definition set_limit (c : PyNum) (o : PSObject) : PSObject :=
  mk (TYPE o) (attrib o) (access o) (val o) (start o) (length o)
     (proc o) (control o) (increment o) c.

(** Modelled from the spec: the constructors [ps.Int], [ps.Real],
    [ps.Bool] and [ps.Name] of postforge.core.types, which are not among
    the sources at hand.  A new scalar object is literal with unlimited
    access and carries the given payload. *)
Definition scalar (ty : Z) (v : PyVal) : PSObject :=
  mk ty C_ATTRIB_LIT ACCESS_UNLIMITED v 0 0 None (NInt 0) (NInt 0) (NInt 0).
Definition Int (z : Z) : PSObject := scalar C_T_INT (PyInt z).
Definition Real (f : float) : PSObject := scalar C_T_REAL (PyFloat f).
Definition Bool (b : bool) : PSObject := scalar C_T_BOOL (PyBool b).
Definition Name (s : string) : PSObject := scalar C_T_NAME (PyBytes s).

End ps.

(** PostScript errors handed to [ps_error.e]. *)
Inductive PSError := UNDEFINED | RANGECHECK | STACKUNDERFLOW | INVALIDACCESS.

(** Python exceptions that leave [exec_exec]. *)
Inductive PyExc := IndexError | TypeError | AttributeError | UnicodeDecodeError.

(** ** The interpreter state *)

(** The object store, the attributes of [ctxt] that [exec_exec] reads or
    writes, and the locals of [exec_exec] that live across iterations.
    [exec_exec] is entered with [ctxt.o_stack] and [ctxt.e_stack] as its
    [o_stack] and [e_stack] arguments, so each pair of names denotes one
    list; a stack is a Python list with its top at the end. *)
Record Machine := mkMachine {
  heap : list ps.PSObject;
  o_stack : list ref;
  e_stack : list ref;
  d_stack : list ref;
  _operator_table : option (gmap string ref);
  ctxt_event_loop_callback : bool;
  ctxt_execution_history_enabled : bool;
  execution_history_paused : bool;
  execution_history : list ref;
  execution_history_size : nat;
  raised : list (PSError * string);
  callback_calls : nat;
  (* locals of exec_exec *)
  event_counter : Z;
  event_loop_callback : bool;
  execution_history_enabled : bool
}.

Definition with_heap (h : list ps.PSObject) (m : Machine) : Machine :=
  mkMachine h (o_stack m) (e_stack m) (d_stack m) (_operator_table m)
    (ctxt_event_loop_callback m) (ctxt_execution_history_enabled m)
    (execution_history_paused m) (execution_history m)
    (execution_history_size m) (raised m) (callback_calls m)
    (event_counter m) (event_loop_callback m) (execution_history_enabled m).

Definition with_o_stack (s : list ref) (m : Machine) : Machine :=
  mkMachine (heap m) s (e_stack m) (d_stack m) (_operator_table m)
    (ctxt_event_loop_callback m) (ctxt_execution_history_enabled m)
    (execution_history_paused m) (execution_history m)
    (execution_history_size m) (raised m) (callback_calls m)
    (event_counter m) (event_loop_callback m) (execution_history_enabled m).

Definition with_e_stack (s : list ref) (m : Machine) : Machine :=
  mkMachine (heap m) (o_stack m) s (d_stack m) (_operator_table m)
    (ctxt_event_loop_callback m) (ctxt_execution_history_enabled m)
    (execution_history_paused m) (execution_history m)
    (execution_history_size m) (raised m) (callback_calls m)
    (event_counter m) (event_loop_callback m) (execution_history_enabled m).

Definition with_history (s : list ref) (m : Machine) : Machine :=
  mkMachine (heap m) (o_stack m) (e_stack m) (d_stack m) (_operator_table m)
    (ctxt_event_loop_callback m) (ctxt_execution_history_enabled m)
    (execution_history_paused m) s
    (execution_history_size m) (raised m) (callback_calls m)
    (event_counter m) (event_loop_callback m) (execution_history_enabled m).

Definition with_raised (s : list (PSError * string)) (m : Machine) : Machine :=
  mkMachine (heap m) (o_stack m) (e_stack m) (d_stack m) (_operator_table m)
    (ctxt_event_loop_callback m) (ctxt_execution_history_enabled m)
    (execution_history_paused m) (execution_history m)
    (execution_history_size m) s (callback_calls m)
    (event_counter m) (event_loop_callback m) (execution_history_enabled m).

Definition with_event (calls : nat) (counter : Z) (m : Machine) : Machine :=
  mkMachine (heap m) (o_stack m) (e_stack m) (d_stack m) (_operator_table m)
    (ctxt_event_loop_callback m) (ctxt_execution_history_enabled m)
    (execution_history_paused m) (execution_history m)
    (execution_history_size m) (raised m) calls
    counter (event_loop_callback m) (execution_history_enabled m).

(** The locals [exec_exec] sets up before its loop. *)
Definition exec_exec_enter (m : Machine) : Machine :=
  mkMachine (heap m) (o_stack m) (e_stack m) (d_stack m) (_operator_table m)
    (ctxt_event_loop_callback m) (ctxt_execution_history_enabled m)
    (execution_history_paused m) (execution_history m)
    (execution_history_size m) (raised m) (callback_calls m)
    0 (ctxt_event_loop_callback m) (ctxt_execution_history_enabled m).

(** ** Stack and store operations *)

(** [s.append(r)], [s.pop()], [s[-1] = r] and [s[-1]]. *)
Definition py_append (s : list ref) (r : ref) : list ref := s ++ [r].
Definition py_pop (s : list ref) : list ref := removelast s.
Definition py_set_top (s : list ref) (r : ref) : list ref := removelast s ++ [r].
Definition py_top (s : list ref) : option ref := last s.

(** A new object gets the next free reference. *)
Definition alloc (o : ps.PSObject) (m : Machine) : Machine * ref :=
  (with_heap (heap m ++ [o]) m, List.length (heap m)).

(** Modelled from the spec: [PSObject.__copy__] of postforge.core.types,
    which is not among the sources at hand.  A copy is a new object with
    the attributes of the original; a composite keeps sharing the backing
    store [val] with it. *)
Definition py_copy (r : ref) (m : Machine) : option (Machine * ref) :=
  match heap m !! r with
  | Some o => Some (alloc o m)
  | None => None
  end.

(** An attribute assignment on the object at [r]. *)
Definition update_obj (r : ref) (f : ps.PSObject -> ps.PSObject) (m : Machine) : Machine :=
  match heap m !! r with
  | Some o => with_heap (<[r := f o]> (heap m)) m
  | None => m
  end.

(** Modelled from the spec: [Context.record_execution] of
    postforge.core.types, which is not among the sources at hand.  The
    history is a ring buffer of [ExecutionHistorySize] entries: a new
    entry goes to the end and the oldest entries beyond the size go. *)
Definition record_execution_list (r : ref) (m : Machine) : list ref :=
  let h := execution_history m ++ [r] in
  drop (List.length h - execution_history_size m)%nat h.

(** [ctxt.record_execution(r, None)]. *)
Definition record_execution (r : ref) (m : Machine) : Machine :=
  with_history (record_execution_list r m) m.

(** Modelled from the spec: [ps_error.e] of postforge.core.error, which is
    not among the sources at hand.  The offending name is pushed onto the
    operand stack and the error is raised, to be taken up by the handler in
    errordict. *)
Definition ps_error_e (err : PSError) (command : string) (m : Machine) : Machine :=
  let '(m1, r) := alloc (ps.Name command) m in
  with_raised (raised m1 ++ [(err, command)])
    (with_o_stack (py_append (o_stack m1) r) m1).

(** ** One iteration of the dispatch loop *)

(** Code outside this file that an iteration hands control to. *)
Inductive Callee :=
| CallOperator (f : PyVal)
| CallTokenizer
| CallLoopHandler (loop_type : Z).

(** How an iteration of [while e_stack:] ends: [continue], [return], a
    call into code that is not part of this development (after which the
    loop continues), or a Python exception. *)
Inductive Outcome :=
| Continue (m : Machine)
| Return (m : Machine)
| Extern (c : Callee) (m : Machine)
| PyRaise (e : PyExc) (m : Machine).

Definition is_array_type (ty : Z) : bool :=
  (ty =? C_T_ARRAY) || (ty =? C_T_PACKED_ARRAY).

Definition is_literal_type (ty : Z) : bool :=
  (ty =? C_T_INT) || (ty =? C_T_REAL) || (ty =? C_T_BOOL)
  || (ty =? C_T_NULL) || (ty =? C_T_MARK).

Definition is_tokenizable_type (ty : Z) : bool :=
  (ty =? C_T_FILE) || (ty =? C_T_STRING).

Definition push_o (r : ref) (m : Machine) : Machine :=
  with_o_stack (py_append (o_stack m) r) m.
Definition push_e (r : ref) (m : Machine) : Machine :=
  with_e_stack (py_append (e_stack m) r) m.
Definition pop_e (m : Machine) : Machine :=
  with_e_stack (py_pop (e_stack m)) m.
Definition set_top_e (r : ref) (m : Machine) : Machine :=
  with_e_stack (py_set_top (e_stack m) r) m.

(** The periodic event loop callback. *)
Definition pump (m : Machine) : Machine :=
  if event_loop_callback m then
    let c := event_counter m + 1 in
    if c >=? 10000 then with_event (S (callback_calls m)) 0 m
    else with_event (callback_calls m) c m
  else m.

(** The execution history: a copy of [top], unless it is a File or a String. *)
Definition record_top (top : ref) (top_type : Z) (m : Machine) : option Machine :=
  if execution_history_enabled m && negb (execution_history_paused m) then
    if negb (is_tokenizable_type top_type) then
      match py_copy top m with
      | Some (m1, c) => Some (record_execution c m1)
      | None => None
      end
    else Some m
  else Some m.

(** [key in d.val] for the dictionary object at [d]. *)
Definition dict_has (h : list ps.PSObject) (d : ref) (key : string) : option bool :=
  match h !! d with
  | Some o =>
      match ps.val o with
      | PyDict mp => Some (bool_decide (is_Some (mp !! key)))
      | _ => None
      end
  | None => None
  end.

(** [for i in range(d_len - 1, 0, -1)]: is the name bound above the bottom
    dictionary?  [i] is the index to look at next. *)
Fixpoint shadowed_scan (h : list ps.PSObject) (ds : list ref) (key : string)
    (i : nat) : option bool :=
  match i with
  | O => Some false
  | S j =>
      match ds !! i with
      | Some d =>
          match dict_has h d key with
          | Some true => Some true
          | Some false => shadowed_scan h ds key j
          | None => None
          end
      | None => None
      end
  end.

(** [for i in range(len(d_stack) - 1, -1, -1)]: the normal walk; [n] is one
    more than the index to look at next.  [Some None] is a failed lookup. *)
Fixpoint dict_walk (h : list ps.PSObject) (ds : list ref) (key : string)
    (n : nat) : option (option ref) :=
  match n with
  | O => Some None
  | S i =>
      match ds !! i with
      | Some d =>
          match h !! d with
          | Some o =>
              if ps.access o <? 2 then dict_walk h ds key i
              else
                match ps.val o with
                | PyDict mp =>
                    match mp !! key with
                    | Some obj => Some (Some obj)
                    | None => dict_walk h ds key i
                    end
                | _ => None
                end
          | None => None
          end
      | None => None
      end
  end.

(** Path 3, after the fast path: walk, then install the value or raise. *)
Definition exec_name_walk (key : string) (m : Machine) : Outcome :=
  match dict_walk (heap m) (d_stack m) key (List.length (d_stack m)) with
  | None => PyRaise TypeError m
  | Some None =>
      match decode_ascii key with
      | Some command => Continue (ps_error_e UNDEFINED command m)
      | None => PyRaise UnicodeDecodeError m
      end
  | Some (Some obj) =>
      match heap m !! obj with
      | Some o =>
          if ps.TYPE o =? C_T_OPERATOR then Continue (set_top_e obj m)
          else
            match py_copy obj m with
            | Some (m1, c) => Continue (set_top_e c m1)
            | None => PyRaise AttributeError m
            end
      | None => PyRaise AttributeError m
      end
  end.

(** Path 3: executable names. *)
Definition exec_name (t : ps.PSObject) (m : Machine) : Outcome :=
  match ps.val t with
  | PyBytes key =>
      match _operator_table m with
      | Some op_table =>
          match op_table !! key with
          | Some op =>
              match shadowed_scan (heap m) (d_stack m) key
                      (List.length (d_stack m) - 1)%nat with
              | Some false => Continue (set_top_e op m)
              | Some true => exec_name_walk key m
              | None => PyRaise TypeError m
              end
          | None => exec_name_walk key m
          end
      | None => exec_name_walk key m
      end
  | _ => PyRaise TypeError m
  end.

(** [top.length -= 1; top.start += 1]. *)
Definition advance (top : ref) (m : Machine) : Machine :=
  update_obj top
    (fun o => ps.set_start (ps.start o + 1) (ps.set_length (ps.length o - 1) o)) m.

(** An element that goes to the operand stack: a nested procedure and a
    composite literal as a copy, a literal scalar as it is. *)
Definition push_o_copy (obj : ref) (m : Machine) : option Machine :=
  match py_copy obj m with
  | Some (m1, c) => Some (push_o c m1)
  | None => None
  end.

(** Path 5: executable arrays. *)
Definition exec_array (top : ref) (t : ps.PSObject) (m : Machine) : Outcome :=
  if ps.length t =? 0 then Continue (pop_e m)
  else
    match ps.val t with
    | PyList l =>
        match py_index l (ps.start t) with
        | None => PyRaise IndexError m
        | Some obj =>
            match heap m !! obj with
            | None => PyRaise AttributeError m
            | Some o =>
                let obj_type := ps.TYPE o in
                if ps.length t =? 1 then
                  if is_array_type obj_type && (ps.attrib o =? C_ATTRIB_EXEC) then
                    match push_o_copy obj m with
                    | Some m1 => Continue (advance top m1)
                    | None => PyRaise AttributeError m
                    end
                  else if ps.attrib o =? C_ATTRIB_LIT then
                    if is_literal_type obj_type then
                      Continue (advance top (push_o obj m))
                    else
                      match push_o_copy obj m with
                      | Some m1 => Continue (advance top m1)
                      | None => PyRaise AttributeError m
                      end
                  else Continue (set_top_e obj m)
                else
                  if is_array_type obj_type && (ps.attrib o =? C_ATTRIB_EXEC) then
                    match push_o_copy obj m with
                    | Some m1 => Continue (advance top m1)
                    | None => PyRaise AttributeError m
                    end
                  else if ps.attrib o =? C_ATTRIB_LIT then
                    if is_literal_type obj_type then
                      Continue (advance top (push_o obj m))
                    else
                      match push_o_copy obj m with
                      | Some m1 => Continue (advance top m1)
                      | None => PyRaise AttributeError m
                      end
                  else Continue (advance top (push_e obj m))
            end
        end
    | _ => PyRaise TypeError m
    end.

(** [e_stack.append(top.proc.__copy__())], or [e_stack[-1] = ...]. *)
Definition schedule_body (replace : bool) (top : ref) (m : Machine) : Outcome :=
  match heap m !! top with
  | Some t =>
      match ps.proc t with
      | Some p =>
          match py_copy p m with
          | Some (m1, c) =>
              Continue (if replace then set_top_e c m1 else push_e c m1)
          | None => PyRaise AttributeError m
          end
      | None => PyRaise AttributeError m
      end
  | None => PyRaise AttributeError m
  end.

(** One step of a [for] loop that goes on: push the control value, add the
    increment, schedule the body. *)
Definition for_iterate (top : ref) (t : ps.PSObject) (m : Machine) : Outcome :=
  let v := match ps.control t with
           | NInt z => ps.Int z
           | NFloat f => ps.Real f
           end in
  let '(m1, r) := alloc v m in
  let m2 := push_o r m1 in
  let m3 := update_obj top
              (fun o => ps.set_control (py_add (ps.control o) (ps.increment o)) o) m2 in
  schedule_body false top m3.

Definition _handle_loop (top : ref) (t : ps.PSObject) (m : Machine) : Outcome :=
  match ps.val t with
  | PyInt loop_type =>
      if loop_type =? C_LT_LOOP then schedule_body false top m
      else if loop_type =? C_LT_REPEAT then
        let m1 := update_obj top
                    (fun o => ps.set_limit (py_add (ps.limit o) (NInt (-1))) o) m in
        match heap m1 !! top with
        | Some t1 =>
            if py_is_zero (ps.limit t1) then schedule_body true top m1
            else schedule_body false top m1
        | None => PyRaise AttributeError m
        end
      else if loop_type =? C_LT_FOR then
        if py_ge (ps.increment t) (NInt 0) then
          if py_le (ps.control t) (ps.limit t) then for_iterate top t m
          else Continue (pop_e m)
        else
          if py_ge (ps.control t) (ps.limit t) then for_iterate top t m
          else Continue (pop_e m)
      else if (loop_type =? C_LT_FORALL) || (loop_type =? C_LT_FILENAMEFORALL)
              || (loop_type =? C_LT_PATHFORALL) || (loop_type =? C_LT_CSHOW)
              || (loop_type =? C_LT_KSHOW) then
        Extern (CallLoopHandler loop_type) m
      else Continue m
  | _ => PyRaise TypeError m
  end.

(** The body of [while e_stack:] for a stack whose top is [top]. *)
Definition dispatch (top : ref) (t : ps.PSObject) (m : Machine) : Outcome :=
  let top_type := ps.TYPE t in
  let top_attrib := ps.attrib t in
  if is_literal_type top_type || (top_attrib =? C_ATTRIB_LIT) then
    Continue (pop_e (push_o top m))
  else if top_type =? C_T_OPERATOR then
    Extern (CallOperator (ps.val t)) (pop_e m)
  else if top_type =? C_T_NAME then exec_name t m
  else if is_tokenizable_type top_type then Extern CallTokenizer m
  else if is_array_type top_type then exec_array top t m
  else if top_type =? C_T_STOPPED then
    let '(m1, r) := alloc (ps.Bool false) m in
    Continue (pop_e (push_o r m1))
  else if top_type =? C_T_LOOP then _handle_loop top t m
  else if top_type =? C_T_HARD_RETURN then Return (pop_e m)
  else Continue m.

Definition exec_iter (m : Machine) : Outcome :=
  match py_top (e_stack m) with
  | None => Continue m
  | Some top =>
      match heap m !! top with
      | None => PyRaise AttributeError m
      | Some t =>
          match record_top top (ps.TYPE t) (pump m) with
          | Some m1 => dispatch top t m1
          | None => PyRaise AttributeError m
          end
      end
  end.

(** How a run of the loop ends. *)
Inductive Run :=
| Finished (m : Machine)
| Suspended (c : Callee) (m : Machine)
| Failed (e : PyExc) (m : Machine)
| OutOfFuel (m : Machine).

(** [exec_exec], up to the first call into code outside this file. *)
Fixpoint exec_loop (fuel : nat) (m : Machine) : Run :=
  match fuel with
  | O => OutOfFuel m
  | S k =>
      match e_stack m with
      | [] => Finished m
      | _ =>
          match exec_iter m with
          | Continue m1 => exec_loop k m1
          | Return m1 => Finished m1
          | Extern c m1 => Suspended c m1
          | PyRaise e m1 => Failed e m1
          end
      end
  end.

Definition exec_exec (fuel : nat) (m : Machine) : Run :=
  exec_loop fuel (exec_exec_enter m).

(** ** Image sample conversion *)

(** A C [int]: 32 bits, two's complement. *)
Definition c_int (z : Z) : Z := (z + 2 ^ 31) mod 2 ^ 32 - 2 ^ 31.

(** [<unsigned char> z]. *)
Definition uchar (z : Z) : Z := z mod 256.

(** [<int> x] for a C double: the fraction is dropped; the cast is
    undefined ([None]) for a NaN, an infinity and a value outside [int]. *)
Definition trunc_double (x : float) : option Z :=
  match Prim2SF x with
  | S754_zero _ => Some 0
  | S754_finite s m e =>
      let mag := if 0 <=? e then Z.pos m * 2 ^ e else Z.pos m / 2 ^ (- e) in
      let v := if s then - mag else mag in
      if (- 2 ^ 31 <=? v) && (v <? 2 ^ 31) then Some v else None
  | _ => None
  end.

(** Typed memoryviews are compiled with [boundscheck=False] and
    [wraparound=False]: an access outside the buffer is undefined ([None]). *)
Definition rd (buf : list Z) (i : Z) : option Z :=
  if 0 <=? i then buf !! Z.to_nat i else None.

Definition wr (buf : list Z) (i : Z) (v : Z) : option (list Z) :=
  if (0 <=? i) && (i <? Z.of_nat (List.length buf))
  then Some (<[Z.to_nat i := v]> buf) else None.

(** [bytearray(n)]: [n] zero bytes; a negative [n] raises ValueError. *)
Definition bytearray (n : Z) : option (list Z) :=
  if n <? 0 then None else Some (replicate (Z.to_nat n) 0).

(** [out[o], out[o+1], out[o+2], out[o+3] = b, g, r, 0xFF]. *)
Definition write_bgrx (out : list Z) (o b g r : Z) : option (list Z) :=
  out1 ← wr out o (uchar b);
  out2 ← wr out1 (o + 1) (uchar g);
  out3 ← wr out2 (o + 2) (uchar r);
  wr out3 (o + 3) 255.

(** [r = 255 - c - k; if r < 0: r = 0] on C ints. *)
Definition under8 (c k : Z) : Z :=
  let r := c_int (c_int (255 - c) - k) in
  if r <? 0 then 0 else r.

(** The loop of [cmyk8_to_bgrx]: [n] pixels left, [i] is the next one. *)
Fixpoint cmyk8_loop (n : nat) (i : Z) (src out : list Z) : option (list Z) :=
  match n with
  | O => Some out
  | S n' =>
      let si := c_int (i * 4) in
      let di := c_int (i * 4) in
      c ← rd src si;
      m ← rd src (si + 1);
      y ← rd src (si + 2);
      k ← rd src (si + 3);
      out' ← write_bgrx out di (under8 y k) (under8 m k) (under8 c k);
      cmyk8_loop n' (i + 1) src out'
  end.

Definition cmyk8_to_bgrx (src : list Z) (num_pixels : Z) : option (list Z) :=
  let out_len := c_int (num_pixels * 4) in
  out ← bytearray out_len;
  cmyk8_loop (Z.to_nat num_pixels) 0 src out.

(** [if r < 0.0: r = 0.0] then [if r > 1.0: r = 1.0]. *)
Definition clamp01 (r : float) : float :=
  let r := if (r <? 0)%float then 0%float else r in
  if (1 <? r)%float then 1%float else r.

(** [val = <int>(x * 255.0)], clamped to a byte. *)
Definition to_byte (x : float) : option Z :=
  v ← trunc_double (x * 255)%float;
  let v := if v <? 0 then 0 else v in
  let v := if v >? 255 then 255 else v in
  Some (uchar v).

(** [lo + sample * scale] with the integer sample converted to double. *)
Definition decode_sample (lo scale : float) (sample : Z) : float :=
  (lo + float_of_Z sample * scale)%float.

(** The channel computed by [cmyk4_to_bgrx]: [1.0 - c - k], clamped. *)
Definition under4 (c k : float) : option Z :=
  to_byte (clamp01 (1 - c - k)%float).

(** The channel computed by [cmyk12_to_bgrx]: [(1.0 - c) * (1.0 - k)]. *)
Definition mult12 (c k : float) : option Z :=
  to_byte ((1 - c) * (1 - k))%float.

(** The eight entries of a CMYK decode array, and a scale per component. *)
Definition decode_scales (decode_array : list float) (top : float)
    : option (float * float * float * float * (float * float * float * float)) :=
  c_min ← decode_array !! 0%nat; c_max ← decode_array !! 1%nat;
  m_min ← decode_array !! 2%nat; m_max ← decode_array !! 3%nat;
  y_min ← decode_array !! 4%nat; y_max ← decode_array !! 5%nat;
  k_min ← decode_array !! 6%nat; k_max ← decode_array !! 7%nat;
  Some (c_min, m_min, y_min, k_min,
        (((c_max - c_min) / top)%float, ((m_max - m_min) / top)%float,
         ((y_max - y_min) / top)%float, ((k_max - k_min) / top)%float)).

(** The loop of [cmyk4_to_bgrx]: two bytes per pixel, no row padding. *)
Fixpoint cmyk4_loop (n : nat) (pixel byte_idx : Z)
    (lo : float * float * float * float) (sc : float * float * float * float)
    (src out : list Z) : option (list Z) :=
  match n with
  | O => Some out
  | S n' =>
      let '(c_min, m_min, y_min, k_min) := lo in
      let '(c_scale, m_scale, y_scale, k_scale) := sc in
      b1 ← rd src byte_idx;
      b2 ← rd src (byte_idx + 1);
      let c := decode_sample c_min c_scale (Z.land (Z.shiftr b1 4) 15) in
      let m := decode_sample m_min m_scale (Z.land b1 15) in
      let y := decode_sample y_min y_scale (Z.land (Z.shiftr b2 4) 15) in
      let k := decode_sample k_min k_scale (Z.land b2 15) in
      let o := c_int (pixel * 4) in
      vb ← under4 y k;
      out1 ← wr out o vb;
      vg ← under4 m k;
      out2 ← wr out1 (o + 1) vg;
      vr ← under4 c k;
      out3 ← wr out2 (o + 2) vr;
      out4 ← wr out3 (o + 3) 255;
      cmyk4_loop n' (pixel + 1) (c_int (byte_idx + 2)) lo sc src out4
  end.

Definition cmyk4_to_bgrx (src : list Z) (width height : Z)
    (decode_array : list float) : option (list Z) :=
  let total := c_int (width * height) in
  let out_len := c_int (total * 4) in
  out ← bytearray out_len;
  '(lo, sc) ← decode_scales decode_array 15%float;
  cmyk4_loop (Z.to_nat total) 0 0 lo sc src out.

(** The 12-bit sample number [sample_index] of the row that starts at
    byte [row_start]. *)
Definition sample12 (src : list Z) (row_start sample_index : Z) : option Z :=
  let bit_pos := c_int (sample_index * 12) in
  let byte_idx := c_int (row_start + Z.quot bit_pos 8) in
  let bit_offset := Z.rem bit_pos 8 in
  a ← rd src byte_idx;
  b ← rd src (byte_idx + 1);
  Some (if bit_offset =? 0 then Z.lor (Z.shiftl a 4) (Z.shiftr b 4)
        else Z.lor (Z.shiftl (Z.land a 15) 8) b).

(** One pixel of [cmyk12_to_bgrx]. *)
Definition cmyk12_pixel (row col width row_start : Z)
    (lo : float * float * float * float) (sc : float * float * float * float)
    (src out : list Z) : option (list Z) :=
  let '(c_min, m_min, y_min, k_min) := lo in
  let '(c_scale, m_scale, y_scale, k_scale) := sc in
  let sample_base := c_int (col * 4) in
  let pixel_idx := c_int (c_int (row * width) + col) in
  let o := c_int (pixel_idx * 4) in
  cv ← sample12 src row_start sample_base;
  mv ← sample12 src row_start (sample_base + 1);
  yv ← sample12 src row_start (sample_base + 2);
  kv ← sample12 src row_start (sample_base + 3);
  let c := decode_sample c_min c_scale cv in
  let m := decode_sample m_min m_scale mv in
  let y := decode_sample y_min y_scale yv in
  let k := decode_sample k_min k_scale kv in
  vb ← mult12 y k;
  out1 ← wr out o vb;
  vg ← mult12 m k;
  out2 ← wr out1 (o + 1) vg;
  vr ← mult12 c k;
  out3 ← wr out2 (o + 2) vr;
  wr out3 (o + 3) 255.

Fixpoint cmyk12_cols (n : nat) (row col width row_start : Z)
    (lo : float * float * float * float) (sc : float * float * float * float)
    (src out : list Z) : option (list Z) :=
  match n with
  | O => Some out
  | S n' =>
      out' ← cmyk12_pixel row col width row_start lo sc src out;
      cmyk12_cols n' row (col + 1) width row_start lo sc src out'
  end.

Fixpoint cmyk12_rows (n : nat) (row width bytes_per_row : Z)
    (lo : float * float * float * float) (sc : float * float * float * float)
    (src out : list Z) : option (list Z) :=
  match n with
  | O => Some out
  | S n' =>
      let row_start := c_int (row * bytes_per_row) in
      out' ← cmyk12_cols (Z.to_nat width) row 0 width row_start lo sc src out;
      cmyk12_rows n' (row + 1) width bytes_per_row lo sc src out'
  end.

Definition cmyk12_to_bgrx (src : list Z) (width height : Z)
    (decode_array : list float) : option (list Z) :=
  let out_len := c_int (c_int (width * height) * 4) in
  out ← bytearray out_len;
  '(lo, sc) ← decode_scales decode_array 4095%float;
  let samples_per_row := c_int (width * 4) in
  let bits_per_row := c_int (samples_per_row * 12) in
  let bytes_per_row := Z.quot (c_int (bits_per_row + 7)) 8 in
  cmyk12_rows (Z.to_nat height) 0 width bytes_per_row lo sc src out.

(** The identity decode array of a CMYK image. *)
Definition identity_decode : list float :=
  [0; 1; 0; 1; 0; 1; 0; 1]%float.

(** ** Color key masking *)

(** A Python integer converted to a C [int]: OverflowError outside 32 bits. *)
Definition to_c_int (z : Z) : option Z :=
  if (- 2 ^ 31 <=? z) && (z <? 2 ^ 31) then Some z else None.

(** [mask_color[i]] as a C [int]. *)
Definition mask_at (mask_color : list Z) (i : Z) : option Z :=
  v ← rd mask_color i; to_c_int v.

(** The range test of one pixel: [cnt] components left, [i] is the next. *)
Fixpoint match_range (cnt : nat) (i sample_offset : Z)
    (sample_data mask_color : list Z) : option bool :=
  match cnt with
  | O => Some true
  | S c =>
      raw_val ← rd sample_data (c_int (sample_offset + i));
      lo ← mask_at mask_color (c_int (i * 2));
      hi ← mask_at mask_color (c_int (c_int (i * 2) + 1));
      if (raw_val <? lo) || (raw_val >? hi) then Some false
      else match_range c (i + 1) sample_offset sample_data mask_color
  end.

(** The equality test of one pixel. *)
Fixpoint match_exact (cnt : nat) (i sample_offset : Z)
    (sample_data mask_color : list Z) : option bool :=
  match cnt with
  | O => Some true
  | S c =>
      raw_val ← rd sample_data (c_int (sample_offset + i));
      v ← mask_at mask_color i;
      if negb (raw_val =? v) then Some false
      else match_exact c (i + 1) sample_offset sample_data mask_color
  end.

(** The pixel loop of [apply_color_key_mask_8]; the result is [pixel_data]
    as the call leaves it. *)
Fixpoint mask8_loop (cnt : nat) (pixel_idx n : Z) (is_range : bool)
    (sample_data mask_color pixel_data : list Z) : option (list Z) :=
  match cnt with
  | O => Some pixel_data
  | S c =>
      let sample_offset := c_int (pixel_idx * n) in
      if c_int (sample_offset + n) >? c_int (Z.of_nat (List.length sample_data))
      then Some pixel_data
      else
        matches ← (if is_range
                   then match_range (Z.to_nat n) 0 sample_offset sample_data mask_color
                   else match_exact (Z.to_nat n) 0 sample_offset sample_data mask_color);
        pixel_data' ←
          (if matches : bool then
             let alpha_offset := c_int (c_int (pixel_idx * 4) + 3) in
             if alpha_offset <? c_int (Z.of_nat (List.length pixel_data))
             then wr pixel_data alpha_offset 0
             else Some pixel_data
           else Some pixel_data);
        mask8_loop c (pixel_idx + 1) n is_range sample_data mask_color pixel_data'
  end.

Definition apply_color_key_mask_8 (pixel_data sample_data : list Z)
    (width height components : Z) (mask_color : list Z) (is_range : bool)
    : option (list Z) :=
  let total := c_int (width * height) in
  let n := components in
  mask8_loop (Z.to_nat total) 0 n is_range sample_data mask_color pixel_data.

(** ** The statements of the specification *)

(** Name resolution as the specification words it: the dictionaries from
    the top of the stack down, those with less than read-only access left
    out; the first one that binds the key gives the value. *)
Fixpoint first_binding (key : string) (dicts : list (gmap string ref)) : option ref :=
  match dicts with
  | [] => None
  | d :: rest =>
      match d !! key with
      | Some v => Some v
      | None => first_binding key rest
      end
  end.

(** The dictionary stack as a list of access levels and contents, bottom
    first; [None] when a reference on it is not a dictionary. *)
Fixpoint resolve_dicts (h : list ps.PSObject) (ds : list ref)
    : option (list (Z * gmap string ref)) :=
  match ds with
  | [] => Some []
  | d :: rest =>
      match h !! d with
      | Some o =>
          match ps.val o with
          | PyDict mp =>
              match resolve_dicts h rest with
              | Some l => Some ((ps.access o, mp) :: l)
              | None => None
              end
          | _ => None
          end
      | None => None
      end
  end.

Definition readable (d : Z * gmap string ref) : bool := ACCESS_READ_ONLY <=? fst d.

Definition spec_lookup (key : string) (dicts : list (Z * gmap string ref)) : option ref :=
  first_binding key (map snd (filter (fun d => readable d = true) (reverse dicts))).

(** Every entry of the operator table is an Operator that the bottom
    dictionary of the stack, readable, binds under the same name. *)
Definition op_table_coherent (m : Machine) : Prop :=
  match _operator_table m with
  | None => True
  | Some op_table =>
      forall key op, op_table !! key = Some op ->
        exists d o mp f,
          d_stack m !! 0%nat = Some d /\ heap m !! d = Some o /\
          ACCESS_READ_ONLY <= ps.access o /\ ps.val o = PyDict mp /\
          mp !! key = Some op /\ heap m !! op = Some f /\
          ps.TYPE f = C_T_OPERATOR
  end.

(** Every reference held by a dictionary of the stack is an object of the
    store. *)
Definition dict_entries_allocated (m : Machine) : Prop :=
  forall d o mp key v,
    d ∈ d_stack m -> heap m !! d = Some o -> ps.val o = PyDict mp ->
    mp !! key = Some v -> (v < List.length (heap m))%nat.

(** [r] is an entry of a dictionary on the dictionary stack. *)
Definition dict_entry (m : Machine) (r : ref) : Prop :=
  exists d o mp key,
    d ∈ d_stack m /\ heap m !! d = Some o /\ ps.val o = PyDict mp /\
    mp !! key = Some r.

(** A pixel matches the color key: each of its [n] raw components equals
    the mask entry, or lies within its [low, high] pair. *)
Definition component_matches (is_range : bool) (sample_data mask_color : list Z)
    (n p : Z) (i : Z) : Prop :=
  exists raw, sample_data !! Z.to_nat (p * n + i) = Some raw /\
    if is_range then
      exists lo hi, mask_color !! Z.to_nat (2 * i) = Some lo /\
                    mask_color !! Z.to_nat (2 * i + 1) = Some hi /\
                    lo <= raw <= hi
    else mask_color !! Z.to_nat i = Some raw.

Definition pixel_matches (is_range : bool) (sample_data mask_color : list Z)
    (n p : Z) : Prop :=
  forall i, 0 <= i < n -> component_matches is_range sample_data mask_color n p i.

(** The undercolor formula at 8 bits: [255 * (1 - min(1, x + k))] for the
    components [x/255] and [k/255]. *)
Definition plrm8 (x k : Z) : Z := 255 - Z.min 255 (x + k).

(** The BGRX bytes of the pixels of an 8-bit CMYK buffer under the
    undercolor formula. *)
Fixpoint plrm8_pixels (src : list Z) (n : nat) : list Z :=
  match n, src with
  | S n', c :: m :: y :: k :: rest =>
      plrm8 y k :: plrm8 m k :: plrm8 c k :: 255 :: plrm8_pixels rest n'
  | _, _ => []
  end.

(** ** Relations between states *)

(** [m1] has the stacks, the dictionaries and the raised errors of [m], and
    its store is that of [m] with new objects at the end. *)
Definition same_stacks (m m1 : Machine) : Prop :=
  o_stack m1 = o_stack m /\ e_stack m1 = e_stack m /\
  d_stack m1 = d_stack m /\ _operator_table m1 = _operator_table m /\
  raised m1 = raised m /\ heap m `prefix_of` heap m1.

(** ** Sample objects and states *)

Definition obj (ty attr : Z) (v : PyVal) (st len : Z) : ps.PSObject :=
  ps.mk ty attr ACCESS_UNLIMITED v st len None (NInt 0) (NInt 0) (NInt 0).

(** A state with no operator table and no callback; [history] switches the
    execution history on. *)
Definition machine (h : list ps.PSObject) (o e d : list ref) (history : bool) : Machine :=
  mkMachine h o e d None false history false [] 20 [] 0 0 false history.

Definition m_literal : Machine := machine [ps.Int 5] [] [0%nat] [] false.

(** An empty procedure on the execution stack. *)
Definition m_empty_proc : Machine :=
  machine [obj C_T_ARRAY C_ATTRIB_EXEC (PyList []) 0 0] [] [0%nat] [] false.

(** A Stopped marker on the execution stack, above an integer. *)
Definition m_stopped : Machine :=
  machine [ps.Int 1; obj C_T_STOPPED C_ATTRIB_EXEC PyNone 0 0] [0%nat] [0%nat; 1%nat] [] false.

(** A literal String on the execution stack, the history switched on. *)
Definition m_string : Machine :=
  machine [obj C_T_STRING C_ATTRIB_LIT (PyBytes "abc") 0 3] [] [0%nat] [] true.

(** A literal Int on the execution stack, the history switched on. *)
Definition m_int_history : Machine := machine [ps.Int 5] [] [0%nat] [] true.

(** The procedure [{7}] on the execution stack: one element, a literal. *)
Definition m_last_literal : Machine :=
  machine [ps.Int 7; obj C_T_ARRAY C_ATTRIB_EXEC (PyList [0%nat]) 0 1]
          [] [1%nat] [] false.

(** The procedure [{7 add}] with [add] as an executable name. *)
Definition m_proc2 : Machine :=
  machine [ps.Int 7; obj C_T_NAME C_ATTRIB_EXEC (PyBytes "add") 0 0;
           obj C_T_ARRAY C_ATTRIB_EXEC (PyList [0%nat; 1%nat]) 0 2]
          [] [2%nat] [] false.

(** The view of an array after its front element is taken. *)
Definition advanced (t : ps.PSObject) : ps.PSObject :=
  ps.set_start (ps.start t + 1) (ps.set_length (ps.length t - 1) t).

(** The element goes to the operand stack: it is literal, or it is an
    executable array. *)
Definition to_operand_stack (o : ps.PSObject) : bool :=
  (is_array_type (ps.TYPE o) && (ps.attrib o =? C_ATTRIB_EXEC))
  || (ps.attrib o =? C_ATTRIB_LIT).

(** The element is pushed by reference: a literal Int, Real, Bool, Null or
    Mark. *)
Definition by_reference (o : ps.PSObject) : bool :=
  (ps.attrib o =? C_ATTRIB_LIT) && is_literal_type (ps.TYPE o).

(** What Path 3 does with the outcome of the lookup: the error, the
    Operator itself, or a copy of any other value. *)
Definition install_binding (key : string) (found : option ref) (m : Machine) : Outcome :=
  match found with
  | None =>
      match decode_ascii key with
      | Some command => Continue (ps_error_e UNDEFINED command m)
      | None => PyRaise UnicodeDecodeError m
      end
  | Some v =>
      match heap m !! v with
      | Some o =>
          if ps.TYPE o =? C_T_OPERATOR then Continue (set_top_e v m)
          else Continue (set_top_e (List.length (heap m)) (with_heap (heap m ++ [o]) m))
      | None => PyRaise AttributeError m
      end
  end.

(** [userdict] binds [x] to a procedure; the executable name [x] is on the
    execution stack. *)
Definition the_userdict : ps.PSObject :=
  obj C_T_DICT C_ATTRIB_LIT (PyDict {[ "x" := 2%nat ]}) 0 0.
Definition the_proc : ps.PSObject :=
  obj C_T_ARRAY C_ATTRIB_EXEC (PyList []) 0 0.
Definition the_name_x : ps.PSObject :=
  obj C_T_NAME C_ATTRIB_EXEC (PyBytes "x") 0 0.
Definition m_lookup_proc : Machine :=
  machine [the_userdict; the_name_x; the_proc] [] [1%nat] [0%nat] false.

(** A dictionary stack that binds nothing, and the executable name [zz]. *)
Definition the_emptydict : ps.PSObject :=
  obj C_T_DICT C_ATTRIB_LIT (PyDict ∅) 0 0.
Definition the_name_zz : ps.PSObject :=
  obj C_T_NAME C_ATTRIB_EXEC (PyBytes "zz") 0 0.
Definition m_undefined : Machine :=
  machine [the_emptydict; the_name_zz] [] [1%nat] [0%nat] false.

(** The same with a name of one byte, 233 (e acute in Latin-1), as
    [(\351) cvn cvx exec] puts it on the execution stack. *)
Definition name_latin1 : string := String (ascii_of_nat 233) EmptyString.
Definition the_name_latin1 : ps.PSObject :=
  obj C_T_NAME C_ATTRIB_EXEC (PyBytes name_latin1) 0 0.
Definition m_undefined_latin1 : Machine :=
  machine [the_emptydict; the_name_latin1] [] [1%nat] [0%nat] false.

(** A [for] loop goes on while the control value has not passed the
    limit: [control <= limit] for an increment that is at least 0,
    [control >= limit] for a negative one. *)
Definition for_goes_on (t : ps.PSObject) : bool :=
  (py_ge (ps.increment t) (NInt 0) && py_le (ps.control t) (ps.limit t))
  || (py_lt (ps.increment t) (NInt 0) && py_ge (ps.control t) (ps.limit t)).

(** The object that carries the control value to the operand stack. *)
Definition for_control_object (t : ps.PSObject) : ps.PSObject :=
  match ps.control t with
  | NInt z => ps.Int z
  | NFloat f => ps.Real f
  end.

(** The marker of [1 1 3 {} for] about to start, above its body. *)
Definition the_for_marker : ps.PSObject :=
  ps.mk C_T_LOOP C_ATTRIB_EXEC ACCESS_UNLIMITED (PyInt C_LT_FOR) 0 0
        (Some 0%nat) (NInt 1) (NInt 1) (NInt 3).
Definition m_for : Machine :=
  machine [the_proc; the_for_marker] [] [1%nat] [] false.

(** A byte of image data. *)
Definition is_byte (z : Z) : Prop := 0 <= z <= 255.

(** The 8-bit CMYK samples of the same decoded values as a 4-bit buffer:
    a 4-bit sample [v] decodes to [v/15], which is [17v/255]. *)
Fixpoint expand4 (src : list Z) (n : nat) : list Z :=
  match n, src with
  | S n', b1 :: b2 :: rest =>
      17 * Z.land (Z.shiftr b1 4) 15 :: 17 * Z.land b1 15
      :: 17 * Z.land (Z.shiftr b2 4) 15 :: 17 * Z.land b2 15
      :: expand4 rest n'
  | _, _ => []
  end.

(** Two bytes that differ by at most one. *)
Definition near (a b : Z) : Prop := Z.abs (a - b) <= 1.

(** The scale [cmyk4_to_bgrx] derives from the identity decode array. *)
Definition scale15 : float := ((1 - 0) / 15)%float.

(** The channel of [cmyk4_to_bgrx] for two 4-bit samples, identity decode,
    checked against the undercolor formula. *)
Definition under4_near (cv kv : Z) : bool :=
  match under4 (decode_sample 0 scale15 cv) (decode_sample 0 scale15 kv) with
  | Some v => (0 <=? v) && (v <=? 255) && (Z.abs (v - plrm8 (17 * cv) (17 * kv)) <=? 1)
  | None => false
  end.

Definition nibbles : list Z := map Z.of_nat (seq 0 16).

(** The bytes of a 1 x 1 12-bit CMYK image whose 12-bit samples repeat a
    4-bit value three times: [c = m = y = 273 * cv] and [k = 273 * kv],
    the samples that decode to [cv/15] and [kv/15]. *)
Definition src12 (cv kv : Z) : list Z :=
  [17 * cv; 17 * cv; 17 * cv; 17 * cv; 16 * cv + kv; 17 * kv].

(** The multiplicative formula [255 * (1 - cv/15) * (1 - kv/15)], rounded
    down. *)
Definition mult8 (cv kv : Z) : Z := 255 * (15 - cv) * (15 - kv) / 225.

Definition cmyk12_near (cv kv : Z) : bool :=
  match cmyk12_to_bgrx (src12 cv kv) 1 1 identity_decode with
  | Some [b; g; r; a] =>
      (b =? g) && (g =? r) && (a =? 255) && (Z.abs (r - mult8 cv kv) <=? 1)
  | _ => false
  end.

(** Byte [j] of the pixel buffer is the alpha byte of a pixel [p], with
    [lo <= p < hi], whose samples are all there and match the color key. *)
Definition masked_alpha (is_range : bool) (sample_data mask_color : list Z)
    (n lo hi : Z) (j : nat) : Prop :=
  exists p, lo <= p < hi /\ j = Z.to_nat (4 * p + 3) /\
    p * n + n <= Z.of_nat (List.length sample_data) /\
    pixel_matches is_range sample_data mask_color n p.

(** A Python integer that fits a C [int]. *)
Definition fits_int (z : Z) : Prop := - 2 ^ 31 <= z < 2 ^ 31.

(** A 2 x 1 RGB image, its BGRX pixels, and the color key of its first
    pixel. *)
Definition key_samples : list Z := [10; 20; 30; 40; 50; 60].
Definition key_pixels : list Z := [30; 20; 10; 255; 60; 50; 40; 255].
Definition key_color : list Z := [10; 20; 30].

(** The history flag of [ctxt] set after [exec_exec] was entered: the
    local of [exec_exec] still holds the old value. *)
Definition m_enabled_late : Machine :=
  mkMachine [ps.Int 5] [] [0%nat] [] None false true false [] 20 [] 0 0 false false.

(** [systemdict], read-only, binds [add] to an Operator that the operator
    table lists too; the executable name [add] is on the execution stack. *)
Definition the_systemdict : ps.PSObject :=
  ps.mk C_T_DICT C_ATTRIB_LIT ACCESS_READ_ONLY (PyDict {[ "add" := 2%nat ]}) 0 0
        None (NInt 0) (NInt 0) (NInt 0).
Definition the_name_add : ps.PSObject :=
  obj C_T_NAME C_ATTRIB_EXEC (PyBytes "add") 0 0.
Definition the_operator : ps.PSObject :=
  obj C_T_OPERATOR C_ATTRIB_EXEC (PyCallable 0) 0 0.
Definition m_fast : Machine :=
  mkMachine [the_systemdict; the_name_add; the_operator] [] [1%nat] [0%nat]
            (Some {[ "add" := 2%nat ]}) false false false [] 20 [] 0 0 false false.

(** ** The 8-bit converters for gray and RGB, and the decode variants *)

(** The loop of [gray8_to_bgrx]: [n] pixels left, [i] is the next one. *)
Fixpoint gray8_loop (n : nat) (i : Z) (src out : list Z) : option (list Z) :=
  match n with
  | O => Some out
  | S n' =>
      g ← rd src i;
      let o := c_int (i * 4) in
      out' ← write_bgrx out o g g g;
      gray8_loop n' (i + 1) src out'
  end.

Definition gray8_to_bgrx (src : list Z) (num_pixels : Z) : option (list Z) :=
  let out_len := c_int (num_pixels * 4) in
  out ← bytearray out_len;
  gray8_loop (Z.to_nat num_pixels) 0 src out.

(** The loop of [gray8_decode_to_bgrx]: [g = lut[src[i]]]. *)
Fixpoint gray8_decode_loop (n : nat) (i : Z) (src lut out : list Z) : option (list Z) :=
  match n with
  | O => Some out
  | S n' =>
      s ← rd src i;
      g ← rd lut s;
      let o := c_int (i * 4) in
      out' ← write_bgrx out o g g g;
      gray8_decode_loop n' (i + 1) src lut out'
  end.

Definition gray8_decode_to_bgrx (src : list Z) (num_pixels : Z) (lut : list Z)
    : option (list Z) :=
  let out_len := c_int (num_pixels * 4) in
  out ← bytearray out_len;
  gray8_decode_loop (Z.to_nat num_pixels) 0 src lut out.

(** The loop of [rgb8_to_bgrx]: [out[di] = src[si + 2]], [out[di + 1] =
    src[si + 1]], [out[di + 2] = src[si]]. *)
Fixpoint rgb8_loop (n : nat) (i : Z) (src out : list Z) : option (list Z) :=
  match n with
  | O => Some out
  | S n' =>
      let si := c_int (i * 3) in
      let di := c_int (i * 4) in
      b ← rd src (si + 2);
      g ← rd src (si + 1);
      r ← rd src si;
      out' ← write_bgrx out di b g r;
      rgb8_loop n' (i + 1) src out'
  end.

Definition rgb8_to_bgrx (src : list Z) (num_pixels : Z) : option (list Z) :=
  let out_len := c_int (num_pixels * 4) in
  out ← bytearray out_len;
  rgb8_loop (Z.to_nat num_pixels) 0 src out.

(** The loop of [rgb8_decode_to_bgrx], a lookup table per channel. *)
Fixpoint rgb8_decode_loop (n : nat) (i : Z) (src r_lut g_lut b_lut out : list Z)
    : option (list Z) :=
  match n with
  | O => Some out
  | S n' =>
      let si := c_int (i * 3) in
      let di := c_int (i * 4) in
      sb ← rd src (si + 2);
      b ← rd b_lut sb;
      sg ← rd src (si + 1);
      g ← rd g_lut sg;
      sr ← rd src si;
      r ← rd r_lut sr;
      out' ← write_bgrx out di b g r;
      rgb8_decode_loop n' (i + 1) src r_lut g_lut b_lut out'
  end.

Definition rgb8_decode_to_bgrx (src : list Z) (num_pixels : Z)
    (r_lut g_lut b_lut : list Z) : option (list Z) :=
  let out_len := c_int (num_pixels * 4) in
  out ← bytearray out_len;
  rgb8_decode_loop (Z.to_nat num_pixels) 0 src r_lut g_lut b_lut out.

(** The loop of [cmyk8_decode_to_bgrx]: the tables give the decoded
    components, then the formula of [cmyk8_to_bgrx]. *)
Fixpoint cmyk8_decode_loop (n : nat) (i : Z) (src c_lut m_lut y_lut k_lut out : list Z)
    : option (list Z) :=
  match n with
  | O => Some out
  | S n' =>
      let si := c_int (i * 4) in
      let di := c_int (i * 4) in
      sc ← rd src si;
      c ← rd c_lut sc;
      sm ← rd src (si + 1);
      m ← rd m_lut sm;
      sy ← rd src (si + 2);
      y ← rd y_lut sy;
      sk ← rd src (si + 3);
      k ← rd k_lut sk;
      out' ← write_bgrx out di (under8 y k) (under8 m k) (under8 c k);
      cmyk8_decode_loop n' (i + 1) src c_lut m_lut y_lut k_lut out'
  end.

Definition cmyk8_decode_to_bgrx (src : list Z) (num_pixels : Z)
    (c_lut m_lut y_lut k_lut : list Z) : option (list Z) :=
  let out_len := c_int (num_pixels * 4) in
  out ← bytearray out_len;
  cmyk8_decode_loop (Z.to_nat num_pixels) 0 src c_lut m_lut y_lut k_lut out.

(** A decode table: 256 bytes. *)
Definition is_lut (lut : list Z) : Prop :=
  List.length lut = 256%nat /\ Forall is_byte lut.

(** [lut[v]], with 0 outside the table. *)
Definition lut_at (lut : list Z) (v : Z) : Z := default 0 (lut !! Z.to_nat v).

(** The table that decodes every sample to itself. *)
Definition identity_lut : list Z := map Z.of_nat (seq 0 256).

(** The opaque gray pixels of a list of samples. *)
Fixpoint gray_pixels (samples : list Z) : list Z :=
  match samples with
  | [] => []
  | g :: rest => g :: g :: g :: 255 :: gray_pixels rest
  end.

(** The opaque pixels of [n] RGB triples, in BGRX order. *)
Fixpoint bgrx_pixels (src : list Z) (n : nat) : list Z :=
  match n, src with
  | S n', r :: g :: b :: rest => b :: g :: r :: 255 :: bgrx_pixels rest n'
  | _, _ => []
  end.

(** Each sample three times: the RGB samples of a gray image. *)
Fixpoint gray_as_rgb (samples : list Z) : list Z :=
  match samples with
  | [] => []
  | g :: rest => g :: g :: g :: gray_as_rgb rest
  end.

(** The samples of [n] RGB pixels, and of [n] CMYK pixels, each channel
    sent through its table. *)
Fixpoint decode_rgb (r_lut g_lut b_lut src : list Z) (n : nat) : list Z :=
  match n, src with
  | S n', r :: g :: b :: rest =>
      lut_at r_lut r :: lut_at g_lut g :: lut_at b_lut b
      :: decode_rgb r_lut g_lut b_lut rest n'
  | _, _ => []
  end.

Fixpoint decode_cmyk (c_lut m_lut y_lut k_lut src : list Z) (n : nat) : list Z :=
  match n, src with
  | S n', c :: m :: y :: k :: rest =>
      lut_at c_lut c :: lut_at m_lut m :: lut_at y_lut y :: lut_at k_lut k
      :: decode_cmyk c_lut m_lut y_lut k_lut rest n'
  | _, _ => []
  end.

(** ** Runs of the dispatch loop *)

(** [k] iterations of [while e_stack:], each of which ends in [continue]. *)
Fixpoint exec_steps (k : nat) (m : Machine) : option Machine :=
  match k with
  | O => Some m
  | S k' =>
      match e_stack m with
      | [] => None
      | _ =>
          match exec_iter m with
          | Continue m1 => exec_steps k' m1
          | _ => None
          end
      end
  end.

(** The types the chain of tests in the loop of [exec_exec] has a branch
    for. *)
Definition has_branch (ty : Z) : bool :=
  is_literal_type ty || (ty =? C_T_OPERATOR) || (ty =? C_T_NAME)
  || is_tokenizable_type ty || is_array_type ty || (ty =? C_T_STOPPED)
  || (ty =? C_T_LOOP) || (ty =? C_T_HARD_RETURN).

(** Every object of [m] but the one at [top] is in [m'] as it was. *)
Definition kept_except (top : ref) (m m' : Machine) : Prop :=
  forall r o, r <> top -> heap m !! r = Some o -> heap m' !! r = Some o.

(** [c], [c + i], ... : [n] values. *)
Fixpoint progression (c i : Z) (n : nat) : list Z :=
  match n with
  | O => []
  | S n' => c :: progression (c + i) i n'
  end.

(** An object that Path L moves to the operand stack. *)
Definition is_literal (o : ps.PSObject) : bool :=
  is_literal_type (ps.TYPE o) || (ps.attrib o =? C_ATTRIB_LIT).

(** An executable Dict on the execution stack. *)
Definition m_exec_dict : Machine :=
  machine [obj C_T_DICT C_ATTRIB_EXEC (PyDict ∅) 0 0] [] [0%nat] [] true.

(** A HardReturn marker above two integers. *)
Definition m_hard_return : Machine :=
  machine [ps.Int 1; ps.Int 2; obj C_T_HARD_RETURN C_ATTRIB_EXEC PyNone 0 0]
          [] [0%nat; 1%nat; 2%nat] [] false.

(** The marker of [3 {7 8} repeat] about to start, above its body and the
    two elements of the body. *)
Definition the_repeat_marker : ps.PSObject :=
  ps.mk C_T_LOOP C_ATTRIB_EXEC ACCESS_UNLIMITED (PyInt C_LT_REPEAT) 0 0
        (Some 2%nat) (NInt 0) (NInt 0) (NInt 3).
Definition the_repeat_body : ps.PSObject :=
  obj C_T_ARRAY C_ATTRIB_EXEC (PyList [0%nat; 1%nat]) 0 2.
Definition m_repeat : Machine :=
  machine [ps.Int 7; ps.Int 8; the_repeat_body; the_repeat_marker]
          [] [3%nat] [] false.

(** The marker of [1 2 6 {} for] about to start, above its empty body. *)
Definition the_for_marker_by_2 : ps.PSObject :=
  ps.mk C_T_LOOP C_ATTRIB_EXEC ACCESS_UNLIMITED (PyInt C_LT_FOR) 0 0
        (Some 0%nat) (NInt 1) (NInt 2) (NInt 6).
Definition m_for_by_2 : Machine :=
  machine [obj C_T_ARRAY C_ATTRIB_EXEC (PyList []) 0 0; the_for_marker_by_2]
          [] [1%nat] [] false.

(** An executable array or packed array. *)
Definition is_procedure (o : ps.PSObject) : Prop :=
  (ps.TYPE o = C_T_ARRAY \/ ps.TYPE o = C_T_PACKED_ARRAY) /\
  ps.attrib o = C_ATTRIB_EXEC.

(** The elements an array object gives access to: [length] of them, from
    [start] on in the backing list. *)
Definition elements (t : ps.PSObject) (elems : list ref) : Prop :=
  exists pre post,
    ps.val t = PyList (pre ++ elems ++ post) /\
    ps.start t = Z.of_nat (List.length pre) /\
    ps.length t = Z.of_nat (List.length elems).

(** Every reference is to a literal Int, Real, Bool, Null or Mark. *)
Definition scalars (m : Machine) (elems : list ref) : Prop :=
  Forall (fun r => exists o, heap m !! r = Some o /\ by_reference o = true) elems.

(** The test of a [for] loop on integers: [control <= limit] for an
    increment that is at least 0, [control >= limit] for a negative one. *)
Definition for_in_range (i l c : Z) : bool :=
  if 0 <=? i then c <=? l else l <=? c.

(** ** The event loop callback over a run *)

(** A state like [m_exec_dict] but with a callback and no history. *)
Definition m_callback : Machine :=
  mkMachine [obj C_T_DICT C_ATTRIB_EXEC (PyDict ∅) 0 0] [] [0%nat] [] None
    true false false [] 20 [] 0 0 false false.

(** ** [_ps_exec_from_token] *)

Definition pop_o (m : Machine) : Machine :=
  with_o_stack (py_pop (o_stack m)) m.

(** [e_stack.append(o_stack[-1]); o_stack.pop()]. *)
Definition move_to_e (top : ref) (m : Machine) : Machine :=
  pop_o (push_e top m).

(** [val and val[0] == 125] for the payload of a Name, which is a bytes
    object; any other payload is a TypeError ([None]) as in [exec_name]. *)
Definition is_close_brace (v : PyVal) : option bool :=
  match v with
  | PyBytes EmptyString => Some false
  | PyBytes (String a _) => Some (Nat.eqb (nat_of_ascii a) 125)
  | _ => None
  end.

(** The function takes [ctxt.proc_count] as [proc_count].  Two callees are
    not among the sources at hand and are arguments of the model:
    [lookup m name] is the result of [ps_dict.lookup(ctxt, o_stack[-1])],
    [str t] the result of [o_stack[-1].__str__()]. *)
Definition _ps_exec_from_token (proc_count : Z)
    (lookup : Machine -> ref -> option ref) (str : ps.PSObject -> string)
    (m : Machine) : Outcome :=
  if Z.of_nat (List.length (o_stack m)) <? 1 then
    Continue (ps_error_e STACKUNDERFLOW "exec" m)
  else
    match py_top (o_stack m) with
    | None => PyRaise IndexError m
    | Some top =>
        match heap m !! top with
        | None => PyRaise AttributeError m
        | Some t =>
            if ps.access t <? ACCESS_READ_ONLY then
              Continue (ps_error_e INVALIDACCESS "exec" m)
            else
              let obj_type := ps.TYPE t in
              let obj_attrib := ps.attrib t in
              match (if obj_type =? C_T_NAME then is_close_brace (ps.val t)
                     else Some false) with
              | None => PyRaise TypeError m
              | Some brace =>
                  if brace && (obj_attrib =? C_ATTRIB_EXEC) then
                    Continue (move_to_e top m)
                  else if proc_count =? 0 then
                    if is_tokenizable_type obj_type then
                      if obj_attrib =? C_ATTRIB_EXEC then Continue (move_to_e top m)
                      else Continue m
                    else if obj_type =? C_T_NAME then
                      if obj_attrib =? C_ATTRIB_EXEC then
                        match lookup m top with
                        | None => Continue (ps_error_e UNDEFINED (str t) m)
                        | Some obj => Continue (pop_o (push_e obj m))
                        end
                      else Continue m
                    else if obj_type =? C_T_OPERATOR then Continue (move_to_e top m)
                    else if is_array_type obj_type then
                      if obj_attrib =? C_ATTRIB_EXEC then
                        match py_copy top m with
                        | Some (m1, c) => Continue (pop_o (push_e c m1))
                        | None => PyRaise AttributeError m
                        end
                      else Continue m
                    else Continue m
                  else Continue m
              end
        end
    end.

(** An executable Name whose first byte is [}]. *)
Definition closes_procedure (t : ps.PSObject) : bool :=
  (ps.TYPE t =? C_T_NAME) && (ps.attrib t =? C_ATTRIB_EXEC)
  && match ps.val t with
     | PyBytes (String a _) => Nat.eqb (nat_of_ascii a) 125
     | _ => false
     end.

(** A Name carries bytes. *)
Definition well_formed_name (t : ps.PSObject) : Prop :=
  ps.TYPE t = C_T_NAME -> exists s, ps.val t = PyBytes s.

(** The tokens [add] and [}] on the operand stack of a state. *)
Definition m_token_add : Machine :=
  machine [obj C_T_NAME C_ATTRIB_EXEC (PyBytes "add") 0 0] [0%nat] [] [] false.
Definition m_token_brace : Machine :=
  machine [obj C_T_NAME C_ATTRIB_EXEC (PyBytes "}") 0 0] [0%nat] [] [] false.
Definition m_token_proc : Machine :=
  machine [ps.Int 7; obj C_T_ARRAY C_ATTRIB_EXEC (PyList [0%nat]) 0 1]
          [1%nat] [] [] false.

(** ** [_handle_forall] *)

(** The marker of a [forall] has its operand in the attribute [obj], for
    which the record of this development has no field: [obj_of] gives it,
    for the reference of a marker.  Of the three branches the one for
    arrays is modelled; the branch for strings reads the string store and
    the one for dictionaries a generator, neither of which is part of the
    state here.  The elements of an array are objects of the store, so
    the wrapping of raw Python values does not come into play. *)
Definition _handle_forall (obj_of : ref -> option ref) (top : ref) (m : Machine)
    : Outcome :=
  match obj_of top with
  | None => PyRaise AttributeError m
  | Some obj =>
      match heap m !! obj with
      | None => PyRaise AttributeError m
      | Some a =>
          if ps.TYPE a =? C_T_STRING then Extern (CallLoopHandler C_LT_FORALL) m
          else if is_array_type (ps.TYPE a) then
            if ps.length a =? 0 then Continue (pop_e m)
            else
              match ps.val a with
              | PyList l =>
                  match py_index l (ps.start a) with
                  | None => PyRaise IndexError m
                  | Some elem =>
                      let m1 := push_o elem m in
                      let m2 := update_obj obj
                                  (fun o => ps.set_start (ps.start o + 1) o) m1 in
                      let m3 := update_obj obj
                                  (fun o => ps.set_length (ps.length o - 1) o) m2 in
                      schedule_body false top m3
                  end
              | _ => PyRaise TypeError m
              end
          else if ps.TYPE a =? C_T_DICT then Extern (CallLoopHandler C_LT_FORALL) m
          else Continue m
      end
  end.

(** An iteration of the loop of [exec_exec] with the call of
    [_handle_forall] carried out. *)
Definition exec_iter_forall (obj_of : ref -> option ref) (m : Machine) : Outcome :=
  match exec_iter m with
  | Extern (CallLoopHandler loop_type) m1 =>
      if loop_type =? C_LT_FORALL then
        match py_top (e_stack m1) with
        | Some top => _handle_forall obj_of top m1
        | None => PyRaise IndexError m1
        end
      else Extern (CallLoopHandler loop_type) m1
  | out => out
  end.

Fixpoint exec_steps_forall (obj_of : ref -> option ref) (k : nat) (m : Machine)
    : option Machine :=
  match k with
  | O => Some m
  | S k' =>
      match e_stack m with
      | [] => None
      | _ =>
          match exec_iter_forall obj_of m with
          | Continue m1 => exec_steps_forall obj_of k' m1
          | _ => None
          end
      end
  end.

(** The view of an array after [forall] has taken its front element. *)
Definition forall_advanced (a : ps.PSObject) : ps.PSObject :=
  ps.set_length (ps.length a - 1) (ps.set_start (ps.start a + 1) a).

(** [[7 (a)] {} forall] about to start: the marker at 4, its operand at 3,
    the empty body at 2. *)
Definition the_forall_marker : ps.PSObject :=
  ps.mk C_T_LOOP C_ATTRIB_EXEC ACCESS_UNLIMITED (PyInt C_LT_FORALL) 0 0
        (Some 2%nat) (NInt 0) (NInt 0) (NInt 0).
Definition m_forall : Machine :=
  machine [ps.Int 7; obj C_T_STRING C_ATTRIB_LIT (PyBytes "a") 0 1;
           obj C_T_ARRAY C_ATTRIB_EXEC (PyList []) 0 0;
           obj C_T_ARRAY C_ATTRIB_LIT (PyList [0%nat; 1%nat]) 0 2;
           the_forall_marker]
          [] [4%nat] [] false.
Definition forall_operand (r : ref) : option ref :=
  if Nat.eqb r 4 then Some 3%nat else None.

(** ** Grayscale below 8 bits *)

(** The table [gray2_to_bgrx] and [gray4_to_bgrx] compute before their
    loop: entry [i] is the byte of [decode_min_val + i * scale]; [n]
    entries are left to compute. *)
Fixpoint gray_lut (n : nat) (i : Z) (decode_min_val scale : float)
    : option (list Z) :=
  match n with
  | O => Some []
  | S n' =>
      val ← to_byte (decode_sample decode_min_val scale i);
      rest ← gray_lut n' (i + 1) decode_min_val scale;
      Some (val :: rest)
  end.

(** The [while sample_index < total] loop of [gray4_to_bgrx]: a byte per
    iteration, the high nibble first; [fuel] bounds the iterations. *)
Fixpoint gray4_loop (fuel : nat) (sample_index byte_idx total : Z)
    (src lut out : list Z) : option (list Z) :=
  match fuel with
  | O => if sample_index <? total then None else Some out
  | S fuel' =>
      if sample_index <? total then
        bv ← rd src byte_idx;
        g ← rd lut (Z.land (Z.shiftr bv 4) 15);
        let o := c_int (sample_index * 4) in
        out1 ← write_bgrx out o g g g;
        let sample_index := c_int (sample_index + 1) in
        if sample_index >=? total then Some out1
        else
          g ← rd lut (Z.land bv 15);
          let o := c_int (sample_index * 4) in
          out2 ← write_bgrx out1 o g g g;
          gray4_loop fuel' (c_int (sample_index + 1)) (c_int (byte_idx + 1))
            total src lut out2
      else Some out
  end.

Definition gray4_to_bgrx (src : list Z) (width height : Z)
    (decode_min_val decode_max_val : float) : option (list Z) :=
  let total := c_int (width * height) in
  let out_len := c_int (total * 4) in
  out ← bytearray out_len;
  let scale := ((decode_max_val - decode_min_val) / 15)%float in
  lut ← gray_lut 16 0 decode_min_val scale;
  gray4_loop (Z.to_nat total) 0 0 total src lut out.

(** The inner [for bit in range(8)] of [gray1_to_bgrx]: [n] bits of the
    byte [bv] are left, [bit] is the next; the result is [bit_index] and
    the buffer as the loop leaves them. *)
Fixpoint gray1_bits (n : nat) (bit bv bit_index total : Z) (lut out : list Z)
    : option (Z * list Z) :=
  match n with
  | O => Some (bit_index, out)
  | S n' =>
      if bit_index >=? total then Some (bit_index, out)
      else
        g ← rd lut (Z.land (Z.shiftr bv (7 - bit)) 1);
        let o := c_int (bit_index * 4) in
        out' ← write_bgrx out o g g g;
        gray1_bits n' (bit + 1) bv (c_int (bit_index + 1)) total lut out'
  end.

(** The [while bit_index < total] loop of [gray1_to_bgrx]. *)
Fixpoint gray1_loop (fuel : nat) (bit_index byte_idx total : Z)
    (src lut out : list Z) : option (list Z) :=
  match fuel with
  | O => if bit_index <? total then None else Some out
  | S fuel' =>
      if bit_index <? total then
        bv ← rd src byte_idx;
        '(bit_index', out') ← gray1_bits 8 0 bv bit_index total lut out;
        gray1_loop fuel' bit_index' (c_int (byte_idx + 1)) total src lut out'
      else Some out
  end.

Definition gray1_to_bgrx (src : list Z) (width height : Z)
    (decode_min_val decode_max_val : float) : option (list Z) :=
  let total := c_int (width * height) in
  let out_len := c_int (total * 4) in
  out ← bytearray out_len;
  v0 ← to_byte decode_min_val;
  v1 ← to_byte decode_max_val;
  gray1_loop (Z.to_nat total) 0 0 total src [v0; v1] out.

(** A table of [n] bytes. *)
Definition is_table (n : nat) (lut : list Z) : Prop :=
  List.length lut = n /\ Forall is_byte lut.

(** The 4-bit samples of a buffer, the high nibble of a byte first. *)
Fixpoint unpack4 (src : list Z) : list Z :=
  match src with
  | [] => []
  | b :: rest => Z.land (Z.shiftr b 4) 15 :: Z.land b 15 :: unpack4 rest
  end.

(** The bits [bit], [bit + 1], ... of a byte, bit 0 the most significant;
    [n] bits. *)
Fixpoint bits_from (n : nat) (bit bv : Z) : list Z :=
  match n with
  | O => []
  | S n' => Z.land (Z.shiftr bv (7 - bit)) 1 :: bits_from n' (bit + 1) bv
  end.

(** The 1-bit samples of a buffer, the most significant bit of a byte
    first. *)
Fixpoint unpack1 (src : list Z) : list Z :=
  match src with
  | [] => []
  | b :: rest => bits_from 8 0 b ++ unpack1 rest
  end.

(** The table of [gray4_to_bgrx] for the decode array [1 0]. *)
Definition gray4_inverted_lut : list Z :=
  [255; 238; 221; 204; 187; 170; 153; 136; 119; 102; 85; 68; 50; 33; 16; 0].

(** What the table of [gray4_to_bgrx] holds for the decode array [1 0]. *)
Definition gray4_inverted (v : Z) : Z :=
  255 - 17 * v - (if (12 <=? v) && (v <=? 14) then 1 else 0).

(** [shifts] of [gray2_to_bgrx]. *)
Definition gray2_shifts : list Z := [6; 4; 2; 0].

(** The inner [for i in range(4)] of [gray2_to_bgrx]: [n] samples of the
    byte at [byte_idx] are left, [i] is the next; the result is
    [sample_index] and the buffer as the loop leaves them. *)
Fixpoint gray2_samples (n : nat) (i byte_idx sample_index total : Z)
    (src lut out : list Z) : option (Z * list Z) :=
  match n with
  | O => Some (sample_index, out)
  | S n' =>
      if sample_index >=? total then Some (sample_index, out)
      else
        bv ← rd src byte_idx;
        shift ← rd gray2_shifts i;
        g ← rd lut (Z.land (Z.shiftr bv shift) 3);
        let o := c_int (sample_index * 4) in
        out' ← write_bgrx out o g g g;
        gray2_samples n' (i + 1) byte_idx (c_int (sample_index + 1)) total
          src lut out'
  end.

(** The [while sample_index < total] loop of [gray2_to_bgrx]. *)
Fixpoint gray2_loop (fuel : nat) (sample_index byte_idx total : Z)
    (src lut out : list Z) : option (list Z) :=
  match fuel with
  | O => if sample_index <? total then None else Some out
  | S fuel' =>
      if sample_index <? total then
        '(sample_index', out') ←
          gray2_samples 4 0 byte_idx sample_index total src lut out;
        gray2_loop fuel' sample_index' (c_int (byte_idx + 1)) total src lut out'
      else Some out
  end.

Definition gray2_to_bgrx (src : list Z) (width height : Z)
    (decode_min_val decode_max_val : float) : option (list Z) :=
  let total := c_int (width * height) in
  let out_len := c_int (total * 4) in
  out ← bytearray out_len;
  let scale := ((decode_max_val - decode_min_val) / 3)%float in
  lut ← gray_lut 4 0 decode_min_val scale;
  gray2_loop (Z.to_nat total) 0 0 total src lut out.

(** The 2-bit samples of a byte from sample [i] on, and of a buffer, the
    most significant pair of bits first. *)
Definition pairs_from (i : nat) (bv : Z) : list Z :=
  (fun shift => Z.land (Z.shiftr bv shift) 3) <$> drop i gray2_shifts.

Fixpoint unpack2 (src : list Z) : list Z :=
  match src with
  | [] => []
  | b :: rest => pairs_from 0 b ++ unpack2 rest
  end.

(** ** RGB at 4 bits per sample *)

(** The 4-bit sample number [si] of the row that starts at byte
    [row_start]: [src[row_start + si // 2]], its high nibble for an even
    [si]. *)
Definition sample4 (src : list Z) (row_start si : Z) : option Z :=
  let byte_idx := Z.quot si 2 in
  b ← rd src (c_int (row_start + byte_idx));
  Some (if Z.rem si 2 =? 0 then Z.land (Z.shiftr b 4) 15 else Z.land b 15).

(** The six entries of an RGB decode array, and a scale per channel. *)
Definition decode_scales3 (decode_array : list float) (top : float)
    : option (float * float * float * (float * float * float)) :=
  r_min ← decode_array !! 0%nat; r_max ← decode_array !! 1%nat;
  g_min ← decode_array !! 2%nat; g_max ← decode_array !! 3%nat;
  b_min ← decode_array !! 4%nat; b_max ← decode_array !! 5%nat;
  Some (r_min, g_min, b_min,
        (((r_max - r_min) / top)%float, ((g_max - g_min) / top)%float,
         ((b_max - b_min) / top)%float)).

(** One pixel of [rgb4_to_bgrx]. *)
Definition rgb4_pixel (row col width row_start : Z)
    (lo : float * float * float) (sc : float * float * float)
    (src out : list Z) : option (list Z) :=
  let '(r_min, g_min, b_min) := lo in
  let '(r_scale, g_scale, b_scale) := sc in
  let sample_base := c_int (col * 3) in
  let pixel_idx := c_int (c_int (row * width) + col) in
  let o := c_int (pixel_idx * 4) in
  rv ← sample4 src row_start sample_base;
  gv ← sample4 src row_start (c_int (sample_base + 1));
  bv ← sample4 src row_start (c_int (sample_base + 2));
  vb ← to_byte (decode_sample b_min b_scale bv);
  out1 ← wr out o vb;
  vg ← to_byte (decode_sample g_min g_scale gv);
  out2 ← wr out1 (o + 1) vg;
  vr ← to_byte (decode_sample r_min r_scale rv);
  out3 ← wr out2 (o + 2) vr;
  wr out3 (o + 3) 255.

Fixpoint rgb4_cols (n : nat) (row col width row_start : Z)
    (lo : float * float * float) (sc : float * float * float)
    (src out : list Z) : option (list Z) :=
  match n with
  | O => Some out
  | S n' =>
      out' ← rgb4_pixel row col width row_start lo sc src out;
      rgb4_cols n' row (col + 1) width row_start lo sc src out'
  end.

Fixpoint rgb4_rows (n : nat) (row width bytes_per_row : Z)
    (lo : float * float * float) (sc : float * float * float)
    (src out : list Z) : option (list Z) :=
  match n with
  | O => Some out
  | S n' =>
      let row_start := c_int (row * bytes_per_row) in
      out' ← rgb4_cols (Z.to_nat width) row 0 width row_start lo sc src out;
      rgb4_rows n' (row + 1) width bytes_per_row lo sc src out'
  end.

Definition rgb4_to_bgrx (src : list Z) (width height : Z)
    (decode_array : list float) : option (list Z) :=
  let out_len := c_int (c_int (width * height) * 4) in
  out ← bytearray out_len;
  '(lo, sc) ← decode_scales3 decode_array 15%float;
  let samples_per_row := c_int (width * 3) in
  let bits_per_row := c_int (samples_per_row * 4) in
  let bytes_per_row := Z.quot (c_int (bits_per_row + 7)) 8 in
  rgb4_rows (Z.to_nat height) 0 width bytes_per_row lo sc src out.

(** The samples of an image whose rows are padded to a whole number of
    bytes: of each of [h] rows of [bytes_per_row] bytes the first
    [samples_per_row] 4-bit samples. *)
Fixpoint unpack_rows4 (h bytes_per_row samples_per_row : nat) (src : list Z)
    : list Z :=
  match h with
  | O => []
  | S h' =>
      take samples_per_row (unpack4 src)
      ++ unpack_rows4 h' bytes_per_row samples_per_row (drop bytes_per_row src)
  end.

(** The opaque pixels of RGB samples that index a table per channel. *)
Fixpoint table_pixels (r_lut g_lut b_lut samples : list Z) : list Z :=
  match samples with
  | r :: g :: b :: rest =>
      lut_at b_lut b :: lut_at g_lut g :: lut_at r_lut r :: 255
      :: table_pixels r_lut g_lut b_lut rest
  | _ => []
  end.

(** The table [to_byte (lo + i * scale)] of one channel, 4-bit samples. *)
Definition channel_table (lo hi : float) (lut : list Z) : Prop :=
  gray_lut 16 0 lo ((hi - lo) / 15)%float = Some lut.

Definition scale17 : list Z :=
  [0; 17; 34; 51; 68; 85; 102; 119; 136; 153; 170; 187; 204; 221; 238; 255].

(** ** Color key masking at 4 bits per sample *)

(** The test of one pixel in [apply_color_key_mask_4]: [cnt] components
    are left, [si] is the next. *)
Fixpoint match4 (cnt : nat) (si sample_base row bytes_per_row : Z)
    (is_range : bool) (sample_data mask_color : list Z) : option bool :=
  match cnt with
  | O => Some true
  | S c =>
      raw_val ← sample4 sample_data (c_int (row * bytes_per_row))
                  (c_int (sample_base + si));
      if is_range then
        lo ← mask_at mask_color (c_int (si * 2));
        hi ← mask_at mask_color (c_int (c_int (si * 2) + 1));
        if (raw_val <? lo) || (raw_val >? hi) then Some false
        else match4 c (si + 1) sample_base row bytes_per_row is_range
               sample_data mask_color
      else
        v ← mask_at mask_color si;
        if negb (raw_val =? v) then Some false
        else match4 c (si + 1) sample_base row bytes_per_row is_range
               sample_data mask_color
  end.

(** One pixel of [apply_color_key_mask_4]. *)
Definition mask4_pixel (row col width n bytes_per_row : Z) (is_range : bool)
    (sample_data mask_color pixel_data : list Z) : option (list Z) :=
  let pixel_idx := c_int (c_int (row * width) + col) in
  let sample_base := c_int (col * n) in
  matches ← match4 (Z.to_nat n) 0 sample_base row bytes_per_row is_range
              sample_data mask_color;
  if matches : bool then
    let alpha_offset := c_int (c_int (pixel_idx * 4) + 3) in
    if alpha_offset <? c_int (Z.of_nat (List.length pixel_data))
    then wr pixel_data alpha_offset 0
    else Some pixel_data
  else Some pixel_data.

Fixpoint mask4_cols (cnt : nat) (row col width n bytes_per_row : Z)
    (is_range : bool) (sample_data mask_color pixel_data : list Z)
    : option (list Z) :=
  match cnt with
  | O => Some pixel_data
  | S c =>
      pixel_data' ← mask4_pixel row col width n bytes_per_row is_range
                      sample_data mask_color pixel_data;
      mask4_cols c row (col + 1) width n bytes_per_row is_range
        sample_data mask_color pixel_data'
  end.

Fixpoint mask4_rows (cnt : nat) (row width n bytes_per_row : Z)
    (is_range : bool) (sample_data mask_color pixel_data : list Z)
    : option (list Z) :=
  match cnt with
  | O => Some pixel_data
  | S c =>
      pixel_data' ← mask4_cols (Z.to_nat width) row 0 width n bytes_per_row
                      is_range sample_data mask_color pixel_data;
      mask4_rows c (row + 1) width n bytes_per_row is_range
        sample_data mask_color pixel_data'
  end.

Definition apply_color_key_mask_4 (pixel_data sample_data : list Z)
    (width height components : Z) (mask_color : list Z) (is_range : bool)
    : option (list Z) :=
  let n := components in
  let samples_per_row := c_int (width * n) in
  let bits_per_row := c_int (samples_per_row * 4) in
  let bytes_per_row := Z.quot (c_int (bits_per_row + 7)) 8 in
  mask4_rows (Z.to_nat height) 0 width n bytes_per_row is_range
    sample_data mask_color pixel_data.

(** ** Twelve bits per sample *)

(** One pixel of [gray12_to_bgrx]. *)
Definition gray12_pixel (row col width row_start : Z) (decode_min scale : float)
    (src out : list Z) : option (list Z) :=
  sample_val ← sample12 src row_start col;
  val ← to_byte (decode_sample decode_min scale sample_val);
  let pixel_idx := c_int (c_int (row * width) + col) in
  let o := c_int (pixel_idx * 4) in
  write_bgrx out o val val val.

Fixpoint gray12_cols (n : nat) (row col width row_start : Z)
    (decode_min scale : float) (src out : list Z) : option (list Z) :=
  match n with
  | O => Some out
  | S n' =>
      out' ← gray12_pixel row col width row_start decode_min scale src out;
      gray12_cols n' row (col + 1) width row_start decode_min scale src out'
  end.

Fixpoint gray12_rows (n : nat) (row width bytes_per_row : Z)
    (decode_min scale : float) (src out : list Z) : option (list Z) :=
  match n with
  | O => Some out
  | S n' =>
      let row_start := c_int (row * bytes_per_row) in
      out' ← gray12_cols (Z.to_nat width) row 0 width row_start decode_min scale
               src out;
      gray12_rows n' (row + 1) width bytes_per_row decode_min scale src out'
  end.

Definition gray12_to_bgrx (src : list Z) (width height : Z)
    (decode_array : list float) : option (list Z) :=
  let total := c_int (width * height) in
  let out_len := c_int (total * 4) in
  out ← bytearray out_len;
  decode_min ← decode_array !! 0%nat;
  decode_max ← decode_array !! 1%nat;
  let scale := ((decode_max - decode_min) / 4095)%float in
  let bits_per_row := c_int (width * 12) in
  let bytes_per_row := Z.quot (c_int (bits_per_row + 7)) 8 in
  gray12_rows (Z.to_nat height) 0 width bytes_per_row decode_min scale src out.

(** The 12-bit samples of a row of bytes, most significant bits first: two
    samples to three bytes, and a last sample from two bytes. *)
Fixpoint unpack12 (src : list Z) : list Z :=
  match src with
  | a :: b :: c :: rest =>
      Z.lor (Z.shiftl a 4) (Z.shiftr b 4)
      :: Z.lor (Z.shiftl (Z.land b 15) 8) c :: unpack12 rest
  | [a; b] => [Z.lor (Z.shiftl a 4) (Z.shiftr b 4)]
  | _ => []
  end.

(** The first [samples_per_row] 12-bit samples of each of [h] rows of
    [bytes_per_row] bytes. *)
Fixpoint unpack_rows12 (h bytes_per_row samples_per_row : nat) (src : list Z)
    : list Z :=
  match h with
  | O => []
  | S h' =>
      take samples_per_row (unpack12 src)
      ++ unpack_rows12 h' bytes_per_row samples_per_row (drop bytes_per_row src)
  end.

(** The byte of a 12-bit sample under the decode range [0 1], and what
    the range [1 0] gives. *)
Definition gray12_default (v : Z) : Z := 255 * v / 4095.
Definition gray12_inverted (v : Z) : Z :=
  255 - (255 * v + 4094) / 4095
  - (if (v =? 3276) || (v =? 3549) || (v =? 3822) then 1 else 0).

Definition samples12 : list Z := Z.of_nat <$> seq 0 4096.

(** One pixel of [rgb12_to_bgrx]: the three samples are extracted by
    [for si in range(3)], then decoded. *)
Definition rgb12_pixel (row col width row_start : Z)
    (lo : float * float * float) (sc : float * float * float)
    (src out : list Z) : option (list Z) :=
  let '(r_min, g_min, b_min) := lo in
  let '(r_scale, g_scale, b_scale) := sc in
  let sample_base := c_int (col * 3) in
  let pixel_idx := c_int (c_int (row * width) + col) in
  let o := c_int (pixel_idx * 4) in
  rv ← sample12 src row_start (c_int (sample_base + 0));
  gv ← sample12 src row_start (c_int (sample_base + 1));
  bv ← sample12 src row_start (c_int (sample_base + 2));
  vb ← to_byte (decode_sample b_min b_scale bv);
  out1 ← wr out o vb;
  vg ← to_byte (decode_sample g_min g_scale gv);
  out2 ← wr out1 (o + 1) vg;
  vr ← to_byte (decode_sample r_min r_scale rv);
  out3 ← wr out2 (o + 2) vr;
  wr out3 (o + 3) 255.

Fixpoint rgb12_cols (n : nat) (row col width row_start : Z)
    (lo : float * float * float) (sc : float * float * float)
    (src out : list Z) : option (list Z) :=
  match n with
  | O => Some out
  | S n' =>
      out' ← rgb12_pixel row col width row_start lo sc src out;
      rgb12_cols n' row (col + 1) width row_start lo sc src out'
  end.

Fixpoint rgb12_rows (n : nat) (row width bytes_per_row : Z)
    (lo : float * float * float) (sc : float * float * float)
    (src out : list Z) : option (list Z) :=
  match n with
  | O => Some out
  | S n' =>
      let row_start := c_int (row * bytes_per_row) in
      out' ← rgb12_cols (Z.to_nat width) row 0 width row_start lo sc src out;
      rgb12_rows n' (row + 1) width bytes_per_row lo sc src out'
  end.

Definition rgb12_to_bgrx (src : list Z) (width height : Z)
    (decode_array : list float) : option (list Z) :=
  let out_len := c_int (c_int (width * height) * 4) in
  out ← bytearray out_len;
  '(lo, sc) ← decode_scales3 decode_array 4095%float;
  let samples_per_row := c_int (width * 3) in
  let bits_per_row := c_int (samples_per_row * 12) in
  let bytes_per_row := Z.quot (c_int (bits_per_row + 7)) 8 in
  rgb12_rows (Z.to_nat height) 0 width bytes_per_row lo sc src out.

(** The table [to_byte (lo + i * scale)] of one channel, 12-bit samples. *)
Definition channel_table12 (lo hi : float) (lut : list Z) : Prop :=
  gray_lut 4096 0 lo ((hi - lo) / 4095)%float = Some lut.

(** ** Color key masking at 12 bits per sample *)

(** The test of one pixel in [apply_color_key_mask_12]. *)
Fixpoint match12 (cnt : nat) (si sample_base row_start : Z)
    (is_range : bool) (sample_data mask_color : list Z) : option bool :=
  match cnt with
  | O => Some true
  | S c =>
      raw_val ← sample12 sample_data row_start (c_int (sample_base + si));
      if is_range then
        lo ← mask_at mask_color (c_int (si * 2));
        hi ← mask_at mask_color (c_int (c_int (si * 2) + 1));
        if (raw_val <? lo) || (raw_val >? hi) then Some false
        else match12 c (si + 1) sample_base row_start is_range
               sample_data mask_color
      else
        v ← mask_at mask_color si;
        if negb (raw_val =? v) then Some false
        else match12 c (si + 1) sample_base row_start is_range
               sample_data mask_color
  end.

(** One pixel of [apply_color_key_mask_12]. *)
Definition mask12_pixel (row col width n row_start : Z) (is_range : bool)
    (sample_data mask_color pixel_data : list Z) : option (list Z) :=
  let pixel_idx := c_int (c_int (row * width) + col) in
  let sample_base := c_int (col * n) in
  matches ← match12 (Z.to_nat n) 0 sample_base row_start is_range
              sample_data mask_color;
  if matches : bool then
    let alpha_offset := c_int (c_int (pixel_idx * 4) + 3) in
    if alpha_offset <? c_int (Z.of_nat (List.length pixel_data))
    then wr pixel_data alpha_offset 0
    else Some pixel_data
  else Some pixel_data.

Fixpoint mask12_cols (cnt : nat) (row col width n row_start : Z)
    (is_range : bool) (sample_data mask_color pixel_data : list Z)
    : option (list Z) :=
  match cnt with
  | O => Some pixel_data
  | S c =>
      pixel_data' ← mask12_pixel row col width n row_start is_range
                      sample_data mask_color pixel_data;
      mask12_cols c row (col + 1) width n row_start is_range
        sample_data mask_color pixel_data'
  end.

Fixpoint mask12_rows (cnt : nat) (row width n bytes_per_row : Z)
    (is_range : bool) (sample_data mask_color pixel_data : list Z)
    : option (list Z) :=
  match cnt with
  | O => Some pixel_data
  | S c =>
      let row_start := c_int (row * bytes_per_row) in
      pixel_data' ← mask12_cols (Z.to_nat width) row 0 width n row_start
                      is_range sample_data mask_color pixel_data;
      mask12_rows c (row + 1) width n bytes_per_row is_range
        sample_data mask_color pixel_data'
  end.

Definition apply_color_key_mask_12 (pixel_data sample_data : list Z)
    (width height components : Z) (mask_color : list Z) (is_range : bool)
    : option (list Z) :=
  let n := components in
  let samples_per_row := c_int (width * n) in
  let bits_per_row := c_int (samples_per_row * 12) in
  let bytes_per_row := Z.quot (c_int (bits_per_row + 7)) 8 in
  mask12_rows (Z.to_nat height) 0 width n bytes_per_row is_range
    sample_data mask_color pixel_data.

(** * Verified properties *)

(** ** Stacks and the store *)

Lemma py_top_snoc (s : list ref) (r : ref) : py_top (s ++ [r]) = Some r.
Proof. unfold py_top. apply last_snoc. Qed.

Lemma py_pop_snoc (s : list ref) (r : ref) : py_pop (s ++ [r]) = s.
Proof. unfold py_pop. apply removelast_last. Qed.

Lemma py_set_top_snoc (s : list ref) (r r' : ref) :
  py_set_top (s ++ [r]) r' = s ++ [r'].
Proof. unfold py_set_top. by rewrite removelast_last. Qed.

Lemma same_stacks_refl (m : Machine) : same_stacks m m.
Proof. repeat split; done. Qed.

Lemma same_stacks_lookup (m m1 : Machine) (r : ref) (o : ps.PSObject) :
  same_stacks m m1 -> heap m !! r = Some o -> heap m1 !! r = Some o.
Proof.
  intros (_ & _ & _ & _ & _ & Hp) Hr.
  eapply prefix_lookup_Some; eauto.
Qed.

Lemma pump_same_stacks (m : Machine) : same_stacks m (pump m) /\ heap (pump m) = heap m.
Proof.
  unfold pump. destruct (event_loop_callback m); [|split; [apply same_stacks_refl|done]].
  destruct (_ >=? _); (split; [repeat split; done | done]).
Qed.

(** The bookkeeping before the dispatch leaves the stacks alone and can
    only add a copy of [top] to the store. *)
Lemma prelude_same_stacks (m : Machine) (top : ref) (t : ps.PSObject) :
  heap m !! top = Some t ->
  exists m1, record_top top (ps.TYPE t) (pump m) = Some m1 /\ same_stacks m m1.
Proof.
  intros Ht. destruct (pump_same_stacks m) as [Hs Hh].
  unfold record_top.
  destruct (execution_history_enabled (pump m) && negb (execution_history_paused (pump m)));
    [|eauto].
  destruct (negb (is_tokenizable_type (ps.TYPE t))); [|eauto].
  unfold py_copy. rewrite Hh, Ht. eexists; split; [reflexivity|].
  destruct Hs as (Ho & He & Hd & Hop & Hr & _).
  repeat split; simpl; try done.
  rewrite Hh. by apply prefix_app_r.
Qed.

(** ** Path L: literal objects *)

(** C8: when the top of the execution stack is an Int, Real, Bool, Null or
    Mark, or is literal, one iteration pops it from the execution stack and
    pushes that same object (the same reference, its contents untouched)
    onto the operand stack; neither stack changes otherwise. *)
Theorem literal_path (m : Machine) (rest : list ref) (top : ref) (t : ps.PSObject) :
  e_stack m = rest ++ [top] ->
  heap m !! top = Some t ->
  In (ps.TYPE t) [C_T_INT; C_T_REAL; C_T_BOOL; C_T_NULL; C_T_MARK]
    \/ ps.attrib t = C_ATTRIB_LIT ->
  exists m', exec_iter m = Continue m' /\
    e_stack m' = rest /\ o_stack m' = o_stack m ++ [top] /\
    heap m' !! top = Some t.
Proof.
  intros He Ht Hlit.
  destruct (prelude_same_stacks m top t Ht) as (m1 & Hrec & Hs).
  unfold exec_iter. rewrite He, py_top_snoc, Ht, Hrec. unfold dispatch.
  assert (is_literal_type (ps.TYPE t) || (ps.attrib t =? C_ATTRIB_LIT) = true) as ->.
  { destruct Hlit as [Hin | Ha].
    - unfold is_literal_type. simpl in Hin.
      destruct Hin as [<- | [<- | [<- | [<- | [<- | []]]]]]; reflexivity.
    - rewrite Ha. apply orb_true_r. }
  eexists; split; [reflexivity|].
  pose proof (same_stacks_lookup _ _ _ _ Hs Ht) as Ht1.
  destruct Hs as (Ho & He1 & _).
  simpl. rewrite He1, He, Ho, py_pop_snoc. auto.
Qed.

Lemma literal_path_witness :
  exists m', exec_iter m_literal = Continue m' /\
    e_stack m' = [] /\ o_stack m' = o_stack m_literal ++ [0%nat] /\
    heap m' !! 0%nat = Some (ps.Int 5).
Proof.
  apply (literal_path m_literal [] 0%nat (ps.Int 5)).
  - reflexivity.
  - reflexivity.
  - left. simpl. auto.
Defined.

(** ** Which path an executable object takes *)

Lemma dispatch_name (top : ref) (t : ps.PSObject) (m : Machine) :
  ps.TYPE t = C_T_NAME -> ps.attrib t = C_ATTRIB_EXEC ->
  dispatch top t m = exec_name t m.
Proof. intros Hty Ha. unfold dispatch. rewrite Hty, Ha. reflexivity. Qed.

Lemma dispatch_array (top : ref) (t : ps.PSObject) (m : Machine) :
  ps.TYPE t = C_T_ARRAY \/ ps.TYPE t = C_T_PACKED_ARRAY ->
  ps.attrib t = C_ATTRIB_EXEC ->
  dispatch top t m = exec_array top t m.
Proof. intros [Hty | Hty] Ha; unfold dispatch; rewrite Hty, Ha; reflexivity. Qed.

Lemma dispatch_stopped (top : ref) (t : ps.PSObject) (m : Machine) :
  ps.TYPE t = C_T_STOPPED -> ps.attrib t = C_ATTRIB_EXEC ->
  dispatch top t m = Continue (pop_e (push_o (List.length (heap m))
                                 (with_heap (heap m ++ [ps.Bool false]) m))).
Proof. intros Hty Ha. unfold dispatch. rewrite Hty, Ha. reflexivity. Qed.

Lemma dispatch_loop (top : ref) (t : ps.PSObject) (m : Machine) :
  ps.TYPE t = C_T_LOOP -> ps.attrib t = C_ATTRIB_EXEC ->
  dispatch top t m = _handle_loop top t m.
Proof. intros Hty Ha. unfold dispatch. rewrite Hty, Ha. reflexivity. Qed.

(** An iteration is the dispatch on a state that has the same stacks. *)
Lemma exec_iter_dispatch (m : Machine) (rest : list ref) (top : ref) (t : ps.PSObject) :
  e_stack m = rest ++ [top] ->
  heap m !! top = Some t ->
  exists m1, exec_iter m = dispatch top t m1 /\ same_stacks m m1 /\
    record_top top (ps.TYPE t) (pump m) = Some m1.
Proof.
  intros He Ht.
  destruct (prelude_same_stacks m top t Ht) as (m1 & Hrec & Hs).
  exists m1. unfold exec_iter. by rewrite He, py_top_snoc, Ht, Hrec.
Qed.

(** ** Path A: an empty procedure *)

(** C9: an executable array or packed array of length 0 on top of the
    execution stack is popped; the operand stack, the rest of the execution
    stack, the dictionary stack and every object of the store stay as they
    were. *)
Theorem empty_procedure_popped (m : Machine) (rest : list ref) (top : ref)
    (t : ps.PSObject) :
  e_stack m = rest ++ [top] ->
  heap m !! top = Some t ->
  ps.TYPE t = C_T_ARRAY \/ ps.TYPE t = C_T_PACKED_ARRAY ->
  ps.attrib t = C_ATTRIB_EXEC ->
  ps.length t = 0 ->
  exists m', exec_iter m = Continue m' /\
    e_stack m' = rest /\ o_stack m' = o_stack m /\ d_stack m' = d_stack m /\
    heap m `prefix_of` heap m'.
Proof.
  intros He Ht Hty Ha Hlen.
  destruct (exec_iter_dispatch m rest top t He Ht) as (m1 & -> & Hs & _).
  rewrite dispatch_array by done.
  unfold exec_array. rewrite Hlen. simpl.
  eexists; split; [reflexivity|].
  destruct Hs as (Ho & He1 & Hd & _ & _ & Hp).
  simpl. rewrite He1, He, py_pop_snoc. auto.
Qed.

Lemma empty_procedure_popped_witness :
  exists m', exec_iter m_empty_proc = Continue m' /\
    e_stack m' = [] /\ o_stack m' = o_stack m_empty_proc /\
    d_stack m' = d_stack m_empty_proc /\
    heap m_empty_proc `prefix_of` heap m'.
Proof.
  apply (empty_procedure_popped m_empty_proc [] 0%nat
           (obj C_T_ARRAY C_ATTRIB_EXEC (PyList []) 0 0)).
  - reflexivity.
  - reflexivity.
  - left. reflexivity.
  - reflexivity.
  - reflexivity.
Defined.

(** ** The Stopped marker *)

(** C7: a Stopped marker that the loop reaches on top of the execution
    stack is popped and a new Bool object holding false is pushed onto the
    operand stack; the rest of both stacks is unchanged. *)
Theorem stopped_marker_pushes_false (m : Machine) (rest : list ref) (top : ref)
    (t : ps.PSObject) :
  e_stack m = rest ++ [top] ->
  heap m !! top = Some t ->
  ps.TYPE t = C_T_STOPPED ->
  ps.attrib t = C_ATTRIB_EXEC ->
  exists m' r, exec_iter m = Continue m' /\
    e_stack m' = rest /\ o_stack m' = o_stack m ++ [r] /\
    heap m' !! r = Some (ps.Bool false) /\
    heap m `prefix_of` heap m'.
Proof.
  intros He Ht Hty Ha.
  destruct (exec_iter_dispatch m rest top t He Ht) as (m1 & -> & Hs & _).
  rewrite dispatch_stopped by done.
  destruct Hs as (Ho & He1 & Hd & _ & _ & Hp).
  eexists _, (List.length (heap m1)); split; [reflexivity|].
  simpl. rewrite He1, He, Ho, py_pop_snoc.
  repeat split; try done.
  - by rewrite lookup_app_r, Nat.sub_diag.
  - etrans; [exact Hp|]. by apply prefix_app_r.
Qed.

Lemma stopped_marker_pushes_false_witness :
  exists m' r, exec_iter m_stopped = Continue m' /\
    e_stack m' = [0%nat] /\ o_stack m' = o_stack m_stopped ++ [r] /\
    heap m' !! r = Some (ps.Bool false) /\
    heap m_stopped `prefix_of` heap m'.
Proof.
  apply (stopped_marker_pushes_false m_stopped [0%nat] 1%nat
           (obj C_T_STOPPED C_ATTRIB_EXEC PyNone 0 0)); reflexivity.
Defined.

(** ** The execution history *)

(** C6, as stated, fails: with the history enabled and not paused, a String
    on top of the execution stack is dispatched (here along Path L, onto
    the operand stack) and nothing is recorded. *)
Lemma history_skips_string :
  execution_history_enabled m_string = true /\
  execution_history_paused m_string = false /\
  exists m', exec_iter m_string = Continue m' /\
    o_stack m' = [0%nat] /\ e_stack m' = [] /\
    execution_history m' = [] /\ heap m' = heap m_string.
Proof.
  split; [reflexivity|]. split; [reflexivity|].
  eexists. split; [vm_compute; reflexivity|]. repeat split.
Qed.

(** C6, amended: with the history enabled (the flag as [exec_exec] read it
    on entry) and not paused, an iteration first records a copy of the top
    object, a new object with the attributes of [top] that goes to the end
    of the history buffer, and then dispatches [top]; this holds for every
    top object except a File or a String, for which nothing is recorded. *)
Theorem history_records_copy (m : Machine) (rest : list ref) (top : ref)
    (t : ps.PSObject) :
  e_stack m = rest ++ [top] ->
  heap m !! top = Some t ->
  execution_history_enabled m = true ->
  execution_history_paused m = false ->
  exists m1, exec_iter m = dispatch top t m1 /\
    o_stack m1 = o_stack m /\ e_stack m1 = e_stack m /\
    if is_tokenizable_type (ps.TYPE t) then
      heap m1 = heap m /\ execution_history m1 = execution_history m
    else
      let c := List.length (heap m) in
      heap m1 = heap m ++ [t] /\
      execution_history m1 = record_execution_list c m /\
      ((0 < execution_history_size m)%nat -> last (execution_history m1) = Some c).
Proof.
  intros He Ht Hen Hpa.
  destruct (exec_iter_dispatch m rest top t He Ht) as (m1 & Hit & Hs & Hrec).
  exists m1. split; [exact Hit|].
  destruct Hs as (Ho & He1 & _). split; [exact Ho|]. split; [exact He1|].
  destruct (pump_same_stacks m) as [_ Hh].
  assert (execution_history_enabled (pump m) = true /\
          execution_history_paused (pump m) = false /\
          execution_history (pump m) = execution_history m /\
          execution_history_size (pump m) = execution_history_size m)
    as (Hen' & Hpa' & Hhist & Hsz).
  { unfold pump. destruct (event_loop_callback m); [|done].
    destruct (_ >=? _); done. }
  unfold record_top in Hrec. rewrite Hen', Hpa' in Hrec. simpl in Hrec.
  destruct (is_tokenizable_type (ps.TYPE t)); simpl in Hrec.
  - injection Hrec as <-. auto.
  - unfold py_copy in Hrec. rewrite Hh, Ht in Hrec. injection Hrec as <-.
    simpl. unfold record_execution_list. simpl. rewrite Hh, Hhist, Hsz.
    split; [done|]. split; [done|].
    intros Hpos. rewrite length_app. simpl.
    set (k := (List.length (execution_history m) + 1 - execution_history_size m)%nat).
    assert (k <= List.length (execution_history m))%nat as Hk by (unfold k; lia).
    rewrite drop_app_le by exact Hk.
    apply last_snoc.
Qed.

Lemma history_records_copy_witness :
  exists m1, exec_iter m_int_history = dispatch 0%nat (ps.Int 5) m1 /\
    o_stack m1 = o_stack m_int_history /\ e_stack m1 = e_stack m_int_history /\
    if is_tokenizable_type (ps.TYPE (ps.Int 5)) then
      heap m1 = heap m_int_history /\
      execution_history m1 = execution_history m_int_history
    else
      let c := List.length (heap m_int_history) in
      heap m1 = heap m_int_history ++ [ps.Int 5] /\
      execution_history m1 = record_execution_list c m_int_history /\
      ((0 < execution_history_size m_int_history)%nat ->
       last (execution_history m1) = Some c).
Proof.
  apply (history_records_copy m_int_history [] 0%nat (ps.Int 5)); reflexivity.
Defined.

(** The flag is the one [exec_exec] read on entry: a history enabled in
    [ctxt] afterwards records nothing until [exec_exec] is entered again. *)
Lemma history_flag_is_cached :
  ctxt_execution_history_enabled m_enabled_late = true /\
  (exists m', exec_iter m_enabled_late = Continue m' /\ execution_history m' = []) /\
  exists m', exec_iter (exec_exec_enter m_enabled_late) = Continue m' /\
    execution_history m' = [1%nat].
Proof.
  split; [reflexivity|]. split; eexists; (split; [vm_compute; reflexivity|reflexivity]).
Qed.

(** ** Path A: procedures with at least one element *)

(** C2, as stated, fails: for the one-element procedure [{7}] the array is
    not replaced by its element.  The literal goes straight to the operand
    stack and the array stays on the execution stack, now empty. *)
Lemma last_literal_not_replaced :
  exists m', exec_iter m_last_literal = Continue m' /\
    e_stack m' = [1%nat] /\ e_stack m' <> [0%nat] /\
    o_stack m' = [0%nat] /\
    heap m' !! 1%nat = Some (obj C_T_ARRAY C_ATTRIB_EXEC (PyList [0%nat]) 1 0).
Proof.
  eexists. split; [vm_compute; reflexivity|].
  repeat split. discriminate.
Qed.

Lemma advance_lookup (m : Machine) (top : ref) (t : ps.PSObject) :
  heap m !! top = Some t ->
  heap (advance top m) = <[top := advanced t]> (heap m) /\
  o_stack (advance top m) = o_stack m /\ e_stack (advance top m) = e_stack m.
Proof. intros Ht. unfold advance, update_obj. rewrite Ht. done. Qed.

Lemma push_o_copy_spec (m : Machine) (r : ref) (o : ps.PSObject) :
  heap m !! r = Some o ->
  exists m1, push_o_copy r m = Some m1 /\
    heap m1 = heap m ++ [o] /\ e_stack m1 = e_stack m /\
    o_stack m1 = o_stack m ++ [List.length (heap m)].
Proof.
  intros Hr. unfold push_o_copy, py_copy. rewrite Hr. simpl.
  eexists; split; [reflexivity|]. done.
Qed.

(** The element of a procedure that goes to the operand stack: the array
    stays on the execution stack, one element shorter. *)
Lemma exec_array_operand (m : Machine) (rest : list ref) (top obj : ref)
    (t o : ps.PSObject) (l : list ref) :
  e_stack m = rest ++ [top] ->
  heap m !! top = Some t ->
  ps.length t <> 0 ->
  ps.val t = PyList l ->
  py_index l (ps.start t) = Some obj ->
  heap m !! obj = Some o ->
  to_operand_stack o = true ->
  exists m' r, exec_array top t m = Continue m' /\
    o_stack m' = o_stack m ++ [r] /\ e_stack m' = rest ++ [top] /\
    heap m' !! top = Some (advanced t) /\
    if by_reference o then r = obj
    else (List.length (heap m) <= r)%nat /\ heap m' !! r = Some o.
Proof.
  intros He Ht Hlen Hval Hidx Ho Hop.
  pose proof (lookup_lt_Some _ _ _ Ht) as Hlt.
  unfold exec_array.
  destruct (Z.eqb_spec (ps.length t) 0) as [|_]; [done|].
  rewrite Hval, Hidx, Ho.
  unfold to_operand_stack in Hop. unfold by_reference.
  destruct (push_o_copy_spec m obj o Ho) as (mc & Hc & Hhc & Hec & Hoc).
  assert (heap mc !! top = Some t) as Htc.
  { rewrite Hhc. by apply lookup_app_l_Some. }
  destruct (advance_lookup mc top t Htc) as (Hha & Hoa & Hea).
  destruct (advance_lookup (push_o obj m) top t Ht) as (Hhr & Hor & Her).
  assert (forall m' r,
    m' = advance top mc -> r = List.length (heap m) ->
    o_stack m' = o_stack m ++ [r] /\ e_stack m' = rest ++ [top] /\
    heap m' !! top = Some (advanced t) /\
    (List.length (heap m) <= r)%nat /\ heap m' !! r = Some o) as Hcopy.
  { intros m' r -> ->. rewrite Hoa, Hea, Hha, Hoc, Hec, He, Hhc.
    repeat split; try done.
    - apply list_lookup_insert_eq. rewrite length_app; simpl; lia.
    - rewrite list_lookup_insert_ne by lia.
      by rewrite lookup_app_r, Nat.sub_diag. }
  assert (forall m',
    m' = advance top (push_o obj m) ->
    o_stack m' = o_stack m ++ [obj] /\ e_stack m' = rest ++ [top] /\
    heap m' !! top = Some (advanced t)) as Href.
  { intros m' ->. rewrite Hor, Her, Hhr. simpl. rewrite He.
    repeat split; try done. by apply list_lookup_insert_eq. }
  destruct (ps.length t =? 1);
    destruct (is_array_type (ps.TYPE o) && (ps.attrib o =? C_ATTRIB_EXEC)) eqn:Harr;
    simpl in Hop |- *.
  all: try (rewrite Hc;
            assert ((ps.attrib o =? C_ATTRIB_LIT) = false) as ->
              by (apply andb_true_iff in Harr as [_ Ha];
                  apply Z.eqb_eq in Ha; rewrite Ha; reflexivity);
            simpl; eexists _, _; split; [reflexivity|];
            edestruct Hcopy as (? & ? & ? & ? & ?); [reflexivity..|]; done).
  all: rewrite Hop; simpl.
  all: destruct (is_literal_type (ps.TYPE o)).
  all: try (eexists _, _; split; [reflexivity|];
            edestruct Href as (? & ? & ?); [reflexivity|]; done).
  all: rewrite Hc; eexists _, _; split; [reflexivity|];
       edestruct Hcopy as (? & ? & ? & ? & ?); [reflexivity..|]; done.
Qed.

(** The element of a procedure that must be executed: it replaces a
    one-element array, and goes on top of a longer one. *)
Lemma exec_array_executable (m : Machine) (rest : list ref) (top obj : ref)
    (t o : ps.PSObject) (l : list ref) :
  e_stack m = rest ++ [top] ->
  heap m !! top = Some t ->
  ps.length t <> 0 ->
  ps.val t = PyList l ->
  py_index l (ps.start t) = Some obj ->
  heap m !! obj = Some o ->
  to_operand_stack o = false ->
  exists m', exec_array top t m = Continue m' /\ o_stack m' = o_stack m /\
    if ps.length t =? 1
    then e_stack m' = rest ++ [obj] /\ heap m' = heap m
    else e_stack m' = rest ++ [top; obj] /\ heap m' !! top = Some (advanced t).
Proof.
  intros He Ht Hlen Hval Hidx Ho Hop.
  pose proof (lookup_lt_Some _ _ _ Ht) as Hlt.
  unfold exec_array.
  destruct (Z.eqb_spec (ps.length t) 0) as [|_]; [done|].
  rewrite Hval, Hidx, Ho.
  unfold to_operand_stack in Hop. apply orb_false_iff in Hop as [-> ->].
  destruct (ps.length t =? 1); eexists; (split; [reflexivity|]).
  - simpl. by rewrite He, py_set_top_snoc.
  - destruct (advance_lookup (push_e obj m) top t Ht) as (Hh & Hoa & Hea).
    rewrite Hoa, Hea, Hh. simpl. rewrite He. unfold py_append.
    rewrite <- app_assoc. simpl.
    repeat split. by apply list_lookup_insert_eq.
Qed.

(** C2, amended: for an executable array or packed array of length at
    least 1 on top of the execution stack, take its front element.  If the
    element is literal or is an executable array, the array stays on the
    execution stack with [start] advanced by 1 and [length] decremented by
    1, also when its length was 1, and the element is pushed onto the
    operand stack: a literal Int, Real, Bool, Null or Mark by reference,
    every other literal and every executable array as a new copy.
    Otherwise the element must be executed: it replaces the array when the
    length is 1, and else is pushed onto the execution stack above the
    advanced array. *)
Theorem procedure_front_element (m : Machine) (rest : list ref) (top obj : ref)
    (t o : ps.PSObject) (l : list ref) :
  e_stack m = rest ++ [top] ->
  heap m !! top = Some t ->
  ps.TYPE t = C_T_ARRAY \/ ps.TYPE t = C_T_PACKED_ARRAY ->
  ps.attrib t = C_ATTRIB_EXEC ->
  1 <= ps.length t ->
  ps.val t = PyList l ->
  py_index l (ps.start t) = Some obj ->
  heap m !! obj = Some o ->
  exists m', exec_iter m = Continue m' /\
    if to_operand_stack o then
      exists r, o_stack m' = o_stack m ++ [r] /\ e_stack m' = rest ++ [top] /\
        heap m' !! top = Some (advanced t) /\
        if by_reference o then r = obj
        else (List.length (heap m) <= r)%nat /\ heap m' !! r = Some o
    else if ps.length t =? 1 then
      e_stack m' = rest ++ [obj] /\ o_stack m' = o_stack m /\
      heap m' !! top = Some t
    else
      e_stack m' = rest ++ [top; obj] /\ o_stack m' = o_stack m /\
      heap m' !! top = Some (advanced t).
Proof.
  intros He Ht Hty Ha Hlen Hval Hidx Ho.
  destruct (exec_iter_dispatch m rest top t He Ht) as (m1 & -> & Hs & _).
  rewrite dispatch_array by done.
  pose proof (same_stacks_lookup _ _ _ _ Hs Ht) as Ht1.
  pose proof (same_stacks_lookup _ _ _ _ Hs Ho) as Ho1.
  destruct Hs as (Hos & Hes & _ & _ & _ & Hp).
  pose proof (prefix_length _ _ Hp) as Hpl.
  rewrite He in Hes.
  destruct (to_operand_stack o) eqn:Hop.
  - destruct (exec_array_operand m1 rest top obj t o l) as (m' & r & -> & H1 & H2 & H3 & H4);
      try done; [lia|].
    exists m'. split; [reflexivity|]. exists r. rewrite <- Hos.
    repeat split; try done.
    destruct (by_reference o); [done|]. destruct H4. split; [lia|done].
  - destruct (exec_array_executable m1 rest top obj t o l) as (m' & -> & H1 & H2);
      try done; [lia|].
    exists m'. split; [reflexivity|]. rewrite <- Hos.
    destruct (ps.length t =? 1); destruct H2 as [H2 H3]; repeat split; try done.
    by rewrite H3.
Qed.

Lemma procedure_front_element_witness :
  exists m', exec_iter m_proc2 = Continue m' /\
    if to_operand_stack (ps.Int 7) then
      exists r, o_stack m' = o_stack m_proc2 ++ [r] /\ e_stack m' = [] ++ [2%nat] /\
        heap m' !! 2%nat =
          Some (advanced (obj C_T_ARRAY C_ATTRIB_EXEC (PyList [0%nat; 1%nat]) 0 2)) /\
        if by_reference (ps.Int 7) then r = 0%nat
        else (List.length (heap m_proc2) <= r)%nat /\ heap m' !! r = Some (ps.Int 7)
    else if ps.length (obj C_T_ARRAY C_ATTRIB_EXEC (PyList [0%nat; 1%nat]) 0 2) =? 1 then
      e_stack m' = [] ++ [0%nat] /\ o_stack m' = o_stack m_proc2 /\
      heap m' !! 2%nat = Some (obj C_T_ARRAY C_ATTRIB_EXEC (PyList [0%nat; 1%nat]) 0 2)
    else
      e_stack m' = [] ++ [2%nat; 0%nat] /\ o_stack m' = o_stack m_proc2 /\
      heap m' !! 2%nat =
        Some (advanced (obj C_T_ARRAY C_ATTRIB_EXEC (PyList [0%nat; 1%nat]) 0 2)).
Proof.
  apply (procedure_front_element m_proc2 [] 2%nat 0%nat
           (obj C_T_ARRAY C_ATTRIB_EXEC (PyList [0%nat; 1%nat]) 0 2)
           (ps.Int 7) [0%nat; 1%nat]).
  - reflexivity.
  - reflexivity.
  - left. reflexivity.
  - reflexivity.
  - simpl. lia.
  - reflexivity.
  - reflexivity.
  - reflexivity.
Defined.

(** The array left empty on the execution stack goes with the next
    iteration: [{7}] is done after two. *)
Example last_literal_run :
  exists m', exec_exec 3 m_last_literal = Finished m' /\
    o_stack m' = [0%nat] /\ e_stack m' = [].
Proof. eexists. split; [vm_compute; reflexivity|]. done. Qed.

(** ** Path N: the dictionary stack walk *)

Lemma resolve_dicts_lookup (h : list ps.PSObject) (ds : list ref)
    (dl : list (Z * gmap string ref)) :
  resolve_dicts h ds = Some dl ->
  forall (i : nat) (d : ref), ds !! i = Some d ->
    exists o mp, h !! d = Some o /\ ps.val o = PyDict mp /\
      dl !! i = Some (ps.access o, mp).
Proof.
  revert dl. induction ds as [|d0 ds IH]; intros dl Hres i d Hi; [done|].
  simpl in Hres.
  destruct (h !! d0) as [o0|] eqn:Ho0; [|done].
  destruct (ps.val o0) as [| | | | | |mp0|] eqn:Hv0; try done.
  destruct (resolve_dicts h ds) as [dl'|] eqn:Hres'; [|done].
  injection Hres as <-.
  destruct i as [|i]; simpl in Hi.
  - injection Hi as <-. exists o0, mp0. done.
  - destruct (IH dl' eq_refl i d Hi) as (o & mp & ? & ? & ?).
    exists o, mp. done.
Qed.

Lemma resolve_dicts_length (h : list ps.PSObject) (ds : list ref)
    (dl : list (Z * gmap string ref)) :
  resolve_dicts h ds = Some dl -> List.length dl = List.length ds.
Proof.
  revert dl. induction ds as [|d0 ds IH]; intros dl Hres; simpl in Hres.
  - by injection Hres as <-.
  - destruct (h !! d0) as [o0|]; [|done].
    destruct (ps.val o0); try done.
    destruct (resolve_dicts h ds) as [dl'|]; [|done].
    injection Hres as <-. simpl. f_equal. by apply IH.
Qed.

Lemma resolve_dicts_prefix (h h' : list ps.PSObject) (ds : list ref)
    (dl : list (Z * gmap string ref)) :
  h `prefix_of` h' -> resolve_dicts h ds = Some dl -> resolve_dicts h' ds = Some dl.
Proof.
  intros Hp. revert dl. induction ds as [|d0 ds IH]; intros dl Hres; [done|].
  simpl in *.
  destruct (h !! d0) as [o0|] eqn:Ho0; [|done].
  rewrite (prefix_lookup_Some _ _ _ _ Ho0 Hp).
  destruct (ps.val o0); try done.
  destruct (resolve_dicts h ds) as [dl'|]; [|done].
  by rewrite (IH dl' eq_refl).
Qed.

Lemma spec_lookup_snoc (key : string) (dl : list (Z * gmap string ref))
    (acc : Z) (mp : gmap string ref) :
  spec_lookup key (dl ++ [(acc, mp)]) =
    if acc <? 2 then spec_lookup key dl
    else match mp !! key with
         | Some v => Some v
         | None => spec_lookup key dl
         end.
Proof.
  unfold spec_lookup. rewrite reverse_snoc, filter_cons.
  unfold readable, ACCESS_READ_ONLY. simpl.
  destruct (Z.ltb_spec acc 2); destruct (Z.leb_spec 2 acc); try lia.
  - rewrite decide_False by done. done.
  - rewrite decide_True by done. done.
Qed.

(** The walk of the source, index by index from the top, finds what the
    specification describes. *)
Lemma dict_walk_take (h : list ps.PSObject) (ds : list ref)
    (dl : list (Z * gmap string ref)) (key : string) :
  resolve_dicts h ds = Some dl ->
  forall n : nat, (n <= List.length ds)%nat ->
    dict_walk h ds key n = Some (spec_lookup key (take n dl)).
Proof.
  intros Hres. induction n as [|i IH]; intros Hn; [done|].
  destruct (lookup_lt_is_Some_2 ds i) as [d Hd]; [lia|].
  destruct (resolve_dicts_lookup h ds dl Hres i d Hd) as (o & mp & Ho & Hv & Hdl).
  simpl. rewrite Hd, Ho, Hv, IH by lia.
  rewrite (take_S_r _ _ _ Hdl), spec_lookup_snoc.
  destruct (ps.access o <? 2); [done|]. by destruct (mp !! key).
Qed.

Lemma dict_walk_spec (h : list ps.PSObject) (ds : list ref)
    (dl : list (Z * gmap string ref)) (key : string) :
  resolve_dicts h ds = Some dl ->
  dict_walk h ds key (List.length ds) = Some (spec_lookup key dl).
Proof.
  intros Hres. rewrite (dict_walk_take h ds dl key Hres) by lia.
  rewrite <- (resolve_dicts_length h ds dl Hres). by rewrite firstn_all.
Qed.

(** A scan that ends unshadowed has seen no binding above the bottom. *)
Lemma shadowed_scan_spec (h : list ps.PSObject) (ds : list ref)
    (dl : list (Z * gmap string ref)) (key : string) :
  resolve_dicts h ds = Some dl ->
  forall i : nat, (i < List.length ds)%nat \/ i = O ->
    exists b, shadowed_scan h ds key i = Some b /\
      (b = false ->
       forall (j : nat) acc mp, (1 <= j <= i)%nat ->
         dl !! j = Some (acc, mp) -> mp !! key = None).
Proof.
  intros Hres. induction i as [|i IH]; intros Hi.
  - exists false. split; [done|]. intros _ j acc mp Hj. lia.
  - destruct Hi as [Hi|]; [|done].
    destruct (lookup_lt_is_Some_2 ds (S i)) as [d Hd]; [lia|].
    destruct (resolve_dicts_lookup h ds dl Hres (S i) d Hd) as (o & mp & Ho & Hv & Hdl).
    destruct IH as (b & Hb & Hspec); [left; lia|].
    cbn [shadowed_scan]. rewrite Hd. unfold dict_has. rewrite Ho, Hv.
    destruct (mp !! key) as [v|] eqn:Hk.
    + exists true. rewrite bool_decide_eq_true_2 by eauto. done.
    + rewrite bool_decide_eq_false_2 by (intros [? ?]; done).
      exists b. split; [done|].
      intros Hbf j acc mp' Hj Hdlj.
      destruct (decide (j = S i)) as [->|Hne].
      * rewrite Hdl in Hdlj. by injection Hdlj as _ <-.
      * apply (Hspec Hbf j acc mp'); [lia|done].
Qed.

Lemma first_binding_app (key : string) (l1 l2 : list (gmap string ref)) :
  (forall mp, mp ∈ l1 -> mp !! key = None) ->
  first_binding key (l1 ++ l2) = first_binding key l2.
Proof.
  induction l1 as [|mp l1 IH]; intros Hnone; [done|].
  simpl. rewrite (Hnone mp) by left. apply IH.
  intros mp' Hin. apply Hnone. by right.
Qed.

(** With no binding above it, a readable bottom dictionary decides. *)
Lemma spec_lookup_bottom (key : string) (dl : list (Z * gmap string ref))
    (acc : Z) (mp : gmap string ref) (op : ref) :
  dl !! 0%nat = Some (acc, mp) ->
  ACCESS_READ_ONLY <= acc ->
  mp !! key = Some op ->
  (forall (j : nat) acc' mp', (1 <= j)%nat ->
     dl !! j = Some (acc', mp') -> mp' !! key = None) ->
  spec_lookup key dl = Some op.
Proof.
  intros H0 Hacc Hk Habove.
  destruct dl as [|x tl]; [done|]. simpl in H0. injection H0 as ->.
  unfold spec_lookup. rewrite reverse_cons, filter_app, fmap_app.
  rewrite first_binding_app.
  - rewrite filter_cons.
    rewrite decide_True by (unfold readable; apply Z.leb_le; exact Hacc).
    simpl. by rewrite Hk.
  - intros mp' Hin.
    apply list_elem_of_fmap in Hin as ([acc' mp''] & -> & Hin).
    apply list_elem_of_filter in Hin as [_ Hin].
    rewrite elem_of_reverse in Hin.
    apply list_elem_of_lookup in Hin as [j Hj].
    apply (Habove (S j) acc' mp''); [lia|exact Hj].
Qed.

(** Path 3 installs the binding that the specification's lookup finds:
    the fast path through the operator table changes nothing of it. *)
Lemma exec_name_install (m : Machine) (t : ps.PSObject) (key : string)
    (dl : list (Z * gmap string ref)) :
  ps.val t = PyBytes key ->
  resolve_dicts (heap m) (d_stack m) = Some dl ->
  op_table_coherent m ->
  exec_name t m = install_binding key (spec_lookup key dl) m.
Proof.
  intros Hval Hres Hcoh.
  assert (exec_name_walk key m = install_binding key (spec_lookup key dl) m) as Hwalk.
  { unfold exec_name_walk. rewrite (dict_walk_spec _ _ dl key Hres).
    unfold install_binding. destruct (spec_lookup key dl) as [v|]; [|done].
    destruct (heap m !! v) as [o|] eqn:Hv; [|done].
    destruct (ps.TYPE o =? C_T_OPERATOR); [done|].
    unfold py_copy. by rewrite Hv. }
  unfold exec_name. rewrite Hval.
  unfold op_table_coherent in Hcoh.
  destruct (_operator_table m) as [op_table|]; [|exact Hwalk].
  destruct (op_table !! key) as [op|] eqn:Hop; [|exact Hwalk].
  destruct (Hcoh key op Hop) as (d & o & mp & f & Hd & Ho & Hacc & Hv & Hk & Hf & Hty).
  destruct (shadowed_scan_spec (heap m) (d_stack m) dl key Hres
              (List.length (d_stack m) - 1)%nat) as (b & -> & Hspec).
  { apply lookup_lt_Some in Hd. lia. }
  destruct b; [exact Hwalk|].
  destruct (resolve_dicts_lookup _ _ dl Hres 0%nat d Hd) as (o' & mp' & Ho' & Hv' & Hdl).
  rewrite Ho in Ho'. injection Ho' as <-. rewrite Hv in Hv'. injection Hv' as <-.
  rewrite (spec_lookup_bottom key dl (ps.access o) mp op Hdl Hacc Hk).
  - unfold install_binding. rewrite Hf, Hty. done.
  - intros j acc' mp' Hj Hdlj. apply (Hspec eq_refl j acc' mp'); [|done].
    apply lookup_lt_Some in Hdlj.
    rewrite (resolve_dicts_length _ _ _ Hres) in Hdlj. lia.
Qed.

Lemma coherent_same_stacks (m m1 : Machine) :
  op_table_coherent m -> same_stacks m m1 -> op_table_coherent m1.
Proof.
  intros Hcoh Hs. pose proof Hs as (_ & _ & Hd & Hop & _ & Hp).
  unfold op_table_coherent in *. rewrite Hop.
  destruct (_operator_table m) as [op_table|]; [|done].
  intros key op Hk.
  destruct (Hcoh key op Hk) as (d & o & mp & f & H1 & H2 & H3 & H4 & H5 & H6 & H7).
  exists d, o, mp, f. rewrite Hd.
  repeat split; try done; eapply prefix_lookup_Some; eauto.
Qed.

(** An iteration on an executable name installs the binding found by the
    specification's lookup, on a state with the same stacks. *)
Lemma exec_iter_name (m : Machine) (rest : list ref) (top : ref) (t : ps.PSObject)
    (key : string) (dl : list (Z * gmap string ref)) :
  e_stack m = rest ++ [top] ->
  heap m !! top = Some t ->
  ps.TYPE t = C_T_NAME ->
  ps.attrib t = C_ATTRIB_EXEC ->
  ps.val t = PyBytes key ->
  resolve_dicts (heap m) (d_stack m) = Some dl ->
  op_table_coherent m ->
  exists m1, same_stacks m m1 /\
    exec_iter m = install_binding key (spec_lookup key dl) m1.
Proof.
  intros He Ht Hty Ha Hval Hres Hcoh.
  destruct (exec_iter_dispatch m rest top t He Ht) as (m1 & -> & Hs & _).
  exists m1. split; [exact Hs|].
  rewrite dispatch_name by done.
  apply exec_name_install; [done| |by eapply coherent_same_stacks].
  destruct Hs as (_ & _ & -> & _ & _ & Hp).
  by eapply resolve_dicts_prefix.
Qed.

(** C1, the failing input: the name of the single byte 233 is bound
    nowhere.  The iteration ends in the Python exception UnicodeDecodeError
    ([top.val.decode("ascii")]); no undefined error is raised and nothing
    is pushed onto the operand stack. *)
Theorem undefined_name_outside_ascii :
  exec_iter m_undefined_latin1 = PyRaise UnicodeDecodeError m_undefined_latin1 /\
  raised m_undefined_latin1 = [] /\ o_stack m_undefined_latin1 = [].
Proof. split; [vm_compute; reflexivity|]. split; reflexivity. Qed.



(** An unbound name is reported through [ps_error.e] when its bytes are
    ASCII, as [zz] here. *)
Example undefined_name_run :
  exists m', exec_iter m_undefined = Continue m' /\
    raised m' = [(UNDEFINED, "zz"%string)] /\ o_stack m' = [2%nat] /\
    heap m' !! 2%nat = Some (ps.Name "zz").
Proof. eexists. split; [vm_compute; reflexivity|]. done. Qed.

(** Whatever the name, a failed lookup of bytes that are not all ASCII ends
    in UnicodeDecodeError. *)
Lemma undefined_name_decode_fails (m : Machine) (rest : list ref) (top : ref)
    (t : ps.PSObject) (key : string) (dl : list (Z * gmap string ref)) :
  e_stack m = rest ++ [top] ->
  heap m !! top = Some t ->
  ps.TYPE t = C_T_NAME ->
  ps.attrib t = C_ATTRIB_EXEC ->
  ps.val t = PyBytes key ->
  resolve_dicts (heap m) (d_stack m) = Some dl ->
  op_table_coherent m ->
  spec_lookup key dl = None ->
  all_ascii key = false ->
  exists m1, exec_iter m = PyRaise UnicodeDecodeError m1 /\
    o_stack m1 = o_stack m /\ raised m1 = raised m.
Proof.
  intros He Ht Hty Ha Hval Hres Hcoh Hnone Hascii.
  destruct (exec_iter_name m rest top t key dl) as (m1 & Hs & ->); try done.
  exists m1. unfold install_binding, decode_ascii. rewrite Hnone, Hascii.
  destruct Hs as (Ho & _ & _ & _ & Hr & _). done.
Qed.

(** The value that replaced the name is what the next iteration
    dispatches: the copy of the empty procedure bound to [x] is popped, and
    the entry of [userdict] is as it was. *)
Example lookup_run :
  exists m', exec_exec 3 m_lookup_proc = Finished m' /\
    o_stack m' = [] /\ e_stack m' = [] /\ heap m' !! 2%nat = Some the_proc.
Proof. eexists. split; [vm_compute; reflexivity|]. done. Qed.

(** ** Copy on lookup *)



(** ** The for loop *)

Lemma py_lt_not_ge (a b : PyNum) : py_lt a b = true -> py_ge a b = false.
Proof. unfold py_lt, py_ge. by destruct (py_cmp a b). Qed.

Lemma py_ge_not_lt (a b : PyNum) : py_ge a b = true -> py_lt a b = false.
Proof. unfold py_lt, py_ge. by destruct (py_cmp a b). Qed.

Lemma handle_loop_for (top : ref) (t : ps.PSObject) (m : Machine) :
  ps.val t = PyInt C_LT_FOR ->
  _handle_loop top t m =
    if py_ge (ps.increment t) (NInt 0) then
      if py_le (ps.control t) (ps.limit t) then for_iterate top t m
      else Continue (pop_e m)
    else
      if py_ge (ps.control t) (ps.limit t) then for_iterate top t m
      else Continue (pop_e m).
Proof. intros Hval. unfold _handle_loop. rewrite Hval. reflexivity. Qed.

(** A step that goes on: the control value is pushed, the increment added
    to the marker and a new copy of the body scheduled. *)
Lemma for_iterate_spec (m : Machine) (rest : list ref) (top p : ref)
    (t body : ps.PSObject) :
  e_stack m = rest ++ [top] ->
  heap m !! top = Some t ->
  ps.proc t = Some p ->
  heap m !! p = Some body ->
  p <> top ->
  exists m', for_iterate top t m = Continue m' /\
    o_stack m' = o_stack m ++ [List.length (heap m)] /\
    e_stack m' = rest ++ [top; S (List.length (heap m))] /\
    heap m' = <[top := ps.set_control (py_add (ps.control t) (ps.increment t)) t]>
                (heap m ++ [for_control_object t]) ++ [body].
Proof.
  intros He Ht Hp Hbody Hne.
  pose proof (lookup_lt_Some _ _ _ Ht) as Hlt.
  unfold for_iterate. fold (for_control_object t). simpl.
  unfold update_obj. simpl.
  rewrite (lookup_app_l_Some _ _ _ _ Ht).
  unfold schedule_body. simpl.
  rewrite list_lookup_insert_eq by (rewrite length_app; simpl; lia).
  simpl. rewrite Hp. unfold py_copy. simpl.
  rewrite list_lookup_insert_ne by done.
  rewrite (lookup_app_l_Some _ _ _ _ Hbody).
  eexists. split; [reflexivity|]. simpl.
  rewrite He, length_insert, length_app. unfold py_append.
  rewrite <- app_assoc. simpl.
  split; [done|]. split; [|done].
  by rewrite Nat.add_1_r.
Qed.



(** ** CMYK sample conversion *)


Lemma c_int_small (z : Z) : - 2 ^ 31 <= z < 2 ^ 31 -> c_int z = z.
Proof.
  intros Hz. unfold c_int.
  rewrite Z.mod_small by lia. lia.
Qed.

Lemma uchar_byte (z : Z) : is_byte z -> uchar z = z.
Proof. intros Hz. unfold uchar, is_byte in *. apply Z.mod_small. lia. Qed.

Lemma under8_plrm8 (c k : Z) :
  is_byte c -> is_byte k -> under8 c k = plrm8 c k /\ is_byte (plrm8 c k).
Proof.
  unfold is_byte, under8, plrm8. intros Hc Hk.
  rewrite (c_int_small (255 - c)) by lia.
  rewrite c_int_small by lia.
  destruct (Z.ltb_spec (255 - c - k) 0); lia.
Qed.

(** Writing into the middle of a buffer. *)
Lemma wr_at (l pre post : list Z) (x v o : Z) :
  l = pre ++ x :: post ->
  o = Z.of_nat (List.length pre) ->
  wr l o v = Some (pre ++ v :: post).
Proof.
  intros -> ->. unfold wr.
  rewrite length_app. simpl.
  destruct (Z.leb_spec 0 (Z.of_nat (List.length pre))); [|lia].
  destruct (Z.ltb_spec (Z.of_nat (List.length pre))
              (Z.of_nat (List.length pre + S (List.length post)))); [|lia].
  simpl. rewrite Nat2Z.id. f_equal.
  rewrite insert_app_r_alt by lia. by rewrite Nat.sub_diag.
Qed.

Lemma write_bgrx_app (pre post : list Z) (x0 x1 x2 x3 o b g r : Z) :
  o = Z.of_nat (List.length pre) ->
  write_bgrx (pre ++ x0 :: x1 :: x2 :: x3 :: post) o b g r
    = Some (pre ++ uchar b :: uchar g :: uchar r :: 255 :: post).
Proof.
  intros Ho. unfold write_bgrx.
  rewrite (wr_at _ pre (x1 :: x2 :: x3 :: post) x0 _ o eq_refl Ho). simpl.
  rewrite (wr_at _ (pre ++ [uchar b]) (x2 :: x3 :: post) x1 (uchar g) (o + 1));
    [|by rewrite <- app_assoc | rewrite length_app; simpl; lia].
  simpl.
  rewrite (wr_at _ ((pre ++ [uchar b]) ++ [uchar g]) (x3 :: post) x2 (uchar r) (o + 2));
    [|by rewrite <- !app_assoc | rewrite !length_app; simpl; lia].
  simpl.
  rewrite (wr_at _ (((pre ++ [uchar b]) ++ [uchar g]) ++ [uchar r]) post x3 255 (o + 3));
    [|by rewrite <- !app_assoc | rewrite !length_app; simpl; lia].
  by rewrite <- !app_assoc.
Qed.

Lemma rd_at (l pre post : list Z) (x o : Z) :
  l = pre ++ x :: post ->
  o = Z.of_nat (List.length pre) ->
  rd l o = Some x.
Proof.
  intros -> ->. unfold rd.
  destruct (Z.leb_spec 0 (Z.of_nat (List.length pre))); [|lia].
  rewrite Nat2Z.id. by rewrite list_lookup_middle.
Qed.

Lemma replicate_4S (n : nat) :
  replicate (4 * S n) 0 = 0 :: 0 :: 0 :: 0 :: replicate (4 * n) 0.
Proof. replace (4 * S n)%nat with (S (S (S (S (4 * n))))) by lia. done. Qed.

(** The loop of the 8-bit converter fills the buffer, pixel after pixel,
    with the bytes of the undercolor formula. *)
Lemma cmyk8_loop_spec (n : nat) :
  forall (i : nat) (srcpre rest pre : list Z),
    List.length srcpre = (4 * i)%nat ->
    List.length pre = (4 * i)%nat ->
    Forall is_byte rest ->
    (4 * n <= List.length rest)%nat ->
    4 * (Z.of_nat i + Z.of_nat n) < 2 ^ 31 ->
    cmyk8_loop n (Z.of_nat i) (srcpre ++ rest) (pre ++ replicate (4 * n) 0)
      = Some (pre ++ plrm8_pixels rest n).
Proof.
  induction n as [|n IH]; intros i srcpre rest pre Hsp Hp Hbytes Hlen Hbound.
  - simpl. by destruct rest.
  - destruct rest as [|c [|m [|y [|k rest]]]]; simpl in Hlen; try lia.
    apply Forall_cons in Hbytes as [Hc Hbytes].
    apply Forall_cons in Hbytes as [Hm Hbytes].
    apply Forall_cons in Hbytes as [Hy Hbytes].
    apply Forall_cons in Hbytes as [Hk Hbytes].
    cbn [cmyk8_loop]. rewrite c_int_small by lia.
    rewrite (rd_at _ srcpre (m :: y :: k :: rest) c (Z.of_nat i * 4));
      [|done|lia].
    rewrite (rd_at _ (srcpre ++ [c]) (y :: k :: rest) m (Z.of_nat i * 4 + 1));
      [|by rewrite <- app_assoc|rewrite length_app; simpl; lia].
    rewrite (rd_at _ ((srcpre ++ [c]) ++ [m]) (k :: rest) y (Z.of_nat i * 4 + 2));
      [|by rewrite <- !app_assoc|rewrite !length_app; simpl; lia].
    rewrite (rd_at _ (((srcpre ++ [c]) ++ [m]) ++ [y]) rest k (Z.of_nat i * 4 + 3));
      [|by rewrite <- !app_assoc|rewrite !length_app; simpl; lia].
    cbn [mbind option_bind].
    rewrite replicate_4S, write_bgrx_app by lia.
    cbn [mbind option_bind].
    destruct (under8_plrm8 y k Hy Hk) as [-> Hb1].
    destruct (under8_plrm8 m k Hm Hk) as [-> Hb2].
    destruct (under8_plrm8 c k Hc Hk) as [-> Hb3].
    rewrite !uchar_byte by done.
    replace (Z.of_nat i + 1) with (Z.of_nat (S i)) by lia.
    specialize (IH (S i) (srcpre ++ [c; m; y; k]) rest
                  (pre ++ [plrm8 y k; plrm8 m k; plrm8 c k; 255])).
    rewrite <- !app_assoc in IH. cbn [app] in IH.
    rewrite IH; [done|..]; try done.
    + rewrite length_app. simpl. lia.
    + rewrite length_app. simpl. lia.
    + lia.
    + lia.
Qed.

Lemma cmyk8_exact (src : list Z) (num_pixels : Z) :
  0 <= num_pixels ->
  4 * num_pixels < 2 ^ 31 ->
  Forall is_byte src ->
  4 * num_pixels <= Z.of_nat (List.length src) ->
  cmyk8_to_bgrx src num_pixels = Some (plrm8_pixels src (Z.to_nat num_pixels)).
Proof.
  intros Hn Hbound Hbytes Hlen. unfold cmyk8_to_bgrx, bytearray.
  rewrite c_int_small by lia.
  destruct (Z.ltb_spec (num_pixels * 4) 0); [lia|].
  cbn [mbind option_bind].
  replace (Z.to_nat (num_pixels * 4)) with (4 * Z.to_nat num_pixels)%nat by lia.
  apply (cmyk8_loop_spec (Z.to_nat num_pixels) 0%nat [] src []); try done; lia.
Qed.

Lemma nibble_range (b : Z) :
  is_byte b ->
  0 <= Z.land (Z.shiftr b 4) 15 < 16 /\ 0 <= Z.land b 15 < 16.
Proof.
  intros Hb. unfold is_byte in Hb.
  change 15 with (Z.ones 4). rewrite !Z.land_ones by lia.
  split; apply Z.mod_pos_bound; lia.
Qed.

Lemma under4_near_nibbles :
  forallb (fun cv => forallb (fun kv => under4_near cv kv) nibbles) nibbles = true.
Proof. vm_compute. reflexivity. Qed.

(** A channel of the 4-bit converter, identity decode: a byte within one of
    the undercolor formula. *)
Lemma under4_channel (cv kv : Z) :
  0 <= cv < 16 -> 0 <= kv < 16 ->
  exists v, under4 (decode_sample 0 scale15 cv) (decode_sample 0 scale15 kv) = Some v /\
    is_byte v /\ near v (plrm8 (17 * cv) (17 * kv)).
Proof.
  intros Hc Hk.
  assert (forall z, 0 <= z < 16 -> In z nibbles) as Hin.
  { intros z Hz. unfold nibbles. apply in_map_iff.
    exists (Z.to_nat z). split; [lia|]. apply in_seq. lia. }
  pose proof under4_near_nibbles as Hall.
  rewrite forallb_forall in Hall. specialize (Hall cv (Hin cv Hc)).
  rewrite forallb_forall in Hall. specialize (Hall kv (Hin kv Hk)).
  unfold under4_near in Hall.
  destruct (under4 _ _) as [v|]; [|done].
  exists v. split; [done|].
  apply andb_true_iff in Hall as [Hall Hn]. apply andb_true_iff in Hall as [H0 H1].
  unfold is_byte, near. lia.
Qed.

(** The loop of the 4-bit converter, identity decode: each byte it writes
    is within one of the undercolor formula at the same decoded values. *)
Lemma cmyk4_loop_spec (n : nat) :
  forall (i : nat) (srcpre rest pre : list Z),
    List.length srcpre = (2 * i)%nat ->
    List.length pre = (4 * i)%nat ->
    Forall is_byte rest ->
    (2 * n <= List.length rest)%nat ->
    4 * (Z.of_nat i + Z.of_nat n) < 2 ^ 31 ->
    exists out,
      cmyk4_loop n (Z.of_nat i) (2 * Z.of_nat i)
        (0, 0, 0, 0)%float (scale15, scale15, scale15, scale15)
        (srcpre ++ rest) (pre ++ replicate (4 * n) 0) = Some (pre ++ out) /\
      Forall2 near out (plrm8_pixels (expand4 rest n) n).
Proof.
  induction n as [|n IH]; intros i srcpre rest pre Hsp Hp Hbytes Hlen Hbound.
  - exists []. simpl. split; [done|]. destruct rest; constructor.
  - destruct rest as [|b1 [|b2 rest]]; simpl in Hlen; try lia.
    apply Forall_cons in Hbytes as [Hb1 Hbytes].
    apply Forall_cons in Hbytes as [Hb2 Hbytes].
    destruct (nibble_range b1 Hb1) as [Hc Hm].
    destruct (nibble_range b2 Hb2) as [Hy Hk].
    destruct (under4_channel _ _ Hy Hk) as (vb & Hvb & Hbb & Hnb).
    destruct (under4_channel _ _ Hm Hk) as (vg & Hvg & Hbg & Hng).
    destruct (under4_channel _ _ Hc Hk) as (vr & Hvr & Hbr & Hnr).
    specialize (IH (S i) (srcpre ++ [b1; b2]) rest (pre ++ [vb; vg; vr; 255])).
    destruct IH as (out & Hloop & Hnear); try done.
    { rewrite length_app. simpl. lia. }
    { rewrite length_app. simpl. lia. }
    { lia. }
    { lia. }
    exists (vb :: vg :: vr :: 255 :: out). split.
    + cbn [cmyk4_loop].
      clear Hc Hm Hy Hk Hnb Hng Hnr.
      rewrite (rd_at _ srcpre (b2 :: rest) b1 (2 * Z.of_nat i)); [|done|lia].
      rewrite (rd_at _ (srcpre ++ [b1]) rest b2 (2 * Z.of_nat i + 1));
        [|by rewrite <- app_assoc|rewrite length_app; simpl; lia].
      cbn [mbind option_bind]. cbv zeta.
      rewrite Hvb, Hvg, Hvr. cbn [mbind option_bind].
      rewrite (c_int_small (Z.of_nat i * 4)) by lia. rewrite replicate_4S.
      rewrite (wr_at _ pre (0 :: 0 :: 0 :: replicate (4 * n) 0) 0 vb); [|done|lia].
      cbn [mbind option_bind].
      rewrite (wr_at _ (pre ++ [vb]) (0 :: 0 :: replicate (4 * n) 0) 0 vg);
        [|by rewrite <- app_assoc|rewrite length_app; simpl; lia].
      cbn [mbind option_bind].
      rewrite (wr_at _ ((pre ++ [vb]) ++ [vg]) (0 :: replicate (4 * n) 0) 0 vr);
        [|by rewrite <- !app_assoc|rewrite !length_app; simpl; lia].
      cbn [mbind option_bind].
      rewrite (wr_at _ (((pre ++ [vb]) ++ [vg]) ++ [vr]) (replicate (4 * n) 0) 0 255);
        [|by rewrite <- !app_assoc|rewrite !length_app; simpl; lia].
      cbn [mbind option_bind].
      rewrite c_int_small by lia.
      replace (Z.of_nat i + 1) with (Z.of_nat (S i)) by lia.
      replace (2 * Z.of_nat i + 2) with (2 * Z.of_nat (S i)) by lia.
      rewrite <- !app_assoc in Hloop |- *. cbn [app] in Hloop |- *.
      exact Hloop.
    + cbn [expand4 plrm8_pixels].
      repeat (constructor; [first [done | unfold near; simpl; lia]|]).
      exact Hnear.
Qed.

Lemma cmyk4_near (src : list Z) (width height : Z) :
  0 <= width * height ->
  4 * (width * height) < 2 ^ 31 ->
  Forall is_byte src ->
  2 * (width * height) <= Z.of_nat (List.length src) ->
  exists out, cmyk4_to_bgrx src width height identity_decode = Some out /\
    Forall2 near out
      (plrm8_pixels (expand4 src (Z.to_nat (width * height)))
         (Z.to_nat (width * height))).
Proof.
  intros Hn Hbound Hbytes Hlen. unfold cmyk4_to_bgrx, bytearray.
  rewrite (c_int_small (width * height)) by lia.
  rewrite c_int_small by lia.
  destruct (Z.ltb_spec (width * height * 4) 0); [lia|].
  cbn [mbind option_bind].
  change (decode_scales identity_decode 15)
    with (Some ((0, 0, 0, 0)%float, (scale15, scale15, scale15, scale15))).
  cbn [mbind option_bind].
  replace (Z.to_nat (width * height * 4))
    with (4 * Z.to_nat (width * height))%nat by lia.
  destruct (cmyk4_loop_spec (Z.to_nat (width * height)) 0%nat [] src [])
    as (out & Hloop & Hnear); try done; try lia.
  exists out. split; [|done]. exact Hloop.
Qed.

Lemma cmyk12_near_nibbles :
  forallb (fun cv => forallb (fun kv => cmyk12_near cv kv) nibbles) nibbles = true.
Proof. vm_compute. reflexivity. Qed.



(** ** Color key masking *)

Lemma rd_lookup (l : list Z) (i : Z) : 0 <= i -> rd l i = l !! Z.to_nat i.
Proof. intros Hi. unfold rd. by destruct (Z.leb_spec 0 i); [|lia]. Qed.

Lemma mask_at_lookup (mask_color : list Z) (i v : Z) :
  Forall fits_int mask_color -> 0 <= i ->
  mask_color !! Z.to_nat i = Some v -> mask_at mask_color i = Some v.
Proof.
  intros Hfit Hi Hv. unfold mask_at. rewrite rd_lookup, Hv by done. simpl.
  rewrite Forall_lookup in Hfit. specialize (Hfit _ _ Hv).
  unfold fits_int in Hfit. unfold to_c_int.
  destruct (Z.leb_spec (- 2 ^ 31) v); [|lia].
  destruct (Z.ltb_spec v (2 ^ 31)); [done|lia].
Qed.

Section ColorKey.

Variables (sample_data mask_color : list Z) (n total : Z) (is_range : bool).

Hypothesis Hn : 0 <= n.
Hypothesis Htotal : 0 <= total.
Hypothesis Hsamples : total * n < 2 ^ 31.
Hypothesis Hpixels : 4 * total + 3 < 2 ^ 31.
Hypothesis Hslen : Z.of_nat (List.length sample_data) < 2 ^ 31.
Hypothesis Hmlen : Z.of_nat (List.length mask_color) < 2 ^ 31.
Hypothesis Hmask :
  (if is_range then 2 * n else n) <= Z.of_nat (List.length mask_color).
Hypothesis Hfit : Forall fits_int mask_color.

(** The range test, run over the components from [i] on, says whether
    each of them lies within its pair. *)
Lemma match_range_spec (p : Z) (cnt : nat) :
  is_range = true ->
  0 <= p -> p * n + n <= Z.of_nat (List.length sample_data) ->
  forall i, 0 <= i -> i + Z.of_nat cnt <= n ->
    exists b, match_range cnt i (p * n) sample_data mask_color = Some b /\
      (b = true <->
       forall k, i <= k < i + Z.of_nat cnt ->
         component_matches true sample_data mask_color n p k).
Proof.
  intros Hr Hp Hoff. pose proof Hmask as Hmask'. rewrite Hr in Hmask'.
  induction cnt as [|cnt IH]; intros i Hi Hcnt.
  - exists true. split; [done|]. split; [|done]. intros _ k Hk. lia.
  - destruct (lookup_lt_is_Some_2 sample_data (Z.to_nat (p * n + i)))
      as [raw Hraw]; [nia|].
    destruct (lookup_lt_is_Some_2 mask_color (Z.to_nat (2 * i))) as [lo Hlo]; [lia|].
    destruct (lookup_lt_is_Some_2 mask_color (Z.to_nat (2 * i + 1))) as [hi Hhi]; [lia|].
    cbn [match_range].
    rewrite (c_int_small (p * n + i)) by nia.
    rewrite (c_int_small (i * 2)) by lia.
    rewrite (c_int_small (i * 2 + 1)) by lia.
    rewrite rd_lookup, Hraw by nia. cbn [mbind option_bind].
    replace (i * 2) with (2 * i) by lia.
    rewrite (mask_at_lookup mask_color (2 * i) lo Hfit) by (done || lia).
    rewrite (mask_at_lookup mask_color (2 * i + 1) hi Hfit) by (done || lia).
    cbn [mbind option_bind].
    destruct (Z.ltb_spec raw lo) as [Hlt|Hge]; simpl.
    { exists false. split; [done|]. split; [done|]. intros Hall.
      destruct (Hall i) as (raw' & Hraw' & lo' & hi' & Hlo' & Hhi' & Hin); [lia|].
      rewrite Hraw in Hraw'. rewrite Hlo in Hlo'.
      injection Hraw' as <-. injection Hlo' as <-. lia. }
    destruct (Z.gtb_spec raw hi) as [Hgt|Hle].
    { exists false. split; [done|]. split; [done|]. intros Hall.
      destruct (Hall i) as (raw' & Hraw' & lo' & hi' & Hlo' & Hhi' & Hin); [lia|].
      rewrite Hraw in Hraw'. rewrite Hhi in Hhi'.
      injection Hraw' as <-. injection Hhi' as <-. lia. }
    destruct (IH (i + 1)) as (b & Hb & Hspec); [lia|lia|].
    exists b. split; [done|]. rewrite Hspec. split.
    + intros Hall k Hk. destruct (decide (k = i)) as [->|Hne].
      * exists raw. split; [done|]. exists lo, hi. repeat split; try done; lia.
      * apply Hall. lia.
    + intros Hall k Hk. apply Hall. lia.
Qed.

(** The equality test likewise. *)
Lemma match_exact_spec (p : Z) (cnt : nat) :
  is_range = false ->
  0 <= p -> p * n + n <= Z.of_nat (List.length sample_data) ->
  forall i, 0 <= i -> i + Z.of_nat cnt <= n ->
    exists b, match_exact cnt i (p * n) sample_data mask_color = Some b /\
      (b = true <->
       forall k, i <= k < i + Z.of_nat cnt ->
         component_matches false sample_data mask_color n p k).
Proof.
  intros Hr Hp Hoff. pose proof Hmask as Hmask'. rewrite Hr in Hmask'.
  induction cnt as [|cnt IH]; intros i Hi Hcnt.
  - exists true. split; [done|]. split; [|done]. intros _ k Hk. lia.
  - destruct (lookup_lt_is_Some_2 sample_data (Z.to_nat (p * n + i)))
      as [raw Hraw]; [nia|].
    destruct (lookup_lt_is_Some_2 mask_color (Z.to_nat i)) as [v Hv]; [lia|].
    cbn [match_exact].
    rewrite (c_int_small (p * n + i)) by nia.
    rewrite rd_lookup, Hraw by nia. cbn [mbind option_bind].
    rewrite (mask_at_lookup mask_color i v Hfit) by (done || lia).
    cbn [mbind option_bind].
    destruct (Z.eqb_spec raw v) as [->|Hne]; simpl.
    + destruct (IH (i + 1)) as (b & Hb & Hspec); [lia|lia|].
      exists b. split; [done|]. rewrite Hspec. split.
      * intros Hall k Hk. destruct (decide (k = i)) as [->|Hne].
        -- exists v. done.
        -- apply Hall. lia.
      * intros Hall k Hk. apply Hall. lia.
    + exists false. split; [done|]. split; [done|]. intros Hall.
      destruct (Hall i) as (raw' & Hraw' & Hv'); [lia|].
      rewrite Hraw in Hraw'. injection Hraw' as <-.
      rewrite Hv in Hv'. by injection Hv'.
Qed.

(** The test of a whole pixel. *)
Lemma pixel_test_spec (p : Z) :
  0 <= p -> p * n + n <= Z.of_nat (List.length sample_data) ->
  exists b,
    (if is_range
     then match_range (Z.to_nat n) 0 (p * n) sample_data mask_color
     else match_exact (Z.to_nat n) 0 (p * n) sample_data mask_color) = Some b /\
    (b = true <-> pixel_matches is_range sample_data mask_color n p).
Proof.
  intros Hp Hoff. unfold pixel_matches.
  destruct (Bool.bool_dec is_range true) as [Hr|Hr].
  - destruct (match_range_spec p (Z.to_nat n) Hr Hp Hoff 0) as (b & Hb & Hspec);
      [lia|lia|].
    rewrite Hr. exists b. split; [done|]. rewrite Hspec. rewrite Z2Nat.id by lia.
    split; intros Hall k Hk; apply Hall; lia.
  - apply not_true_is_false in Hr.
    destruct (match_exact_spec p (Z.to_nat n) Hr Hp Hoff 0) as (b & Hb & Hspec);
      [lia|lia|].
    rewrite Hr. exists b. split; [done|]. rewrite Hspec. rewrite Z2Nat.id by lia.
    split; intros Hall k Hk; apply Hall; lia.
Qed.

(** What the alpha write of one pixel leaves behind. *)
Lemma alpha_write_spec (b : bool) (pixel_idx : Z) (pd : list Z) :
  0 <= pixel_idx < total ->
  Z.of_nat (List.length pd) < 2 ^ 31 ->
  exists pd',
    (if b then
       if c_int (c_int (pixel_idx * 4) + 3) <? c_int (Z.of_nat (List.length pd))
       then wr pd (c_int (c_int (pixel_idx * 4) + 3)) 0 else Some pd
     else Some pd) = Some pd' /\
    List.length pd' = List.length pd /\
    (forall j : nat, pd' !! j = pd !! j \/
       (pd' !! j = Some 0 /\ j = Z.to_nat (4 * pixel_idx + 3) /\ b = true)) /\
    (b = true -> (Z.to_nat (4 * pixel_idx + 3) < List.length pd)%nat ->
     pd' !! Z.to_nat (4 * pixel_idx + 3) = Some 0).
Proof.
  intros Hp Hlen. destruct b.
  - rewrite (c_int_small (pixel_idx * 4)) by lia.
    rewrite (c_int_small (pixel_idx * 4 + 3)) by lia.
    rewrite (c_int_small (Z.of_nat (List.length pd))) by lia.
    destruct (Z.ltb_spec (pixel_idx * 4 + 3) (Z.of_nat (List.length pd))) as [Hin|Hout].
    + unfold wr.
      destruct (Z.leb_spec 0 (pixel_idx * 4 + 3)); [|lia].
      destruct (Z.ltb_spec (pixel_idx * 4 + 3) (Z.of_nat (List.length pd))); [|lia].
      simpl. eexists. split; [reflexivity|].
      replace (pixel_idx * 4 + 3) with (4 * pixel_idx + 3) by lia.
      split; [apply length_insert|]. split.
      * intros j. destruct (decide (j = Z.to_nat (4 * pixel_idx + 3))) as [->|Hne].
        -- right. split; [|done]. apply list_lookup_insert_eq. lia.
        -- left. by apply list_lookup_insert_ne.
      * intros _ Hlt. by apply list_lookup_insert_eq.
    + exists pd. split; [done|]. split; [done|]. split; [by left|].
      intros _ Hlt. lia.
  - exists pd. split; [done|]. split; [done|]. split; [by left|]. done.
Qed.

(** The pixel loop: it keeps the length, and a byte it changes is the
    alpha byte of a matching pixel, set to 0; every such byte of the
    buffer is set. *)
Lemma mask8_loop_spec (cnt : nat) :
  forall (pixel_idx : Z) (pd : list Z),
    0 <= pixel_idx -> pixel_idx + Z.of_nat cnt <= total ->
    Z.of_nat (List.length pd) < 2 ^ 31 ->
    exists out,
      mask8_loop cnt pixel_idx n is_range sample_data mask_color pd = Some out /\
      List.length out = List.length pd /\
      (forall j : nat, out !! j = pd !! j \/
         (out !! j = Some 0 /\
          masked_alpha is_range sample_data mask_color n
            pixel_idx (pixel_idx + Z.of_nat cnt) j)) /\
      (forall j : nat,
         masked_alpha is_range sample_data mask_color n
           pixel_idx (pixel_idx + Z.of_nat cnt) j ->
         (j < List.length pd)%nat -> out !! j = Some 0).
Proof.
  induction cnt as [|cnt IH]; intros pixel_idx pd Hidx Hcnt Hlen.
  - exists pd. split; [done|]. split; [done|]. split; [by left|].
    intros j (p & Hp & _). lia.
  - cbn [mask8_loop].
    rewrite (c_int_small (pixel_idx * n)) by nia.
    rewrite (c_int_small (pixel_idx * n + n)) by nia.
    rewrite (c_int_small (Z.of_nat (List.length sample_data))) by lia.
    destruct (Z.gtb_spec (pixel_idx * n + n) (Z.of_nat (List.length sample_data)))
      as [Hgt|Hle].
    + exists pd. split; [done|]. split; [done|]. split; [by left|].
      intros j (p & Hp & Hj & Hoff & Hm) Hlt. nia.
    + destruct (pixel_test_spec pixel_idx Hidx Hle) as (b & -> & Hspec).
      cbn [mbind option_bind].
      destruct (alpha_write_spec b pixel_idx pd) as (pd' & -> & Hl' & Hfr & Hset);
        [lia|lia|].
      cbn [mbind option_bind].
      destruct (IH (pixel_idx + 1) pd') as (out & -> & Hlo & Ha & Hb); [lia|lia|lia|].
      exists out. split; [done|]. split; [congruence|]. split.
      * intros j. destruct (Ha j) as [Hsame|[Hz Hm]].
        -- destruct (Hfr j) as [Hsame'|(Hz' & Hj & Hbt)].
           ++ left. congruence.
           ++ right. split; [congruence|].
              exists pixel_idx. repeat split; try done; try lia.
              by apply Hspec.
        -- right. split; [done|].
           destruct Hm as (p & Hp & Hrest). exists p. split; [lia|done].
      * intros j (p & Hp & Hj & Hoff & Hm) Hlt.
        destruct (decide (p = pixel_idx)) as [->|Hne].
        -- assert (b = true) as Hbt by (by apply Hspec).
           specialize (Hset Hbt). subst j. specialize (Hset Hlt).
           destruct (Ha (Z.to_nat (4 * pixel_idx + 3))) as [Hsame|[Hz _]];
             congruence.
        -- apply Hb; [|lia]. exists p. repeat split; try done; lia.
Qed.

End ColorKey.



(** The call of the witness clears the alpha byte of the first pixel. *)
Example color_key_mask_sample :
  apply_color_key_mask_8 key_pixels key_samples 2 1 3 key_color false
    = Some [30; 20; 10; 0; 60; 50; 40; 255].
Proof. vm_compute. reflexivity. Qed.

(** * Further properties of the converters *)

Lemma bytearray_zeros (n : Z) :
  0 <= n -> 4 * n < 2 ^ 31 ->
  bytearray (c_int (n * 4)) = Some (replicate (4 * Z.to_nat n) 0).
Proof.
  intros Hn Hb. unfold bytearray. rewrite c_int_small by lia.
  destruct (Z.ltb_spec (n * 4) 0); [lia|].
  by replace (Z.to_nat (n * 4)) with (4 * Z.to_nat n)%nat by lia.
Qed.

Lemma lut_rd (lut : list Z) (s : Z) :
  is_lut lut -> is_byte s ->
  rd lut s = Some (lut_at lut s) /\ is_byte (lut_at lut s).
Proof.
  intros [Hlen Hbytes] Hs. unfold is_byte in Hs.
  destruct (lookup_lt_is_Some_2 lut (Z.to_nat s)) as [v Hv]; [lia|].
  rewrite rd_lookup by lia. unfold lut_at. rewrite Hv. simpl.
  split; [done|]. rewrite Forall_lookup in Hbytes. by eapply Hbytes.
Qed.

Lemma identity_lut_is_lut : is_lut identity_lut.
Proof.
  split; [reflexivity|]. unfold identity_lut.
  change (map Z.of_nat (seq 0 256)) with (Z.of_nat <$> seq 0 256).
  apply Forall_fmap, Forall_forall. intros k Hk.
  apply elem_of_seq in Hk. unfold is_byte. simpl. lia.
Qed.

Lemma identity_lut_at (v : Z) : is_byte v -> lut_at identity_lut v = v.
Proof.
  intros Hv. unfold is_byte in Hv. unfold lut_at, identity_lut.
  change (map Z.of_nat (seq 0 256)) with (Z.of_nat <$> seq 0 256).
  rewrite list_lookup_fmap, lookup_seq_lt by lia. simpl. lia.
Qed.

(** ** Gray *)

Lemma gray8_loop_spec (n : nat) :
  forall (i : nat) (srcpre rest pre : list Z),
    List.length srcpre = i ->
    List.length pre = (4 * i)%nat ->
    Forall is_byte rest ->
    (n <= List.length rest)%nat ->
    4 * (Z.of_nat i + Z.of_nat n) < 2 ^ 31 ->
    gray8_loop n (Z.of_nat i) (srcpre ++ rest) (pre ++ replicate (4 * n) 0)
      = Some (pre ++ gray_pixels (take n rest)).
Proof.
  induction n as [|n IH]; intros i srcpre rest pre Hsp Hp Hbytes Hlen Hbound.
  - by simpl.
  - destruct rest as [|g rest]; simpl in Hlen; [lia|].
    apply Forall_cons in Hbytes as [Hg Hbytes].
    cbn [gray8_loop take gray_pixels].
    rewrite (rd_at _ srcpre rest g (Z.of_nat i)); [|done|lia].
    cbn [mbind option_bind].
    rewrite (c_int_small (Z.of_nat i * 4)) by lia.
    rewrite replicate_4S, write_bgrx_app by lia.
    cbn [mbind option_bind]. rewrite !uchar_byte by done.
    replace (Z.of_nat i + 1) with (Z.of_nat (S i)) by lia.
    specialize (IH (S i) (srcpre ++ [g]) rest (pre ++ [g; g; g; 255])).
    rewrite <- !app_assoc in IH. cbn [app] in IH.
    rewrite IH; [done|..]; try done.
    + rewrite length_app. simpl. lia.
    + rewrite length_app. simpl. lia.
    + lia.
    + lia.
Qed.

(** X2: [gray8_to_bgrx] turns each of the first [num_pixels] samples into
    an opaque gray pixel, the sample in the B, G and R bytes and 255 in the
    fourth; the samples beyond are ignored. *)
Theorem gray8_pixels (src : list Z) (num_pixels : Z) :
  0 <= num_pixels ->
  4 * num_pixels < 2 ^ 31 ->
  Forall is_byte src ->
  num_pixels <= Z.of_nat (List.length src) ->
  gray8_to_bgrx src num_pixels = Some (gray_pixels (take (Z.to_nat num_pixels) src)).
Proof.
  intros Hn Hbound Hbytes Hlen. unfold gray8_to_bgrx.
  rewrite bytearray_zeros by done. cbn [mbind option_bind].
  apply (gray8_loop_spec (Z.to_nat num_pixels) 0%nat [] src []); try done; lia.
Qed.

Lemma gray8_pixels_witness :
  gray8_to_bgrx [7; 200; 9] 2 = Some (gray_pixels (take (Z.to_nat 2) [7; 200; 9])).
Proof.
  apply (gray8_pixels [7; 200; 9] 2).
  - lia.
  - lia.
  - repeat constructor; unfold is_byte; lia.
  - simpl. lia.
Defined.

Lemma gray8_decode_loop_spec (lut : list Z) (n : nat) :
  is_lut lut ->
  forall (i : nat) (srcpre rest pre : list Z),
    List.length srcpre = i ->
    List.length pre = (4 * i)%nat ->
    Forall is_byte rest ->
    (n <= List.length rest)%nat ->
    4 * (Z.of_nat i + Z.of_nat n) < 2 ^ 31 ->
    gray8_decode_loop n (Z.of_nat i) (srcpre ++ rest) lut (pre ++ replicate (4 * n) 0)
      = Some (pre ++ gray_pixels (lut_at lut <$> take n rest)).
Proof.
  intros Hlut.
  induction n as [|n IH]; intros i srcpre rest pre Hsp Hp Hbytes Hlen Hbound.
  - by simpl.
  - destruct rest as [|s rest]; simpl in Hlen; [lia|].
    apply Forall_cons in Hbytes as [Hs Hbytes].
    destruct (lut_rd lut s Hlut Hs) as [Hrd Hg].
    cbn [gray8_decode_loop take fmap list_fmap gray_pixels].
    rewrite (rd_at _ srcpre rest s (Z.of_nat i)); [|done|lia].
    cbn [mbind option_bind]. rewrite Hrd. cbn [mbind option_bind].
    rewrite (c_int_small (Z.of_nat i * 4)) by lia.
    rewrite replicate_4S, write_bgrx_app by lia.
    cbn [mbind option_bind]. rewrite !uchar_byte by done.
    replace (Z.of_nat i + 1) with (Z.of_nat (S i)) by lia.
    specialize (IH (S i) (srcpre ++ [s]) rest
                  (pre ++ [lut_at lut s; lut_at lut s; lut_at lut s; 255])).
    rewrite <- !app_assoc in IH. cbn [app] in IH.
    rewrite IH; [done|..]; try done.
    + rewrite length_app. simpl. lia.
    + rewrite length_app. simpl. lia.
    + lia.
    + lia.
Qed.

(** X3: decoding through a table and converting is converting the decoded
    samples: [gray8_decode_to_bgrx] with a 256-byte table gives what
    [gray8_to_bgrx] gives on the samples sent through the table. *)
Theorem gray8_decode_is_lut_then_convert (src : list Z) (num_pixels : Z) (lut : list Z) :
  is_lut lut ->
  0 <= num_pixels ->
  4 * num_pixels < 2 ^ 31 ->
  Forall is_byte src ->
  num_pixels <= Z.of_nat (List.length src) ->
  gray8_decode_to_bgrx src num_pixels lut
    = gray8_to_bgrx (lut_at lut <$> src) num_pixels.
Proof.
  intros Hlut Hn Hbound Hbytes Hlen.
  rewrite gray8_pixels; try done.
  - unfold gray8_decode_to_bgrx.
    rewrite bytearray_zeros by done. cbn [mbind option_bind].
    rewrite <- fmap_take.
    apply (gray8_decode_loop_spec lut (Z.to_nat num_pixels) Hlut 0%nat [] src []);
      try done; lia.
  - apply Forall_fmap. eapply Forall_impl; [exact Hbytes|].
    intros s Hs. simpl. by apply lut_rd.
  - by rewrite length_fmap.
Qed.

Lemma gray8_decode_is_lut_then_convert_witness :
  gray8_decode_to_bgrx [7; 200; 9] 2 identity_lut
    = gray8_to_bgrx (lut_at identity_lut <$> [7; 200; 9]) 2.
Proof.
  apply (gray8_decode_is_lut_then_convert [7; 200; 9] 2 identity_lut).
  - exact identity_lut_is_lut.
  - lia.
  - lia.
  - repeat constructor; unfold is_byte; lia.
  - simpl. lia.
Defined.

(** ** RGB *)

Lemma rgb8_loop_spec (n : nat) :
  forall (i : nat) (srcpre rest pre : list Z),
    List.length srcpre = (3 * i)%nat ->
    List.length pre = (4 * i)%nat ->
    Forall is_byte rest ->
    (3 * n <= List.length rest)%nat ->
    4 * (Z.of_nat i + Z.of_nat n) < 2 ^ 31 ->
    rgb8_loop n (Z.of_nat i) (srcpre ++ rest) (pre ++ replicate (4 * n) 0)
      = Some (pre ++ bgrx_pixels rest n).
Proof.
  induction n as [|n IH]; intros i srcpre rest pre Hsp Hp Hbytes Hlen Hbound.
  - simpl. by destruct rest.
  - destruct rest as [|r [|g [|b rest]]]; simpl in Hlen; try lia.
    apply Forall_cons in Hbytes as [Hr Hbytes].
    apply Forall_cons in Hbytes as [Hg Hbytes].
    apply Forall_cons in Hbytes as [Hb Hbytes].
    cbn [rgb8_loop bgrx_pixels].
    rewrite (c_int_small (Z.of_nat i * 3)) by lia.
    rewrite (c_int_small (Z.of_nat i * 4)) by lia.
    rewrite (rd_at _ ((srcpre ++ [r]) ++ [g]) rest b (Z.of_nat i * 3 + 2));
      [|by rewrite <- !app_assoc|rewrite !length_app; simpl; lia].
    rewrite (rd_at _ (srcpre ++ [r]) (b :: rest) g (Z.of_nat i * 3 + 1));
      [|by rewrite <- app_assoc|rewrite length_app; simpl; lia].
    rewrite (rd_at _ srcpre (g :: b :: rest) r (Z.of_nat i * 3)); [|done|lia].
    cbn [mbind option_bind].
    rewrite replicate_4S, write_bgrx_app by lia.
    cbn [mbind option_bind]. rewrite !uchar_byte by done.
    replace (Z.of_nat i + 1) with (Z.of_nat (S i)) by lia.
    specialize (IH (S i) (srcpre ++ [r; g; b]) rest (pre ++ [b; g; r; 255])).
    rewrite <- !app_assoc in IH. cbn [app] in IH.
    rewrite IH; [done|..]; try done.
    + rewrite length_app. simpl. lia.
    + rewrite length_app. simpl. lia.
    + lia.
    + lia.
Qed.

Lemma rgb8_loop_start (src : list Z) (n : nat) :
  Forall is_byte src ->
  (3 * n <= List.length src)%nat ->
  4 * Z.of_nat n < 2 ^ 31 ->
  rgb8_loop n 0 src (replicate (4 * n) 0) = Some (bgrx_pixels src n).
Proof.
  intros Hbytes Hlen Hbound.
  apply (rgb8_loop_spec n 0%nat [] src []); try done; lia.
Qed.

(** X4: [rgb8_to_bgrx] swaps the red and the blue byte of each of the
    first [num_pixels] RGB triples and appends the byte 255: the pixel
    [r, g, b] becomes [b, g, r, 255]. *)
Theorem rgb8_swaps_red_and_blue (src : list Z) (num_pixels : Z) :
  0 <= num_pixels ->
  4 * num_pixels < 2 ^ 31 ->
  Forall is_byte src ->
  3 * num_pixels <= Z.of_nat (List.length src) ->
  rgb8_to_bgrx src num_pixels = Some (bgrx_pixels src (Z.to_nat num_pixels)).
Proof.
  intros Hn Hbound Hbytes Hlen. unfold rgb8_to_bgrx.
  rewrite bytearray_zeros by done. cbn [mbind option_bind].
  apply rgb8_loop_start; try done; lia.
Qed.

Lemma rgb8_swaps_red_and_blue_witness :
  rgb8_to_bgrx [1; 2; 3; 4; 5; 6] 2
    = Some (bgrx_pixels [1; 2; 3; 4; 5; 6] (Z.to_nat 2)).
Proof.
  apply (rgb8_swaps_red_and_blue [1; 2; 3; 4; 5; 6] 2).
  - lia.
  - lia.
  - repeat constructor; unfold is_byte; lia.
  - simpl. lia.
Defined.

Lemma gray_pixels_as_rgb (src : list Z) (n : nat) :
  (n <= List.length src)%nat ->
  bgrx_pixels (gray_as_rgb src) n = gray_pixels (take n src).
Proof.
  revert src. induction n as [|n IH]; intros src Hn.
  - by destruct src.
  - destruct src as [|g src]; simpl in Hn; [lia|].
    simpl. rewrite IH by lia. done.
Qed.

Lemma gray_as_rgb_length (src : list Z) :
  List.length (gray_as_rgb src) = (3 * List.length src)%nat.
Proof. induction src as [|g src IH]; simpl; lia. Qed.

Lemma gray_as_rgb_bytes (src : list Z) :
  Forall is_byte src -> Forall is_byte (gray_as_rgb src).
Proof.
  induction src as [|g src IH]; intros Hb; [constructor|].
  apply Forall_cons in Hb as [Hg Hb]. simpl.
  repeat (constructor; [done|]). by apply IH.
Qed.

(** X5: a gray image converts like the RGB image that repeats each sample
    in the three channels. *)
Theorem gray8_is_rgb8_of_equal_channels (src : list Z) (num_pixels : Z) :
  0 <= num_pixels ->
  4 * num_pixels < 2 ^ 31 ->
  Forall is_byte src ->
  num_pixels <= Z.of_nat (List.length src) ->
  gray8_to_bgrx src num_pixels = rgb8_to_bgrx (gray_as_rgb src) num_pixels.
Proof.
  intros Hn Hbound Hbytes Hlen.
  rewrite gray8_pixels by done.
  unfold rgb8_to_bgrx. rewrite bytearray_zeros by done. cbn [mbind option_bind].
  rewrite rgb8_loop_start.
  - by rewrite gray_pixels_as_rgb by lia.
  - by apply gray_as_rgb_bytes.
  - rewrite gray_as_rgb_length. lia.
  - lia.
Qed.

Lemma gray8_is_rgb8_of_equal_channels_witness :
  gray8_to_bgrx [7; 200; 9] 3 = rgb8_to_bgrx (gray_as_rgb [7; 200; 9]) 3.
Proof.
  apply (gray8_is_rgb8_of_equal_channels [7; 200; 9] 3).
  - lia.
  - lia.
  - repeat constructor; unfold is_byte; lia.
  - simpl. lia.
Defined.

Lemma rgb8_decode_loop_spec (r_lut g_lut b_lut : list Z) (n : nat) :
  is_lut r_lut -> is_lut g_lut -> is_lut b_lut ->
  forall (i : nat) (srcpre rest pre : list Z),
    List.length srcpre = (3 * i)%nat ->
    List.length pre = (4 * i)%nat ->
    Forall is_byte rest ->
    (3 * n <= List.length rest)%nat ->
    4 * (Z.of_nat i + Z.of_nat n) < 2 ^ 31 ->
    rgb8_decode_loop n (Z.of_nat i) (srcpre ++ rest) r_lut g_lut b_lut
      (pre ++ replicate (4 * n) 0)
      = Some (pre ++ bgrx_pixels (decode_rgb r_lut g_lut b_lut rest n) n).
Proof.
  intros Hrl Hgl Hbl.
  induction n as [|n IH]; intros i srcpre rest pre Hsp Hp Hbytes Hlen Hbound.
  - simpl. by destruct rest.
  - destruct rest as [|r [|g [|b rest]]]; simpl in Hlen; try lia.
    apply Forall_cons in Hbytes as [Hr Hbytes].
    apply Forall_cons in Hbytes as [Hg Hbytes].
    apply Forall_cons in Hbytes as [Hb Hbytes].
    destruct (lut_rd r_lut r Hrl Hr) as [Hrdr Hvr].
    destruct (lut_rd g_lut g Hgl Hg) as [Hrdg Hvg].
    destruct (lut_rd b_lut b Hbl Hb) as [Hrdb Hvb].
    cbn [rgb8_decode_loop decode_rgb bgrx_pixels].
    rewrite (c_int_small (Z.of_nat i * 3)) by lia.
    rewrite (c_int_small (Z.of_nat i * 4)) by lia.
    rewrite (rd_at _ ((srcpre ++ [r]) ++ [g]) rest b (Z.of_nat i * 3 + 2));
      [|by rewrite <- !app_assoc|rewrite !length_app; simpl; lia].
    cbn [mbind option_bind]. rewrite Hrdb. cbn [mbind option_bind].
    rewrite (rd_at _ (srcpre ++ [r]) (b :: rest) g (Z.of_nat i * 3 + 1));
      [|by rewrite <- app_assoc|rewrite length_app; simpl; lia].
    cbn [mbind option_bind]. rewrite Hrdg. cbn [mbind option_bind].
    rewrite (rd_at _ srcpre (g :: b :: rest) r (Z.of_nat i * 3)); [|done|lia].
    cbn [mbind option_bind]. rewrite Hrdr. cbn [mbind option_bind].
    rewrite replicate_4S, write_bgrx_app by lia.
    cbn [mbind option_bind]. rewrite !uchar_byte by done.
    replace (Z.of_nat i + 1) with (Z.of_nat (S i)) by lia.
    specialize (IH (S i) (srcpre ++ [r; g; b]) rest
                  (pre ++ [lut_at b_lut b; lut_at g_lut g; lut_at r_lut r; 255])).
    rewrite <- !app_assoc in IH. cbn [app] in IH.
    rewrite IH; [done|..]; try done.
    + rewrite length_app. simpl. lia.
    + rewrite length_app. simpl. lia.
    + lia.
    + lia.
Qed.

Lemma decode_rgb_bytes (r_lut g_lut b_lut src : list Z) (n : nat) :
  is_lut r_lut -> is_lut g_lut -> is_lut b_lut ->
  Forall is_byte src -> (3 * n <= List.length src)%nat ->
  Forall is_byte (decode_rgb r_lut g_lut b_lut src n) /\
  List.length (decode_rgb r_lut g_lut b_lut src n) = (3 * n)%nat.
Proof.
  intros Hrl Hgl Hbl. revert src.
  induction n as [|n IH]; intros src Hbytes Hlen.
  - by destruct src.
  - destruct src as [|r [|g [|b rest]]]; simpl in Hlen; try lia.
    apply Forall_cons in Hbytes as [Hr Hbytes].
    apply Forall_cons in Hbytes as [Hg Hbytes].
    apply Forall_cons in Hbytes as [Hb Hbytes].
    destruct (IH rest Hbytes) as [IH1 IH2]; [lia|].
    cbn [decode_rgb]. split.
    + repeat (constructor; [by apply lut_rd|]). done.
    + simpl. lia.
Qed.

(** X6: [rgb8_decode_to_bgrx] with a 256-byte table per channel gives
    what [rgb8_to_bgrx] gives on the samples sent through the table of
    their channel. *)
Theorem rgb8_decode_is_lut_then_convert (src : list Z) (num_pixels : Z)
    (r_lut g_lut b_lut : list Z) :
  is_lut r_lut -> is_lut g_lut -> is_lut b_lut ->
  0 <= num_pixels ->
  4 * num_pixels < 2 ^ 31 ->
  Forall is_byte src ->
  3 * num_pixels <= Z.of_nat (List.length src) ->
  rgb8_decode_to_bgrx src num_pixels r_lut g_lut b_lut
    = rgb8_to_bgrx (decode_rgb r_lut g_lut b_lut src (Z.to_nat num_pixels)) num_pixels.
Proof.
  intros Hrl Hgl Hbl Hn Hbound Hbytes Hlen.
  destruct (decode_rgb_bytes r_lut g_lut b_lut src (Z.to_nat num_pixels))
    as [Hdb Hdl]; try done; [lia|].
  unfold rgb8_decode_to_bgrx, rgb8_to_bgrx.
  rewrite bytearray_zeros by done. cbn [mbind option_bind].
  rewrite rgb8_loop_start by (done || lia).
  apply (rgb8_decode_loop_spec r_lut g_lut b_lut (Z.to_nat num_pixels)
           Hrl Hgl Hbl 0%nat [] src []); try done; lia.
Qed.

Lemma rgb8_decode_is_lut_then_convert_witness :
  rgb8_decode_to_bgrx [1; 2; 3] 1 identity_lut identity_lut identity_lut
    = rgb8_to_bgrx (decode_rgb identity_lut identity_lut identity_lut [1; 2; 3]
                      (Z.to_nat 1)) 1.
Proof.
  apply (rgb8_decode_is_lut_then_convert [1; 2; 3] 1
           identity_lut identity_lut identity_lut).
  - exact identity_lut_is_lut.
  - exact identity_lut_is_lut.
  - exact identity_lut_is_lut.
  - lia.
  - lia.
  - repeat constructor; unfold is_byte; lia.
  - simpl. lia.
Defined.

(** ** CMYK through decode tables *)

Lemma cmyk8_decode_loop_spec (c_lut m_lut y_lut k_lut : list Z) (n : nat) :
  is_lut c_lut -> is_lut m_lut -> is_lut y_lut -> is_lut k_lut ->
  forall (i : nat) (srcpre rest pre : list Z),
    List.length srcpre = (4 * i)%nat ->
    List.length pre = (4 * i)%nat ->
    Forall is_byte rest ->
    (4 * n <= List.length rest)%nat ->
    4 * (Z.of_nat i + Z.of_nat n) < 2 ^ 31 ->
    cmyk8_decode_loop n (Z.of_nat i) (srcpre ++ rest) c_lut m_lut y_lut k_lut
      (pre ++ replicate (4 * n) 0)
      = Some (pre ++ plrm8_pixels (decode_cmyk c_lut m_lut y_lut k_lut rest n) n).
Proof.
  intros Hcl Hml Hyl Hkl.
  induction n as [|n IH]; intros i srcpre rest pre Hsp Hp Hbytes Hlen Hbound.
  - simpl. by destruct rest.
  - destruct rest as [|c [|m [|y [|k rest]]]]; simpl in Hlen; try lia.
    apply Forall_cons in Hbytes as [Hc Hbytes].
    apply Forall_cons in Hbytes as [Hm Hbytes].
    apply Forall_cons in Hbytes as [Hy Hbytes].
    apply Forall_cons in Hbytes as [Hk Hbytes].
    destruct (lut_rd c_lut c Hcl Hc) as [Hrdc Hvc].
    destruct (lut_rd m_lut m Hml Hm) as [Hrdm Hvm].
    destruct (lut_rd y_lut y Hyl Hy) as [Hrdy Hvy].
    destruct (lut_rd k_lut k Hkl Hk) as [Hrdk Hvk].
    cbn [cmyk8_decode_loop decode_cmyk plrm8_pixels].
    rewrite (c_int_small (Z.of_nat i * 4)) by lia.
    rewrite (rd_at _ srcpre (m :: y :: k :: rest) c (Z.of_nat i * 4)); [|done|lia].
    cbn [mbind option_bind]. rewrite Hrdc. cbn [mbind option_bind].
    rewrite (rd_at _ (srcpre ++ [c]) (y :: k :: rest) m (Z.of_nat i * 4 + 1));
      [|by rewrite <- app_assoc|rewrite length_app; simpl; lia].
    cbn [mbind option_bind]. rewrite Hrdm. cbn [mbind option_bind].
    rewrite (rd_at _ ((srcpre ++ [c]) ++ [m]) (k :: rest) y (Z.of_nat i * 4 + 2));
      [|by rewrite <- !app_assoc|rewrite !length_app; simpl; lia].
    cbn [mbind option_bind]. rewrite Hrdy. cbn [mbind option_bind].
    rewrite (rd_at _ (((srcpre ++ [c]) ++ [m]) ++ [y]) rest k (Z.of_nat i * 4 + 3));
      [|by rewrite <- !app_assoc|rewrite !length_app; simpl; lia].
    cbn [mbind option_bind]. rewrite Hrdk. cbn [mbind option_bind].
    rewrite replicate_4S, write_bgrx_app by lia.
    cbn [mbind option_bind].
    destruct (under8_plrm8 _ _ Hvy Hvk) as [-> Hb1].
    destruct (under8_plrm8 _ _ Hvm Hvk) as [-> Hb2].
    destruct (under8_plrm8 _ _ Hvc Hvk) as [-> Hb3].
    rewrite !uchar_byte by done.
    replace (Z.of_nat i + 1) with (Z.of_nat (S i)) by lia.
    specialize (IH (S i) (srcpre ++ [c; m; y; k]) rest
                  (pre ++ [plrm8 (lut_at y_lut y) (lut_at k_lut k);
                           plrm8 (lut_at m_lut m) (lut_at k_lut k);
                           plrm8 (lut_at c_lut c) (lut_at k_lut k); 255])).
    rewrite <- !app_assoc in IH. cbn [app] in IH.
    rewrite IH; [done|..]; try done.
    + rewrite length_app. simpl. lia.
    + rewrite length_app. simpl. lia.
    + lia.
    + lia.
Qed.

Lemma decode_cmyk_bytes (c_lut m_lut y_lut k_lut src : list Z) (n : nat) :
  is_lut c_lut -> is_lut m_lut -> is_lut y_lut -> is_lut k_lut ->
  Forall is_byte src -> (4 * n <= List.length src)%nat ->
  Forall is_byte (decode_cmyk c_lut m_lut y_lut k_lut src n) /\
  List.length (decode_cmyk c_lut m_lut y_lut k_lut src n) = (4 * n)%nat.
Proof.
  intros Hcl Hml Hyl Hkl. revert src.
  induction n as [|n IH]; intros src Hbytes Hlen.
  - by destruct src.
  - destruct src as [|c [|m [|y [|k rest]]]]; simpl in Hlen; try lia.
    apply Forall_cons in Hbytes as [Hc Hbytes].
    apply Forall_cons in Hbytes as [Hm Hbytes].
    apply Forall_cons in Hbytes as [Hy Hbytes].
    apply Forall_cons in Hbytes as [Hk Hbytes].
    destruct (IH rest Hbytes) as [IH1 IH2]; [lia|].
    cbn [decode_cmyk]. split.
    + repeat (constructor; [by apply lut_rd|]). done.
    + simpl. lia.
Qed.

Lemma plrm8_pixels_idem (src : list Z) (n : nat) :
  (4 * n <= List.length src)%nat ->
  plrm8_pixels (take (4 * n) src) n = plrm8_pixels src n.
Proof.
  revert src. induction n as [|n IH]; intros src Hlen.
  - by destruct src.
  - destruct src as [|c [|m [|y [|k rest]]]]; simpl in Hlen; try lia.
    replace (4 * S n)%nat with (S (S (S (S (4 * n))))) by lia.
    cbn [take plrm8_pixels]. rewrite IH by lia. done.
Qed.

(** X7: [cmyk8_decode_to_bgrx] with a 256-byte table per component gives
    what [cmyk8_to_bgrx] gives on the decoded components: the undercolor
    formula [255 - min(255, x + k)] applied to the table values. *)
Theorem cmyk8_decode_is_lut_then_convert (src : list Z) (num_pixels : Z)
    (c_lut m_lut y_lut k_lut : list Z) :
  is_lut c_lut -> is_lut m_lut -> is_lut y_lut -> is_lut k_lut ->
  0 <= num_pixels ->
  4 * num_pixels < 2 ^ 31 ->
  Forall is_byte src ->
  4 * num_pixels <= Z.of_nat (List.length src) ->
  cmyk8_decode_to_bgrx src num_pixels c_lut m_lut y_lut k_lut
    = cmyk8_to_bgrx (decode_cmyk c_lut m_lut y_lut k_lut src (Z.to_nat num_pixels))
        num_pixels /\
  cmyk8_decode_to_bgrx src num_pixels c_lut m_lut y_lut k_lut
    = Some (plrm8_pixels (decode_cmyk c_lut m_lut y_lut k_lut src (Z.to_nat num_pixels))
              (Z.to_nat num_pixels)).
Proof.
  intros Hcl Hml Hyl Hkl Hn Hbound Hbytes Hlen.
  destruct (decode_cmyk_bytes c_lut m_lut y_lut k_lut src (Z.to_nat num_pixels))
    as [Hdb Hdl]; try done; [lia|].
  rewrite cmyk8_exact; try done; [|lia].
  assert (cmyk8_decode_to_bgrx src num_pixels c_lut m_lut y_lut k_lut
          = Some (plrm8_pixels
                    (decode_cmyk c_lut m_lut y_lut k_lut src (Z.to_nat num_pixels))
                    (Z.to_nat num_pixels))) as ->; [|done].
  unfold cmyk8_decode_to_bgrx.
  rewrite bytearray_zeros by done. cbn [mbind option_bind].
  apply (cmyk8_decode_loop_spec c_lut m_lut y_lut k_lut (Z.to_nat num_pixels)
           Hcl Hml Hyl Hkl 0%nat [] src []); try done; lia.
Qed.

Lemma cmyk8_decode_is_lut_then_convert_witness :
  cmyk8_decode_to_bgrx [51; 51; 51; 51] 1
      identity_lut identity_lut identity_lut identity_lut
    = cmyk8_to_bgrx (decode_cmyk identity_lut identity_lut identity_lut identity_lut
                       [51; 51; 51; 51] (Z.to_nat 1)) 1 /\
  cmyk8_decode_to_bgrx [51; 51; 51; 51] 1
      identity_lut identity_lut identity_lut identity_lut
    = Some (plrm8_pixels
              (decode_cmyk identity_lut identity_lut identity_lut identity_lut
                 [51; 51; 51; 51] (Z.to_nat 1)) (Z.to_nat 1)).
Proof.
  apply (cmyk8_decode_is_lut_then_convert [51; 51; 51; 51] 1
           identity_lut identity_lut identity_lut identity_lut).
  - exact identity_lut_is_lut.
  - exact identity_lut_is_lut.
  - exact identity_lut_is_lut.
  - exact identity_lut_is_lut.
  - lia.
  - lia.
  - repeat constructor; unfold is_byte; lia.
  - simpl. lia.
Defined.

(** ** Identity tables *)

Lemma identity_fmap (src : list Z) :
  Forall is_byte src -> lut_at identity_lut <$> src = src.
Proof.
  induction 1 as [|s src Hs _ IH]; [done|].
  cbn [fmap list_fmap]. rewrite identity_lut_at by done. f_equal. exact IH.
Qed.

Lemma decode_rgb_identity (src : list Z) (n : nat) :
  Forall is_byte src ->
  bgrx_pixels (decode_rgb identity_lut identity_lut identity_lut src n) n
    = bgrx_pixels src n.
Proof.
  revert src. induction n as [|n IH]; intros src Hbytes.
  - by destruct src.
  - destruct src as [|r [|g [|b rest]]]; try done.
    apply Forall_cons in Hbytes as [Hr Hbytes].
    apply Forall_cons in Hbytes as [Hg Hbytes].
    apply Forall_cons in Hbytes as [Hb Hbytes].
    cbn [decode_rgb bgrx_pixels]. rewrite !identity_lut_at by done.
    by rewrite IH.
Qed.

Lemma decode_cmyk_identity (src : list Z) (n : nat) :
  Forall is_byte src ->
  plrm8_pixels (decode_cmyk identity_lut identity_lut identity_lut identity_lut src n) n
    = plrm8_pixels src n.
Proof.
  revert src. induction n as [|n IH]; intros src Hbytes.
  - by destruct src.
  - destruct src as [|c [|m [|y [|k rest]]]]; try done.
    apply Forall_cons in Hbytes as [Hc Hbytes].
    apply Forall_cons in Hbytes as [Hm Hbytes].
    apply Forall_cons in Hbytes as [Hy Hbytes].
    apply Forall_cons in Hbytes as [Hk Hbytes].
    cbn [decode_cmyk plrm8_pixels]. rewrite !identity_lut_at by done.
    by rewrite IH.
Qed.



(** * Runs of the dispatch loop *)

Lemma exec_steps_app (a b : nat) (m : Machine) :
  exec_steps (a + b) m = m1 ← exec_steps a m; exec_steps b m1.
Proof.
  revert m. induction a as [|a IH]; intros m; [done|].
  cbn [Nat.add exec_steps].
  destruct (e_stack m); [done|].
  destruct (exec_iter m); first [done | apply IH].
Qed.

Lemma exec_steps_loop (k fuel : nat) (m m' : Machine) :
  exec_steps k m = Some m' -> exec_loop (k + fuel) m = exec_loop fuel m'.
Proof.
  revert m. induction k as [|k IH]; intros m H.
  - by injection H as ->.
  - cbn [Nat.add exec_steps exec_loop] in *.
    destruct (e_stack m); [done|].
    destruct (exec_iter m); first [done | by apply IH].
Qed.

Lemma exec_steps_one (m m1 : Machine) (rest : list ref) (top : ref) :
  e_stack m = rest ++ [top] ->
  exec_iter m = Continue m1 ->
  forall k, exec_steps (S k) m = exec_steps k m1.
Proof.
  intros He Hit k. cbn [exec_steps]. rewrite He, Hit.
  by destruct rest.
Qed.

Lemma kept_except_refl (top : ref) (m : Machine) : kept_except top m m.
Proof. by intros r o _ H. Qed.

Lemma kept_except_trans (top : ref) (m1 m2 m3 : Machine) :
  kept_except top m1 m2 -> kept_except top m2 m3 -> kept_except top m1 m3.
Proof. intros H12 H23 r o Hne Hr. by apply H23, H12. Qed.

Lemma same_stacks_kept (top : ref) (m m1 : Machine) :
  same_stacks m m1 -> kept_except top m m1.
Proof. intros Hs r o _ Hr. by eapply same_stacks_lookup. Qed.

(** ** Path L, repeated *)

Lemma step_literal (m : Machine) (rest : list ref) (top : ref) (t : ps.PSObject) :
  e_stack m = rest ++ [top] ->
  heap m !! top = Some t ->
  is_literal t = true ->
  exists m', exec_iter m = Continue m' /\
    e_stack m' = rest /\ o_stack m' = o_stack m ++ [top] /\
    heap m `prefix_of` heap m'.
Proof.
  intros He Ht Hlit.
  destruct (exec_iter_dispatch m rest top t He Ht)
    as (m1 & -> & (Ho & He1 & _ & _ & _ & Hp) & _).
  unfold dispatch. unfold is_literal in Hlit. rewrite Hlit.
  eexists. split; [reflexivity|]. simpl.
  rewrite He1, He, py_pop_snoc, Ho. done.
Qed.

Lemma run_of_literals (lits : list ref) :
  forall (m : Machine) (rest : list ref),
    e_stack m = rest ++ reverse lits ->
    Forall (fun r => exists o, heap m !! r = Some o /\ is_literal o = true) lits ->
    exists m', exec_steps (List.length lits) m = Some m' /\
      e_stack m' = rest /\ o_stack m' = o_stack m ++ lits /\
      heap m `prefix_of` heap m'.
Proof.
  induction lits as [|r lits IH]; intros m rest He Hall.
  - exists m. rewrite app_nil_r in *. done.
  - apply Forall_cons in Hall as [(o & Hr & Hlit) Hall].
    rewrite reverse_cons, app_assoc in He.
    destruct (step_literal m _ r o He Hr Hlit) as (m1 & Hit & He1 & Ho1 & Hp1).
    destruct (IH m1 rest He1) as (m' & Hsteps & He' & Ho' & Hp').
    { eapply Forall_impl; [exact Hall|].
      intros x (ox & Hx & Hl). exists ox. split; [|done].
      eapply prefix_lookup_Some; eauto. }
    exists m'. cbn [List.length].
    rewrite (exec_steps_one m m1 _ r He Hit).
    split; [done|]. split; [done|]. split.
    + rewrite Ho', Ho1, <- app_assoc. done.
    + by etrans.
Qed.

(** X9: literal objects on the execution stack, however many, are moved to
    the operand stack one per iteration, the top of the execution stack
    first: they end up on the operand stack in the reverse of the order they
    had on the execution stack, by reference, and what was below them on
    the execution stack is all that is left of it. *)
Theorem literals_move_in_order (m : Machine) (rest lits : list ref) :
  e_stack m = rest ++ reverse lits ->
  Forall (fun r => exists o, heap m !! r = Some o /\ is_literal o = true) lits ->
  exists m', exec_steps (List.length lits) m = Some m' /\
    e_stack m' = rest /\ o_stack m' = o_stack m ++ lits /\
    heap m `prefix_of` heap m' /\
    (rest = [] -> forall fuel, exec_loop (List.length lits + S fuel) m = Finished m').
Proof.
  intros He Hall.
  destruct (run_of_literals lits m rest He Hall) as (m' & Hsteps & He' & Ho' & Hp').
  exists m'. repeat split; try done.
  intros -> fuel. rewrite (exec_steps_loop _ _ _ _ Hsteps).
  cbn [exec_loop]. by rewrite He'.
Qed.

Lemma literals_move_in_order_witness :
  exists m', exec_steps (List.length [1%nat; 0%nat])
               (machine [ps.Int 1; ps.Int 2] [] [0%nat; 1%nat] [] false) = Some m' /\
    e_stack m' = [] /\ o_stack m' = [] ++ [1%nat; 0%nat] /\
    [ps.Int 1; ps.Int 2] `prefix_of` heap m' /\
    (@nil ref = [] -> forall fuel,
        exec_loop (List.length [1%nat; 0%nat] + S fuel)
          (machine [ps.Int 1; ps.Int 2] [] [0%nat; 1%nat] [] false) = Finished m').
Proof.
  apply (literals_move_in_order
           (machine [ps.Int 1; ps.Int 2] [] [0%nat; 1%nat] [] false)
           [] [1%nat; 0%nat]).
  - reflexivity.
  - repeat constructor; eexists; (split; [reflexivity|reflexivity]).
Defined.

(** ** HardReturn *)

(** X10: a HardReturn marker on top of the execution stack ends the run at
    once: the marker is popped and [exec_exec] returns with everything
    below it still on the execution stack, the operand stack as it was. *)
Theorem hard_return_ends_run (m : Machine) (rest : list ref) (top : ref)
    (t : ps.PSObject) (fuel : nat) :
  e_stack m = rest ++ [top] ->
  heap m !! top = Some t ->
  ps.TYPE t = C_T_HARD_RETURN ->
  ps.attrib t <> C_ATTRIB_LIT ->
  exists m', exec_exec (S fuel) m = Finished m' /\
    e_stack m' = rest /\ o_stack m' = o_stack m /\
    heap m `prefix_of` heap m'.
Proof.
  intros He Ht Hty Ha.
  unfold exec_exec. cbn [exec_loop].
  assert (e_stack (exec_exec_enter m) = rest ++ [top]) as He0 by done.
  destruct (exec_iter_dispatch (exec_exec_enter m) rest top t He0 Ht)
    as (m1 & Hit & (Ho & He1 & _ & _ & _ & Hp) & _).
  rewrite He0, Hit. unfold dispatch. rewrite Hty.
  destruct (Z.eqb_spec (ps.attrib t) C_ATTRIB_LIT) as [|_]; [done|].
  cbn. destruct rest; (eexists; split; [reflexivity|]); simpl;
    rewrite He1, He0, py_pop_snoc, Ho; done.
Qed.

Lemma hard_return_ends_run_witness :
  exists m', exec_exec (S 5) m_hard_return = Finished m' /\
    e_stack m' = [0%nat; 1%nat] /\ o_stack m' = o_stack m_hard_return /\
    heap m_hard_return `prefix_of` heap m'.
Proof.
  apply (hard_return_ends_run m_hard_return [0%nat; 1%nat] 2%nat
           (obj C_T_HARD_RETURN C_ATTRIB_EXEC PyNone 0 0) 5).
  - reflexivity.
  - reflexivity.
  - reflexivity.
  - discriminate.
Defined.

(** ** An executable object of a type without a branch *)

Lemma step_no_branch (m : Machine) (rest : list ref) (top : ref) (t : ps.PSObject) :
  e_stack m = rest ++ [top] ->
  heap m !! top = Some t ->
  has_branch (ps.TYPE t) = false ->
  ps.attrib t <> C_ATTRIB_LIT ->
  exists m', exec_iter m = Continue m' /\ same_stacks m m'.
Proof.
  intros He Ht Hb Ha.
  destruct (exec_iter_dispatch m rest top t He Ht) as (m1 & -> & Hs & _).
  exists m1. split; [|done].
  unfold has_branch in Hb.
  apply orb_false_elim in Hb as [Hb Hhr].
  apply orb_false_elim in Hb as [Hb Hloop].
  apply orb_false_elim in Hb as [Hb Hstop].
  apply orb_false_elim in Hb as [Hb Harr].
  apply orb_false_elim in Hb as [Hb Htok].
  apply orb_false_elim in Hb as [Hb Hname].
  apply orb_false_elim in Hb as [Hlit Hop].
  unfold dispatch.
  destruct (Z.eqb_spec (ps.attrib t) C_ATTRIB_LIT) as [|_]; [done|].
  by rewrite Hlit, Hop, Hname, Htok, Harr, Hstop, Hloop, Hhr.
Qed.

(** X11: the chain of tests in the loop of [exec_exec] has no last [else]:
    an executable object whose type is none of those tested (a Dict or a
    Save made executable, say) is neither executed nor popped.  The loop
    goes round on it for ever, with both stacks as they were; no amount of
    iterations finishes the run. *)
Theorem object_without_branch_is_never_consumed (m : Machine) (rest : list ref)
    (top : ref) (t : ps.PSObject) (fuel : nat) :
  e_stack m = rest ++ [top] ->
  heap m !! top = Some t ->
  has_branch (ps.TYPE t) = false ->
  ps.attrib t <> C_ATTRIB_LIT ->
  exists m', exec_loop fuel m = OutOfFuel m' /\
    e_stack m' = e_stack m /\ o_stack m' = o_stack m.
Proof.
  intros He Ht Hb Ha. revert m He Ht.
  induction fuel as [|fuel IH]; intros m He Ht.
  - by exists m.
  - destruct (step_no_branch m rest top t He Ht Hb Ha) as (m1 & Hit & Hs).
    pose proof Hs as (Ho & He1 & _).
    destruct (IH m1) as (m' & Hrun & He' & Ho').
    + by rewrite He1.
    + by eapply same_stacks_lookup.
    + exists m'. cbn [exec_loop]. rewrite He, Hit.
      split; [by destruct rest|]. split; congruence.
Qed.

Lemma object_without_branch_is_never_consumed_witness :
  exists m', exec_loop 50 m_exec_dict = OutOfFuel m' /\
    e_stack m' = e_stack m_exec_dict /\ o_stack m' = o_stack m_exec_dict.
Proof.
  apply (object_without_branch_is_never_consumed m_exec_dict [] 0%nat
           (obj C_T_DICT C_ATTRIB_EXEC (PyDict ∅) 0 0) 50).
  - reflexivity.
  - reflexivity.
  - reflexivity.
  - discriminate.
Defined.

(** ** Procedures of literal scalars *)

Lemma step_empty_array (m : Machine) (rest : list ref) (top : ref) (t : ps.PSObject) :
  e_stack m = rest ++ [top] ->
  heap m !! top = Some t ->
  is_procedure t ->
  ps.length t = 0 ->
  exists m', exec_iter m = Continue m' /\
    e_stack m' = rest /\ o_stack m' = o_stack m /\ heap m `prefix_of` heap m'.
Proof.
  intros He Ht [Hty Ha] Hlen.
  destruct (exec_iter_dispatch m rest top t He Ht)
    as (m1 & -> & (Ho & He1 & _ & _ & _ & Hp) & _).
  rewrite dispatch_array by done.
  unfold exec_array. rewrite Hlen. simpl.
  eexists. split; [reflexivity|]. simpl.
  by rewrite He1, He, py_pop_snoc.
Qed.

Lemma py_index_middle (pre post : list ref) (x : ref) :
  py_index (pre ++ x :: post) (Z.of_nat (List.length pre)) = Some x.
Proof.
  unfold py_index.
  destruct (Z.leb_spec 0 (Z.of_nat (List.length pre))) as [_|]; [|lia].
  rewrite Nat2Z.id. by apply list_lookup_middle.
Qed.

Lemma step_array_scalar (m : Machine) (rest : list ref) (top obj : ref)
    (t o : ps.PSObject) (l : list ref) :
  e_stack m = rest ++ [top] ->
  heap m !! top = Some t ->
  is_procedure t ->
  ps.length t <> 0 ->
  ps.val t = PyList l ->
  py_index l (ps.start t) = Some obj ->
  heap m !! obj = Some o ->
  by_reference o = true ->
  exists m', exec_iter m = Continue m' /\
    e_stack m' = rest ++ [top] /\ o_stack m' = o_stack m ++ [obj] /\
    heap m' !! top = Some (advanced t) /\ kept_except top m m' /\
    (List.length (heap m) <= List.length (heap m'))%nat.
Proof.
  intros He Ht [Hty Ha] Hlen Hval Hidx Ho Hby.
  destruct (exec_iter_dispatch m rest top t He Ht)
    as (m1 & -> & Hs & _).
  pose proof Hs as (Ho1 & He1 & _).
  pose proof (same_stacks_lookup _ _ _ _ Hs Ht) as Ht1.
  pose proof (same_stacks_lookup _ _ _ _ Hs Ho) as Hobj1.
  rewrite dispatch_array by done.
  unfold exec_array.
  destruct (Z.eqb_spec (ps.length t) 0) as [|_]; [done|].
  rewrite Hval, Hidx, Hobj1.
  unfold by_reference in Hby. apply andb_prop in Hby as [Hlit Hsc].
  assert ((ps.attrib o =? C_ATTRIB_EXEC) = false) as Hne.
  { apply Z.eqb_eq in Hlit. rewrite Hlit. reflexivity. }
  rewrite Hne, andb_false_r, Hlit, Hsc.
  assert (heap (push_o obj m1) !! top = Some t) as Htp by done.
  destruct (advance_lookup (push_o obj m1) top t Htp) as (Hh & Hos & Hes).
  exists (advance top (push_o obj m1)).
  split; [by destruct (ps.length t =? 1)|].
  unfold kept_except.
  rewrite Hh, Hos, Hes. simpl. rewrite He1, Ho1.
  split; [done|]. split; [done|]. split; [|split].
  - apply list_lookup_insert_eq. by eapply lookup_lt_Some.
  - intros r o' Hr Hl. rewrite list_lookup_insert_ne by done.
    by eapply same_stacks_lookup.
  - rewrite length_insert. apply prefix_length. apply Hs.
Qed.

Lemma by_reference_not_procedure (o : ps.PSObject) :
  by_reference o = true -> ~ is_procedure o.
Proof.
  unfold by_reference. intros H [_ Ha]. rewrite Ha in H. done.
Qed.

Lemma scalars_kept (top : ref) (t : ps.PSObject) (m m' : Machine) (elems : list ref) :
  heap m !! top = Some t -> is_procedure t ->
  kept_except top m m' -> scalars m elems -> scalars m' elems.
Proof.
  intros Ht Hproc Hk Hsc. eapply Forall_impl; [exact Hsc|].
  intros r (o & Hr & Hby). exists o. split; [|done].
  apply Hk; [|done]. intros ->.
  rewrite Ht in Hr. injection Hr as ->.
  by apply (by_reference_not_procedure o).
Qed.

Lemma advanced_elements (t : ps.PSObject) (e : ref) (elems : list ref) :
  elements t (e :: elems) -> elements (advanced t) elems.
Proof.
  intros (pre & post & Hval & Hst & Hlen).
  exists (pre ++ [e]), post. simpl.
  rewrite Hval, Hst, Hlen, length_app, <- app_assoc. simpl.
  split; [done|]. split; lia.
Qed.

(** A procedure whose elements are literal scalars pushes them in order
    and is popped when it is empty. *)
Lemma run_scalar_procedure (elems : list ref) :
  forall (m : Machine) (rest : list ref) (top : ref) (t : ps.PSObject),
    e_stack m = rest ++ [top] ->
    heap m !! top = Some t ->
    is_procedure t ->
    elements t elems ->
    scalars m elems ->
    exists m', exec_steps (S (List.length elems)) m = Some m' /\
      e_stack m' = rest /\ o_stack m' = o_stack m ++ elems /\
      kept_except top m m' /\ (List.length (heap m) <= List.length (heap m'))%nat.
Proof.
  induction elems as [|e elems IH]; intros m rest top t He Ht Hproc Hel Hsc.
  - destruct Hel as (pre & post & _ & _ & Hlen). simpl in Hlen.
    destruct (step_empty_array m rest top t He Ht Hproc Hlen)
      as (m' & Hit & He' & Ho' & Hp).
    exists m'. rewrite (exec_steps_one m m' rest top He Hit).
    split; [done|]. split; [done|]. split; [by rewrite app_nil_r|]. split.
    + intros r o _ Hr. by eapply prefix_lookup_Some.
    + by apply prefix_length.
  - pose proof Hel as (pre & post & Hval & Hst & Hlen).
    pose proof Hsc as Hsc0.
    apply Forall_cons in Hsc0 as [(o & Hobj & Hby) _].
    destruct (step_array_scalar m rest top e t o (pre ++ (e :: elems) ++ post))
      as (m1 & Hit & He1 & Ho1 & Ht1 & Hk1 & Hlen1); try done.
    { rewrite Hlen. simpl. lia. }
    { rewrite Hst. apply py_index_middle. }
    assert (is_procedure (advanced t)) as Hproc1 by done.
    pose proof (scalars_kept top t m m1 _ Ht Hproc Hk1 Hsc) as Hsc1.
    apply Forall_cons in Hsc1 as [_ Hsc1].
    destruct (IH m1 rest top (advanced t) He1 Ht1 Hproc1
                (advanced_elements t e elems Hel) Hsc1)
      as (m' & Hsteps & He' & Ho' & Hk' & Hlen').
    exists m'. rewrite (exec_steps_one m m1 rest top He Hit).
    split; [done|]. split; [done|]. split.
    + rewrite Ho', Ho1, <- app_assoc. done.
    + split; [by eapply kept_except_trans|]. lia.
Qed.

(** X12: a procedure whose elements are literal Ints, Reals, Bools, Nulls
    or Marks is run to its end in one iteration per element and one more:
    the elements are pushed onto the operand stack in order, by reference,
    then the empty procedure is popped; no other object of the store
    changes. *)
Theorem scalar_procedure_pushes_elements (m : Machine) (rest elems : list ref)
    (top : ref) (t : ps.PSObject) :
  e_stack m = rest ++ [top] ->
  heap m !! top = Some t ->
  is_procedure t ->
  elements t elems ->
  scalars m elems ->
  exists m', exec_steps (S (List.length elems)) m = Some m' /\
    e_stack m' = rest /\ o_stack m' = o_stack m ++ elems /\
    kept_except top m m'.
Proof.
  intros He Ht Hproc Hel Hsc.
  destruct (run_scalar_procedure elems m rest top t He Ht Hproc Hel Hsc)
    as (m' & H1 & H2 & H3 & H4 & _).
  by exists m'.
Qed.

Lemma scalar_procedure_pushes_elements_witness :
  exists m', exec_steps (S (List.length [0%nat; 1%nat]))
               (machine [ps.Int 7; ps.Int 8; the_repeat_body] [] [2%nat] [] false)
             = Some m' /\
    e_stack m' = [] /\ o_stack m' = [] ++ [0%nat; 1%nat] /\
    kept_except 2%nat
      (machine [ps.Int 7; ps.Int 8; the_repeat_body] [] [2%nat] [] false) m'.
Proof.
  apply (scalar_procedure_pushes_elements
           (machine [ps.Int 7; ps.Int 8; the_repeat_body] [] [2%nat] [] false)
           [] [0%nat; 1%nat] 2%nat the_repeat_body).
  - reflexivity.
  - reflexivity.
  - split; [by left|reflexivity].
  - exists [], []. done.
  - repeat constructor; eexists; (split; [reflexivity|reflexivity]).
Defined.

(** ** The repeat loop *)

Lemma scalars_kept_marker (top : ref) (t : ps.PSObject) (m m' : Machine)
    (elems : list ref) :
  heap m !! top = Some t -> ps.attrib t = C_ATTRIB_EXEC ->
  kept_except top m m' -> scalars m elems -> scalars m' elems.
Proof.
  intros Ht Ha Hk Hsc. eapply Forall_impl; [exact Hsc|].
  intros r (o & Hr & Hby). exists o. split; [|done].
  apply Hk; [|done]. intros ->.
  rewrite Ht in Hr. injection Hr as ->.
  unfold by_reference in Hby. by rewrite Ha in Hby.
Qed.

Lemma step_repeat (m : Machine) (rest : list ref) (top p : ref)
    (t body : ps.PSObject) (n : Z) :
  e_stack m = rest ++ [top] ->
  heap m !! top = Some t ->
  ps.TYPE t = C_T_LOOP ->
  ps.attrib t = C_ATTRIB_EXEC ->
  ps.val t = PyInt C_LT_REPEAT ->
  ps.limit t = NInt n ->
  ps.proc t = Some p ->
  heap m !! p = Some body ->
  p <> top ->
  exists m' c, exec_iter m = Continue m' /\
    o_stack m' = o_stack m /\
    e_stack m' = (if n - 1 =? 0 then rest else rest ++ [top]) ++ [c] /\
    heap m' !! c = Some body /\
    heap m' !! top = Some (ps.set_limit (NInt (n - 1)) t) /\
    kept_except top m m' /\
    (List.length (heap m) <= c)%nat.
Proof.
  intros He Ht Hty Ha Hval Hlim Hp Hbody Hne.
  destruct (exec_iter_dispatch m rest top t He Ht) as (m1 & -> & Hs & _).
  pose proof Hs as (Ho1 & He1 & _ & _ & _ & Hpre).
  pose proof (same_stacks_lookup _ _ _ _ Hs Ht) as Ht1.
  pose proof (same_stacks_lookup _ _ _ _ Hs Hbody) as Hbody1.
  pose proof (lookup_lt_Some _ _ _ Ht1) as Hlt.
  rewrite dispatch_loop by done.
  unfold _handle_loop. rewrite Hval.
  change (C_LT_REPEAT =? C_LT_LOOP) with false.
  change (C_LT_REPEAT =? C_LT_REPEAT) with true. cbv iota.
  unfold update_obj. rewrite Ht1. cbn [heap with_heap].
  rewrite list_lookup_insert_eq by done.
  cbn [ps.limit ps.set_limit]. rewrite Hlim.
  cbn [py_add py_is_zero].
  replace (n + -1) with (n - 1) by lia.
  exists (if n - 1 =? 0
          then set_top_e (List.length (heap m1))
                 (with_heap (<[top := ps.set_limit (NInt (n - 1)) t]> (heap m1) ++ [body])
                    (with_heap (<[top := ps.set_limit (NInt (n - 1)) t]> (heap m1)) m1))
          else push_e (List.length (heap m1))
                 (with_heap (<[top := ps.set_limit (NInt (n - 1)) t]> (heap m1) ++ [body])
                    (with_heap (<[top := ps.set_limit (NInt (n - 1)) t]> (heap m1)) m1))),
         (List.length (heap m1)).
  split.
  { destruct (n - 1 =? 0);
      unfold schedule_body; cbn [heap with_heap];
      rewrite list_lookup_insert_eq by done;
      cbn [ps.proc ps.set_limit]; rewrite Hp;
      unfold py_copy; cbn [heap with_heap];
      rewrite list_lookup_insert_ne by done;
      rewrite Hbody1; unfold alloc; cbn [heap with_heap];
      rewrite length_insert; reflexivity. }
  assert (forall (b : bool) (x y : Machine), o_stack x = o_stack y ->
            o_stack (if b then x else y) = o_stack y) as Hif
    by (by intros [] x y E).
  split; [by destruct (n - 1 =? 0)|].
  split.
  { destruct (n - 1 =? 0); simpl; rewrite He1, He.
    - by rewrite py_set_top_snoc.
    - unfold py_append. by rewrite <- app_assoc. }
  assert (heap (if n - 1 =? 0
          then set_top_e (List.length (heap m1))
                 (with_heap (<[top := ps.set_limit (NInt (n - 1)) t]> (heap m1) ++ [body])
                    (with_heap (<[top := ps.set_limit (NInt (n - 1)) t]> (heap m1)) m1))
          else push_e (List.length (heap m1))
                 (with_heap (<[top := ps.set_limit (NInt (n - 1)) t]> (heap m1) ++ [body])
                    (with_heap (<[top := ps.set_limit (NInt (n - 1)) t]> (heap m1)) m1)))
          = <[top := ps.set_limit (NInt (n - 1)) t]> (heap m1) ++ [body]) as Hh
    by (by destruct (n - 1 =? 0)).
  unfold kept_except. rewrite Hh.
  split; [|split; [|split]].
  - rewrite lookup_app_r by (by rewrite length_insert).
    by rewrite length_insert, Nat.sub_diag.
  - rewrite lookup_app_l by (by rewrite length_insert).
    by apply list_lookup_insert_eq.
  - intros r o Hr Hl.
    pose proof (same_stacks_lookup _ _ _ _ Hs Hl) as Hl1.
    rewrite lookup_app_l
      by (rewrite length_insert; by eapply lookup_lt_Some).
    by rewrite list_lookup_insert_ne.
  - by apply prefix_length.
Qed.

Lemma kept_below (c top : ref) (m m' : Machine) :
  kept_except c m m' ->
  forall r o, (r < c)%nat -> heap m !! r = Some o -> heap m' !! r = Some o.
Proof. intros Hk r o Hlt. apply Hk. lia. Qed.

(** One round of [repeat]: the marker schedules a copy of the body, which
    runs to its end. *)
Lemma repeat_round (m : Machine) (rest elems : list ref) (top p : ref)
    (t body : ps.PSObject) (n : Z) :
  e_stack m = rest ++ [top] ->
  heap m !! top = Some t ->
  ps.TYPE t = C_T_LOOP ->
  ps.attrib t = C_ATTRIB_EXEC ->
  ps.val t = PyInt C_LT_REPEAT ->
  ps.limit t = NInt n ->
  ps.proc t = Some p ->
  heap m !! p = Some body ->
  is_procedure body ->
  elements body elems ->
  scalars m elems ->
  exists m', exec_steps (2 + List.length elems) m = Some m' /\
    e_stack m' = (if n - 1 =? 0 then rest else rest ++ [top]) /\
    o_stack m' = o_stack m ++ elems /\
    heap m' !! top = Some (ps.set_limit (NInt (n - 1)) t) /\
    kept_except top m m'.
Proof.
  intros He Ht Hty Ha Hval Hlim Hp Hbody Hproc Hel Hsc.
  assert (p <> top) as Hne.
  { intros ->. rewrite Ht in Hbody. injection Hbody as ->.
    destruct Hproc as [[H|H] _]; rewrite Hty in H; discriminate. }
  destruct (step_repeat m rest top p t body n) as
    (m1 & c & Hit & Ho1 & He1 & Hc1 & Ht1 & Hk1 & Hge); try done.
  pose proof (scalars_kept_marker top t m m1 elems Ht Ha Hk1 Hsc) as Hsc1.
  destruct (run_scalar_procedure elems m1 _ c body He1 Hc1 Hproc Hel Hsc1)
    as (m' & Hsteps & He' & Ho' & Hk' & _).
  assert (top < c)%nat as Hlt by (apply lookup_lt_Some in Ht; lia).
  exists m'. cbn [Nat.add].
  rewrite (exec_steps_one m m1 rest top He Hit).
  split; [done|]. split; [done|]. split; [by rewrite Ho', Ho1|].
  split.
  - apply Hk'; [lia|done].
  - intros r o Hr Hl. apply Hk'; [|by apply Hk1].
    apply lookup_lt_Some in Hl. lia.
Qed.

(** X13: a [repeat] marker whose count is [n >= 1], with a body of literal
    scalars, runs the body exactly [n] times: the operand stack gains the
    elements of the body [n] times over, the marker is gone from the
    execution stack when the last copy of the body has run (the last copy
    replaces the marker rather than being pushed above it), and the count
    left in the marker is 0. *)
Theorem repeat_runs_body_n_times (m : Machine) (rest elems : list ref)
    (top p : ref) (t body : ps.PSObject) (n : nat) :
  e_stack m = rest ++ [top] ->
  heap m !! top = Some t ->
  ps.TYPE t = C_T_LOOP ->
  ps.attrib t = C_ATTRIB_EXEC ->
  ps.val t = PyInt C_LT_REPEAT ->
  ps.limit t = NInt (Z.of_nat n) ->
  n <> 0%nat ->
  ps.proc t = Some p ->
  heap m !! p = Some body ->
  is_procedure body ->
  elements body elems ->
  scalars m elems ->
  exists m', exec_steps (n * (2 + List.length elems)) m = Some m' /\
    e_stack m' = rest /\
    o_stack m' = o_stack m ++ concat (replicate n elems) /\
    heap m' !! top = Some (ps.set_limit (NInt 0) t) /\
    kept_except top m m'.
Proof.
  intros He Ht Hty Ha Hval Hlim Hn Hp Hbody Hproc Hel Hsc.
  destruct n as [|n]; [done|]. clear Hn.
  assert (forall (m0 : Machine) (t0 : ps.PSObject),
            heap m0 !! top = Some t0 -> ps.TYPE t0 = C_T_LOOP ->
            heap m0 !! p = Some body -> p <> top) as Hne.
  { intros m0 t0 Ht0 Hty0 Hbody0 ->. rewrite Ht0 in Hbody0.
    injection Hbody0 as ->.
    destruct Hproc as [[H|H] _]; rewrite Hty0 in H; discriminate. }
  revert m t He Ht Hty Ha Hval Hlim Hp Hbody Hsc.
  induction n as [|n IH]; intros m t He Ht Hty Ha Hval Hlim Hp Hbody Hsc.
  - destruct (repeat_round m rest elems top p t body 1) as
      (m' & Hsteps & He' & Ho' & Ht' & Hk'); try done.
    exists m'. rewrite Nat.mul_1_l.
    split; [done|]. split; [done|].
    split; [by rewrite Ho'; simpl; rewrite app_nil_r|]. done.
  - destruct (repeat_round m rest elems top p t body (Z.of_nat (S (S n)))) as
      (m1 & Hsteps & He1 & Ho1 & Ht1 & Hk1); try done.
    replace (Z.of_nat (S (S n)) - 1) with (Z.of_nat (S n)) in * by lia.
    destruct (Z.eqb_spec (Z.of_nat (S n)) 0) as [|_]; [lia|].
    destruct (IH m1 (ps.set_limit (NInt (Z.of_nat (S n))) t)) as
      (m' & Hsteps' & He' & Ho' & Ht' & Hk'); try done.
    { apply Hk1; [exact (Hne m t Ht Hty Hbody)|done]. }
    { exact (scalars_kept_marker top t m m1 elems Ht Ha Hk1 Hsc). }
    exists m'.
    replace (S (S n) * (2 + List.length elems))%nat
      with ((2 + List.length elems) + S n * (2 + List.length elems))%nat by lia.
    rewrite exec_steps_app, Hsteps. cbn [mbind option_bind].
    split; [done|]. split; [done|]. split.
    + rewrite Ho', Ho1, <- app_assoc. done.
    + split; [done|]. by eapply kept_except_trans.
Qed.

Lemma repeat_runs_body_n_times_witness :
  exists m', exec_steps (3 * (2 + List.length [0%nat; 1%nat])) m_repeat = Some m' /\
    e_stack m' = [] /\
    o_stack m' = o_stack m_repeat ++ concat (replicate 3 [0%nat; 1%nat]) /\
    heap m' !! 3%nat = Some (ps.set_limit (NInt 0) the_repeat_marker) /\
    kept_except 3%nat m_repeat m'.
Proof.
  apply (repeat_runs_body_n_times m_repeat [] [0%nat; 1%nat] 3%nat 2%nat
           the_repeat_marker the_repeat_body 3).
  - reflexivity.
  - reflexivity.
  - reflexivity.
  - reflexivity.
  - reflexivity.
  - reflexivity.
  - discriminate.
  - reflexivity.
  - reflexivity.
  - split; [by left|reflexivity].
  - exists [], []. done.
  - repeat constructor; eexists; (split; [reflexivity|reflexivity]).
Defined.

Lemma exec_steps_out_of_fuel (k : nat) :
  forall (m m' : Machine) (fuel : nat),
    exec_steps k m = Some m' -> (fuel <= k)%nat ->
    exists m1, exec_loop fuel m = OutOfFuel m1.
Proof.
  induction k as [|k IH]; intros m m' fuel Hsteps Hle.
  - replace fuel with 0%nat by lia. by exists m.
  - destruct fuel as [|fuel]; [by exists m|].
    cbn [exec_steps exec_loop] in *.
    destruct (e_stack m); [done|].
    destruct (exec_iter m) as [m1| | |]; try done.
    apply (IH m1 m' fuel Hsteps). lia.
Qed.

(** X14: the count of a [repeat] marker is only tested against 0 after it
    has been decremented, so a marker whose count is 0 or less when it is
    first dispatched never gets there: the loop schedules the body again
    and again, and no amount of iterations finishes the run. *)
Theorem repeat_without_count_never_ends (m : Machine) (rest elems : list ref)
    (top p : ref) (t body : ps.PSObject) (n : Z) (fuel : nat) :
  e_stack m = rest ++ [top] ->
  heap m !! top = Some t ->
  ps.TYPE t = C_T_LOOP ->
  ps.attrib t = C_ATTRIB_EXEC ->
  ps.val t = PyInt C_LT_REPEAT ->
  ps.limit t = NInt n ->
  n <= 0 ->
  ps.proc t = Some p ->
  heap m !! p = Some body ->
  is_procedure body ->
  elements body elems ->
  scalars m elems ->
  exists m', exec_loop fuel m = OutOfFuel m'.
Proof.
  intros He Ht Hty Ha Hval Hlim Hn Hp Hbody Hproc Hel Hsc.
  revert m t n He Ht Hty Ha Hval Hlim Hn Hp Hbody Hsc.
  induction (lt_wf fuel) as [fuel _ IH].
  intros m t n He Ht Hty Ha Hval Hlim Hn Hp Hbody Hsc.
  destruct (repeat_round m rest elems top p t body n) as
    (m1 & Hsteps & He1 & Ho1 & Ht1 & Hk1); try done.
  destruct (Z.eqb_spec (n - 1) 0) as [|_]; [lia|].
  destruct (decide (fuel <= 2 + List.length elems)%nat) as [Hle|Hgt].
  - by apply (exec_steps_out_of_fuel _ m m1 fuel Hsteps).
  - replace fuel with ((2 + List.length elems) + (fuel - (2 + List.length elems)))%nat
      by lia.
    rewrite (exec_steps_loop _ _ _ _ Hsteps).
    apply (IH (fuel - (2 + List.length elems))%nat) with
      (t := ps.set_limit (NInt (n - 1)) t) (n := n - 1); try done.
    + lia.
    + lia.
    + apply Hk1; [|done]. intros ->.
      rewrite Ht in Hbody. injection Hbody as ->.
      destruct Hproc as [[H|H] _]; rewrite Hty in H; discriminate.
    + exact (scalars_kept_marker top t m m1 elems Ht Ha Hk1 Hsc).
Qed.

Lemma repeat_without_count_never_ends_witness :
  exists m',
    exec_loop 40
      (machine [obj C_T_ARRAY C_ATTRIB_EXEC (PyList []) 0 0;
                ps.mk C_T_LOOP C_ATTRIB_EXEC ACCESS_UNLIMITED (PyInt C_LT_REPEAT) 0 0
                  (Some 0%nat) (NInt 0) (NInt 0) (NInt 0)]
         [] [1%nat] [] false) = OutOfFuel m'.
Proof.
  apply (repeat_without_count_never_ends
           (machine [obj C_T_ARRAY C_ATTRIB_EXEC (PyList []) 0 0;
                     ps.mk C_T_LOOP C_ATTRIB_EXEC ACCESS_UNLIMITED (PyInt C_LT_REPEAT) 0 0
                       (Some 0%nat) (NInt 0) (NInt 0) (NInt 0)]
              [] [1%nat] [] false)
           [] [] 1%nat 0%nat
           (ps.mk C_T_LOOP C_ATTRIB_EXEC ACCESS_UNLIMITED (PyInt C_LT_REPEAT) 0 0
              (Some 0%nat) (NInt 0) (NInt 0) (NInt 0))
           (obj C_T_ARRAY C_ATTRIB_EXEC (PyList []) 0 0) 0 40).
  - reflexivity.
  - reflexivity.
  - reflexivity.
  - reflexivity.
  - reflexivity.
  - reflexivity.
  - lia.
  - reflexivity.
  - reflexivity.
  - split; [by left|reflexivity].
  - exists [], []. done.
  - constructor.
Defined.

(** ** The for loop on integers *)

Lemma py_le_int (a b : Z) : py_le (NInt a) (NInt b) = (a <=? b).
Proof.
  unfold py_le, py_cmp, Z.leb. by destruct (a ?= b).
Qed.

Lemma py_ge_int (a b : Z) : py_ge (NInt a) (NInt b) = (b <=? a).
Proof.
  unfold py_ge, py_cmp. rewrite Z.leb_compare, (Z.compare_antisym a b).
  by destruct (a ?= b).
Qed.

Lemma handle_loop_for_int (top : ref) (t : ps.PSObject) (m : Machine) (c i l : Z) :
  ps.val t = PyInt C_LT_FOR ->
  ps.control t = NInt c ->
  ps.increment t = NInt i ->
  ps.limit t = NInt l ->
  _handle_loop top t m =
    if for_in_range i l c then for_iterate top t m else Continue (pop_e m).
Proof.
  intros Hval Hc Hi Hl. rewrite handle_loop_for by done.
  rewrite Hc, Hi, Hl, py_ge_int, py_le_int, py_ge_int.
  unfold for_in_range. by destruct (0 <=? i).
Qed.

(** One round of [for] with an empty body: the control value is pushed,
    the body scheduled and popped. *)
Lemma for_round (m : Machine) (rest : list ref) (top p : ref)
    (t body : ps.PSObject) (c i l : Z) :
  e_stack m = rest ++ [top] ->
  heap m !! top = Some t ->
  ps.TYPE t = C_T_LOOP ->
  ps.attrib t = C_ATTRIB_EXEC ->
  ps.val t = PyInt C_LT_FOR ->
  ps.control t = NInt c ->
  ps.increment t = NInt i ->
  ps.limit t = NInt l ->
  ps.proc t = Some p ->
  heap m !! p = Some body ->
  is_procedure body ->
  ps.length body = 0 ->
  for_in_range i l c = true ->
  exists m' r, exec_steps 2 m = Some m' /\
    e_stack m' = rest ++ [top] /\
    o_stack m' = o_stack m ++ [r] /\
    heap m' !! r = Some (ps.Int c) /\ r <> top /\
    heap m' !! top = Some (ps.set_control (NInt (c + i)) t) /\
    kept_except top m m'.
Proof.
  intros He Ht Hty Ha Hval Hc Hi Hl Hp Hbody Hproc Hlen Hgo.
  assert (p <> top) as Hne.
  { intros ->. rewrite Ht in Hbody. injection Hbody as ->.
    destruct Hproc as [[H|H] _]; rewrite Hty in H; discriminate. }
  destruct (exec_iter_dispatch m rest top t He Ht) as (m1 & Hit & Hs & _).
  pose proof Hs as (Ho1 & He1 & _ & _ & _ & Hpre).
  pose proof (same_stacks_lookup _ _ _ _ Hs Ht) as Ht1.
  pose proof (same_stacks_lookup _ _ _ _ Hs Hbody) as Hbody1.
  rewrite dispatch_loop in Hit by done.
  rewrite (handle_loop_for_int top t m1 c i l) in Hit by done.
  rewrite Hgo in Hit.
  rewrite He in He1.
  destruct (for_iterate_spec m1 rest top p t body He1 Ht1 Hp Hbody1 Hne)
    as (m2 & Hfor & Ho2 & He2 & Hh2).
  rewrite Hfor in Hit.
  pose proof (lookup_lt_Some _ _ _ Ht1) as Hlt.
  assert (heap m2 !! S (List.length (heap m1)) = Some body) as Hb2.
  { rewrite Hh2. rewrite lookup_app_r
      by (rewrite length_insert, length_app; simpl; lia).
    rewrite length_insert, length_app. simpl.
    by replace (S (List.length (heap m1)) - (List.length (heap m1) + 1))%nat
         with 0%nat by lia. }
  assert (e_stack m2 = (rest ++ [top]) ++ [S (List.length (heap m1))]) as He2'
    by (by rewrite He2, <- app_assoc).
  destruct (step_empty_array m2 (rest ++ [top]) _ body He2' Hb2 Hproc Hlen)
    as (m3 & Hit3 & He3 & Ho3 & Hpre3).
  exists m3, (List.length (heap m1)).
  rewrite (exec_steps_one m m2 rest top He Hit).
  rewrite (exec_steps_one m2 m3 _ _ He2' Hit3).
  split; [done|]. split; [done|].
  split; [by rewrite Ho3, Ho2, Ho1|].
  assert (forall r o, heap m2 !! r = Some o -> heap m3 !! r = Some o) as H23.
  { intros r o Hr. by eapply prefix_lookup_Some. }
  split; [|split; [lia|split]].
  - apply H23. rewrite Hh2.
    rewrite lookup_app_l by (rewrite length_insert, length_app; simpl; lia).
    rewrite list_lookup_insert_ne by lia.
    rewrite lookup_app_r by lia. rewrite Nat.sub_diag.
    unfold for_control_object. by rewrite Hc.
  - apply H23. rewrite Hh2.
    rewrite lookup_app_l by (rewrite length_insert, length_app; simpl; lia).
    rewrite list_lookup_insert_eq by (rewrite length_app; simpl; lia).
    by rewrite Hc, Hi.
  - intros r o Hr Hlk. apply H23. rewrite Hh2.
    pose proof (same_stacks_lookup _ _ _ _ Hs Hlk) as Hlk1.
    pose proof (lookup_lt_Some _ _ _ Hlk1) as Hlt1.
    rewrite lookup_app_l by (rewrite length_insert, length_app; simpl; lia).
    rewrite list_lookup_insert_ne by done.
    by rewrite lookup_app_l by lia.
Qed.

(** X15: a [for] marker with an integer control value [c], increment [i]
    and limit [l], and an empty body, leaves on the operand stack new Int
    objects for [c], [c + i], [c + 2i], ... , one for each value that passes
    the test of the loop, in this order, and is then popped; each value
    costs two iterations (the marker, the empty body) and the failing test
    one more.  With [i] = 0 the test never changes: the loop then ends at
    once or not at all. *)
Theorem for_pushes_progression (m : Machine) (rest : list ref) (top p : ref)
    (t body : ps.PSObject) (c i l : Z) (n : nat) :
  e_stack m = rest ++ [top] ->
  heap m !! top = Some t ->
  ps.TYPE t = C_T_LOOP ->
  ps.attrib t = C_ATTRIB_EXEC ->
  ps.val t = PyInt C_LT_FOR ->
  ps.control t = NInt c ->
  ps.increment t = NInt i ->
  ps.limit t = NInt l ->
  ps.proc t = Some p ->
  heap m !! p = Some body ->
  is_procedure body ->
  ps.length body = 0 ->
  (forall k, (k < n)%nat -> for_in_range i l (c + Z.of_nat k * i) = true) ->
  for_in_range i l (c + Z.of_nat n * i) = false ->
  exists m' rs, exec_steps (2 * n + 1) m = Some m' /\
    e_stack m' = rest /\
    o_stack m' = o_stack m ++ rs /\
    Forall2 (fun r v => heap m' !! r = Some (ps.Int v)) rs (progression c i n) /\
    kept_except top m m'.
Proof.
  intros He Ht Hty Ha Hval Hc Hi Hl Hp Hbody Hproc Hlen Hin Hout.
  revert m t c He Ht Hty Ha Hval Hc Hi Hl Hp Hbody Hin Hout.
  induction n as [|n IH];
    intros m t c He Ht Hty Ha Hval Hc Hi Hl Hp Hbody Hin Hout.
  - replace (c + Z.of_nat 0 * i) with c in Hout by lia.
    destruct (exec_iter_dispatch m rest top t He Ht) as (m1 & Hit & Hs & _).
    pose proof Hs as (Ho1 & He1 & _).
    rewrite dispatch_loop in Hit by done.
    rewrite (handle_loop_for_int top t m1 c i l) in Hit by done.
    rewrite Hout in Hit.
    exists (pop_e m1), [].
    change (2 * 0 + 1)%nat with 1%nat.
    rewrite (exec_steps_one m _ rest top He Hit).
    split; [done|].
    split; [by simpl; rewrite He1, He, py_pop_snoc|].
    split; [by simpl; rewrite app_nil_r|].
    split; [constructor|].
    intros r o _ Hr. exact (same_stacks_lookup _ _ _ _ Hs Hr).
  - destruct (for_round m rest top p t body c i l) as
      (m1 & r & Hsteps & He1 & Ho1 & Hr1 & Hrne & Ht1 & Hk1); try done.
    { specialize (Hin 0%nat). rewrite Z.mul_0_l, Z.add_0_r in Hin. apply Hin. lia. }
    assert (p <> top) as Hne.
    { intros ->. rewrite Ht in Hbody. injection Hbody as ->.
      destruct Hproc as [[H|H] _]; rewrite Hty in H; discriminate. }
    destruct (IH m1 (ps.set_control (NInt (c + i)) t) (c + i)) as
      (m' & rs & Hsteps' & He' & Ho' & Hall & Hk'); try done.
    { by apply Hk1. }
    { intros k Hk. replace (c + i + Z.of_nat k * i) with (c + Z.of_nat (S k) * i)
        by lia. apply Hin. lia. }
    { by replace (c + i + Z.of_nat n * i) with (c + Z.of_nat (S n) * i) by lia. }
    exists m', (r :: rs).
    replace (2 * S n + 1)%nat with (2 + (2 * n + 1))%nat by lia.
    rewrite exec_steps_app, Hsteps. cbn [mbind option_bind].
    split; [done|]. split; [done|]. split.
    + rewrite Ho', Ho1, <- app_assoc. done.
    + split; [|by eapply kept_except_trans].
      cbn [progression]. constructor; [|done].
      by apply Hk'.
Qed.

Lemma for_pushes_progression_witness :
  exists m' rs, exec_steps (2 * 3 + 1) m_for_by_2 = Some m' /\
    e_stack m' = [] /\
    o_stack m' = o_stack m_for_by_2 ++ rs /\
    Forall2 (fun r v => heap m' !! r = Some (ps.Int v)) rs (progression 1 2 3) /\
    kept_except 1%nat m_for_by_2 m'.
Proof.
  apply (for_pushes_progression m_for_by_2 [] 1%nat 0%nat
           the_for_marker_by_2 (obj C_T_ARRAY C_ATTRIB_EXEC (PyList []) 0 0)
           1 2 6 3).
  - reflexivity.
  - reflexivity.
  - reflexivity.
  - reflexivity.
  - reflexivity.
  - reflexivity.
  - reflexivity.
  - reflexivity.
  - reflexivity.
  - reflexivity.
  - split; [by left|reflexivity].
  - reflexivity.
  - intros k Hk. unfold for_in_range. simpl.
    apply Z.leb_le. lia.
  - reflexivity.
Defined.

(** * The event loop callback *)

(** The three values the callback logic lives on. *)
Lemma update_obj_event (r : ref) (f : ps.PSObject -> ps.PSObject) (m : Machine) :
  event_loop_callback (update_obj r f m) = event_loop_callback m /\
  event_counter (update_obj r f m) = event_counter m /\
  callback_calls (update_obj r f m) = callback_calls m.
Proof. unfold update_obj. by destruct (heap m !! r). Qed.

Lemma schedule_body_event (b : bool) (top : ref) (m m' : Machine) :
  schedule_body b top m = Continue m' ->
  event_loop_callback m' = event_loop_callback m /\
  event_counter m' = event_counter m /\
  callback_calls m' = callback_calls m.
Proof.
  unfold schedule_body, py_copy.
  destruct (heap m !! top) as [t|]; [|done].
  destruct (ps.proc t) as [p|]; [|done].
  destruct (heap m !! p); [|done].
  intros H. injection H as <-. by destruct b.
Qed.

Lemma exec_name_walk_event (key : string) (m m' : Machine) :
  exec_name_walk key m = Continue m' ->
  event_loop_callback m' = event_loop_callback m /\
  event_counter m' = event_counter m /\
  callback_calls m' = callback_calls m.
Proof.
  unfold exec_name_walk, py_copy.
  destruct (dict_walk _ _ _ _) as [[v|]|]; [| |done].
  - destruct (heap m !! v) as [o|]; [|done].
    destruct (ps.TYPE o =? C_T_OPERATOR); intros H; by injection H as <-.
  - destruct (decode_ascii key); [|done].
    intros H. by injection H as <-.
Qed.

Lemma exec_name_event (t : ps.PSObject) (m m' : Machine) :
  exec_name t m = Continue m' ->
  event_loop_callback m' = event_loop_callback m /\
  event_counter m' = event_counter m /\
  callback_calls m' = callback_calls m.
Proof.
  unfold exec_name.
  destruct (ps.val t); try done.
  destruct (_operator_table m) as [tb|]; [|apply exec_name_walk_event].
  destruct (tb !! _); [|apply exec_name_walk_event].
  destruct (shadowed_scan _ _ _ _) as [[|]|]; [apply exec_name_walk_event| |done].
  intros H. by injection H as <-.
Qed.

Lemma advance_event (top : ref) (m : Machine) :
  event_loop_callback (advance top m) = event_loop_callback m /\
  event_counter (advance top m) = event_counter m /\
  callback_calls (advance top m) = callback_calls m.
Proof. apply update_obj_event. Qed.

Lemma push_o_copy_event (r : ref) (m m1 : Machine) :
  push_o_copy r m = Some m1 ->
  event_loop_callback m1 = event_loop_callback m /\
  event_counter m1 = event_counter m /\
  callback_calls m1 = callback_calls m.
Proof.
  unfold push_o_copy, py_copy. destruct (heap m !! r); [|done].
  intros H. by injection H as <-.
Qed.

Lemma exec_array_event (top : ref) (t : ps.PSObject) (m m' : Machine) :
  exec_array top t m = Continue m' ->
  event_loop_callback m' = event_loop_callback m /\
  event_counter m' = event_counter m /\
  callback_calls m' = callback_calls m.
Proof.
  assert (forall r m1, push_o_copy r m = Some m1 ->
            Continue (advance top m1) = Continue m' ->
            event_loop_callback m' = event_loop_callback m /\
            event_counter m' = event_counter m /\
            callback_calls m' = callback_calls m) as Hcopy.
  { intros r m1 Hc H. injection H as <-.
    destruct (advance_event top m1) as (-> & -> & ->).
    by apply (push_o_copy_event r). }
  assert (forall r, Continue (advance top (push_o r m)) = Continue m' ->
            event_loop_callback m' = event_loop_callback m /\
            event_counter m' = event_counter m /\
            callback_calls m' = callback_calls m) as Hpush.
  { intros r H. injection H as <-.
    by destruct (advance_event top (push_o r m)) as (-> & -> & ->). }
  assert (forall r, Continue (advance top (push_e r m)) = Continue m' ->
            event_loop_callback m' = event_loop_callback m /\
            event_counter m' = event_counter m /\
            callback_calls m' = callback_calls m) as Hpushe.
  { intros r H. injection H as <-.
    by destruct (advance_event top (push_e r m)) as (-> & -> & ->). }
  unfold exec_array.
  destruct (ps.length t =? 0); [intros H; by injection H as <-|].
  destruct (ps.val t) as [| | | | |l| |]; try done.
  destruct (py_index l (ps.start t)) as [obj|]; [|done].
  destruct (heap m !! obj) as [o|]; [|done].
  destruct (ps.length t =? 1);
    destruct (is_array_type (ps.TYPE o) && (ps.attrib o =? C_ATTRIB_EXEC));
    try (destruct (push_o_copy obj m) eqn:E; [by apply (Hcopy obj)|done]);
    destruct (ps.attrib o =? C_ATTRIB_LIT);
    try (destruct (is_literal_type (ps.TYPE o));
         [apply Hpush
         |destruct (push_o_copy obj m) eqn:E; [by apply (Hcopy obj)|done]]).
  - intros H. by injection H as <-.
  - apply Hpushe.
Qed.

Lemma for_iterate_event (top : ref) (t : ps.PSObject) (m m' : Machine) :
  for_iterate top t m = Continue m' ->
  event_loop_callback m' = event_loop_callback m /\
  event_counter m' = event_counter m /\
  callback_calls m' = callback_calls m.
Proof.
  unfold for_iterate. cbn [alloc]. intros H.
  apply schedule_body_event in H as (-> & -> & ->).
  match goal with
  | |- context [update_obj ?r ?f ?x] =>
      destruct (update_obj_event r f x) as (-> & -> & ->)
  end.
  done.
Qed.

Lemma handle_loop_event (top : ref) (t : ps.PSObject) (m m' : Machine) :
  _handle_loop top t m = Continue m' ->
  event_loop_callback m' = event_loop_callback m /\
  event_counter m' = event_counter m /\
  callback_calls m' = callback_calls m.
Proof.
  unfold _handle_loop.
  destruct (ps.val t) as [|lt| | | | | |]; try done.
  destruct (lt =? C_LT_LOOP); [apply schedule_body_event|].
  destruct (lt =? C_LT_REPEAT).
  { destruct (heap (update_obj _ _ m) !! top) as [t1|]; [|done].
    destruct (py_is_zero (ps.limit t1)); intros H;
      apply schedule_body_event in H as (-> & -> & ->);
      apply update_obj_event. }
  destruct (lt =? C_LT_FOR).
  { destruct (py_ge (ps.increment t) (NInt 0));
      [destruct (py_le (ps.control t) (ps.limit t))
      |destruct (py_ge (ps.control t) (ps.limit t))];
      first [apply for_iterate_event | intros H; by injection H as <-]. }
  destruct (_ || _); [done|].
  intros H. by injection H as <-.
Qed.

Lemma dispatch_event (top : ref) (t : ps.PSObject) (m m' : Machine) :
  dispatch top t m = Continue m' ->
  event_loop_callback m' = event_loop_callback m /\
  event_counter m' = event_counter m /\
  callback_calls m' = callback_calls m.
Proof.
  unfold dispatch.
  destruct (_ || _); [intros H; by injection H as <-|].
  destruct (ps.TYPE t =? C_T_OPERATOR); [done|].
  destruct (ps.TYPE t =? C_T_NAME); [apply exec_name_event|].
  destruct (is_tokenizable_type (ps.TYPE t)); [done|].
  destruct (is_array_type (ps.TYPE t)); [apply exec_array_event|].
  destruct (ps.TYPE t =? C_T_STOPPED); [intros H; by injection H as <-|].
  destruct (ps.TYPE t =? C_T_LOOP); [apply handle_loop_event|].
  destruct (ps.TYPE t =? C_T_HARD_RETURN); [done|].
  intros H. by injection H as <-.
Qed.

Lemma record_top_event (top : ref) (ty : Z) (m m1 : Machine) :
  record_top top ty m = Some m1 ->
  event_loop_callback m1 = event_loop_callback m /\
  event_counter m1 = event_counter m /\
  callback_calls m1 = callback_calls m.
Proof.
  unfold record_top, py_copy.
  destruct (_ && _); [|intros H; by injection H as <-].
  destruct (negb _); [|intros H; by injection H as <-].
  destruct (heap m !! top); [|done].
  intros H. by injection H as <-.
Qed.

Lemma exec_iter_event (m m' : Machine) :
  e_stack m <> [] ->
  exec_iter m = Continue m' ->
  event_loop_callback m' = event_loop_callback (pump m) /\
  event_counter m' = event_counter (pump m) /\
  callback_calls m' = callback_calls (pump m).
Proof.
  intros Hne. unfold exec_iter.
  destruct (py_top (e_stack m)) as [top|] eqn:Htop.
  - destruct (heap m !! top) as [t|]; [|done].
    destruct (record_top top (ps.TYPE t) (pump m)) as [m1|] eqn:Hrec; [|done].
    intros H. apply dispatch_event in H as (-> & -> & ->).
    by apply (record_top_event top (ps.TYPE t)).
  - unfold py_top in Htop. by apply last_None in Htop.
Qed.

Lemma pump_counts (m : Machine) (k : Z) (c0 : nat) :
  event_loop_callback m = true ->
  0 <= k ->
  event_counter m = k mod 10000 ->
  Z.of_nat (callback_calls m) = Z.of_nat c0 + k / 10000 ->
  event_loop_callback (pump m) = true /\
  event_counter (pump m) = (k + 1) mod 10000 /\
  Z.of_nat (callback_calls (pump m)) = Z.of_nat c0 + (k + 1) / 10000.
Proof.
  intros Hcb Hk Hc Hcalls. unfold pump. rewrite Hcb.
  destruct (Z.geb_spec (event_counter m + 1) 10000) as [Hge|Hlt]; simpl;
    (split; [done|]); rewrite ?Nat2Z.inj_succ;
    split; Z.div_mod_to_equations; lia.
Qed.

Lemma exec_steps_counts (n : nat) :
  forall (m m' : Machine) (k : Z) (c0 : nat),
    event_loop_callback m = true ->
    0 <= k ->
    event_counter m = k mod 10000 ->
    Z.of_nat (callback_calls m) = Z.of_nat c0 + k / 10000 ->
    exec_steps n m = Some m' ->
    event_counter m' = (k + Z.of_nat n) mod 10000 /\
    Z.of_nat (callback_calls m') = Z.of_nat c0 + (k + Z.of_nat n) / 10000.
Proof.
  induction n as [|n IH]; intros m m' k c0 Hcb Hk Hc Hcalls Hsteps.
  - injection Hsteps as <-. by rewrite Z.add_0_r.
  - cbn [exec_steps] in Hsteps.
    destruct (e_stack m) as [|x s] eqn:He; [done|].
    destruct (exec_iter m) as [m1| | |] eqn:Hit; try done.
    destruct (exec_iter_event m m1) as (Hcb1 & Hc1 & Hcalls1);
      [by rewrite He|done|].
    destruct (pump_counts m k c0 Hcb Hk Hc Hcalls) as (Hp1 & Hp2 & Hp3).
    replace (k + Z.of_nat (S n)) with ((k + 1) + Z.of_nat n) by lia.
    apply (IH m1 m' (k + 1) c0); try done; try congruence. lia.
Qed.

Lemma exec_steps_no_callback (n : nat) :
  forall (m m' : Machine),
    event_loop_callback m = false ->
    exec_steps n m = Some m' ->
    callback_calls m' = callback_calls m.
Proof.
  induction n as [|n IH]; intros m m' Hcb Hsteps.
  - by injection Hsteps as <-.
  - cbn [exec_steps] in Hsteps.
    destruct (e_stack m) as [|x s] eqn:He; [done|].
    destruct (exec_iter m) as [m1| | |] eqn:Hit; try done.
    destruct (exec_iter_event m m1) as (Hcb1 & Hc1 & Hcalls1);
      [by rewrite He|done|].
    unfold pump in Hcb1, Hcalls1. rewrite Hcb in Hcb1, Hcalls1.
    rewrite <- Hcalls1. apply IH; [congruence|done].
Qed.



(** * Objects from the tokenizer *)

Lemma move_to_e_stacks (m : Machine) (os : list ref) (top r : ref) :
  o_stack m = os ++ [top] ->
  e_stack (pop_o (push_e r m)) = e_stack m ++ [r] /\
  o_stack (pop_o (push_e r m)) = os /\
  heap (pop_o (push_e r m)) = heap m /\
  raised (pop_o (push_e r m)) = raised m.
Proof. intros Ho. simpl. by rewrite Ho, py_pop_snoc. Qed.

Lemma token_prelude (proc_count : Z) (lookup : Machine -> ref -> option ref)
    (str : ps.PSObject -> string) (m : Machine) (os : list ref) (top : ref)
    (t : ps.PSObject) :
  o_stack m = os ++ [top] ->
  heap m !! top = Some t ->
  ACCESS_READ_ONLY <= ps.access t ->
  well_formed_name t ->
  _ps_exec_from_token proc_count lookup str m =
    if closes_procedure t then Continue (move_to_e top m)
    else if proc_count =? 0 then
      if is_tokenizable_type (ps.TYPE t) then
        if ps.attrib t =? C_ATTRIB_EXEC then Continue (move_to_e top m)
        else Continue m
      else if ps.TYPE t =? C_T_NAME then
        if ps.attrib t =? C_ATTRIB_EXEC then
          match lookup m top with
          | None => Continue (ps_error_e UNDEFINED (str t) m)
          | Some obj => Continue (pop_o (push_e obj m))
          end
        else Continue m
      else if ps.TYPE t =? C_T_OPERATOR then Continue (move_to_e top m)
      else if is_array_type (ps.TYPE t) then
        if ps.attrib t =? C_ATTRIB_EXEC then
          match py_copy top m with
          | Some (m1, c) => Continue (pop_o (push_e c m1))
          | None => PyRaise AttributeError m
          end
        else Continue m
      else Continue m
    else Continue m.
Proof.
  intros Ho Ht Hacc Hwf.
  unfold _ps_exec_from_token.
  rewrite Ho, length_app, py_top_snoc, Ht. simpl List.length.
  destruct (Z.ltb_spec (Z.of_nat (List.length os + 1)) 1) as [|_]; [lia|].
  destruct (Z.ltb_spec (ps.access t) ACCESS_READ_ONLY) as [|_]; [lia|].
  unfold closes_procedure.
  destruct (Z.eqb_spec (ps.TYPE t) C_T_NAME) as [Hty|Hty].
  - destruct (Hwf Hty) as [s ->].
    destruct s as [|a s]; simpl; [by rewrite andb_false_r|].
    destruct (Nat.eqb (nat_of_ascii a) 125); simpl.
    + by rewrite andb_true_r.
    + by rewrite andb_false_r.
  - done.
Qed.

(** X17: while a procedure is being read ([ctxt.proc_count] is not 0),
    [_ps_exec_from_token] executes nothing: whatever the tokenizer has left
    on the operand stack stays there and the execution stack is as it was.
    The one exception is an executable name that starts with the byte for
    a closing brace, which is moved to the execution stack whatever the
    count.  No lookup is made in either case. *)
Theorem token_deferred_inside_procedure (proc_count : Z)
    (lookup : Machine -> ref -> option ref) (str : ps.PSObject -> string)
    (m : Machine) (os : list ref) (top : ref) (t : ps.PSObject) :
  o_stack m = os ++ [top] ->
  heap m !! top = Some t ->
  ACCESS_READ_ONLY <= ps.access t ->
  well_formed_name t ->
  proc_count <> 0 ->
  exists m', _ps_exec_from_token proc_count lookup str m = Continue m' /\
    heap m' = heap m /\ raised m' = raised m /\
    if closes_procedure t
    then e_stack m' = e_stack m ++ [top] /\ o_stack m' = os
    else m' = m.
Proof.
  intros Ho Ht Hacc Hwf Hpc.
  rewrite (token_prelude proc_count lookup str m os top t Ho Ht Hacc Hwf).
  destruct (closes_procedure t).
  - destruct (move_to_e_stacks m os top top Ho) as (He & Hos & Hh & Hr).
    by exists (move_to_e top m).
  - destruct (Z.eqb_spec proc_count 0) as [|_]; [done|].
    by exists m.
Qed.

Lemma token_deferred_inside_procedure_witness :
  exists m', _ps_exec_from_token 1 (fun _ _ => None) (fun _ => "add") m_token_add
             = Continue m' /\
    heap m' = heap m_token_add /\ raised m' = raised m_token_add /\
    if closes_procedure (obj C_T_NAME C_ATTRIB_EXEC (PyBytes "add") 0 0)
    then e_stack m' = e_stack m_token_add ++ [0%nat] /\ o_stack m' = []
    else m' = m_token_add.
Proof.
  apply (token_deferred_inside_procedure 1 (fun _ _ => None) (fun _ => "add")
           m_token_add [] 0%nat (obj C_T_NAME C_ATTRIB_EXEC (PyBytes "add") 0 0)).
  - reflexivity.
  - reflexivity.
  - unfold ACCESS_READ_ONLY. simpl. unfold ACCESS_UNLIMITED. lia.
  - intros _. by eexists.
  - lia.
Defined.

(** X18: outside any procedure ([ctxt.proc_count] is 0) an object that is
    not a Name is executed or not by its type and attribute alone: an
    executable procedure is scheduled as a copy, a new object, so that the
    object the tokenizer made is not the one that gets consumed; an
    Operator, and an executable File or String, are scheduled as they are;
    every other object, literal or not, stays on the operand stack.  What
    is scheduled is taken off the operand stack. *)
Theorem token_at_top_level (lookup : Machine -> ref -> option ref)
    (str : ps.PSObject -> string)
    (m : Machine) (os : list ref) (top : ref) (t : ps.PSObject) :
  o_stack m = os ++ [top] ->
  heap m !! top = Some t ->
  ACCESS_READ_ONLY <= ps.access t ->
  ps.TYPE t <> C_T_NAME ->
  exists m', _ps_exec_from_token 0 lookup str m = Continue m' /\
    raised m' = raised m /\
    if is_array_type (ps.TYPE t) && (ps.attrib t =? C_ATTRIB_EXEC)
    then e_stack m' = e_stack m ++ [List.length (heap m)] /\
         heap m' = heap m ++ [t] /\ o_stack m' = os
    else if (ps.TYPE t =? C_T_OPERATOR)
            || (is_tokenizable_type (ps.TYPE t) && (ps.attrib t =? C_ATTRIB_EXEC))
    then e_stack m' = e_stack m ++ [top] /\ heap m' = heap m /\ o_stack m' = os
    else m' = m.
Proof.
  intros Ho Ht Hacc Hty.
  assert (well_formed_name t) as Hwf by (by intros ?).
  rewrite (token_prelude 0 lookup str m os top t Ho Ht Hacc Hwf).
  assert (closes_procedure t = false) as ->.
  { unfold closes_procedure. by destruct (Z.eqb_spec (ps.TYPE t) C_T_NAME). }
  destruct (Z.eqb_spec (ps.TYPE t) C_T_NAME) as [|_]; [done|].
  change (0 =? 0) with true. cbv iota.
  destruct (move_to_e_stacks m os top top Ho) as (He & Hos & Hh & Hr).
  unfold is_tokenizable_type, is_array_type.
  destruct (Z.eqb_spec (ps.TYPE t) C_T_FILE) as [E1|N1];
    [rewrite E1|]; simpl.
  { destruct (ps.attrib t =? C_ATTRIB_EXEC); [by exists (move_to_e top m)|by exists m]. }
  destruct (Z.eqb_spec (ps.TYPE t) C_T_STRING) as [E2|N2];
    [rewrite E2|]; simpl.
  { destruct (ps.attrib t =? C_ATTRIB_EXEC); [by exists (move_to_e top m)|by exists m]. }
  destruct (Z.eqb_spec (ps.TYPE t) C_T_OPERATOR) as [E3|N3];
    [rewrite E3|]; simpl.
  { by exists (move_to_e top m). }
  destruct ((ps.TYPE t =? C_T_ARRAY) || (ps.TYPE t =? C_T_PACKED_ARRAY)); simpl;
    [|by exists m].
  destruct (ps.attrib t =? C_ATTRIB_EXEC); [|by exists m].
  unfold py_copy. rewrite Ht. cbn [alloc].
  eexists. split; [reflexivity|]. simpl. by rewrite Ho, py_pop_snoc.
Qed.

Lemma token_at_top_level_witness :
  exists m', _ps_exec_from_token 0 (fun _ _ => None) (fun _ => "x") m_token_proc
             = Continue m' /\
    raised m' = raised m_token_proc /\
    if is_array_type (ps.TYPE (obj C_T_ARRAY C_ATTRIB_EXEC (PyList [0%nat]) 0 1))
       && (ps.attrib (obj C_T_ARRAY C_ATTRIB_EXEC (PyList [0%nat]) 0 1) =? C_ATTRIB_EXEC)
    then e_stack m' = e_stack m_token_proc ++ [List.length (heap m_token_proc)] /\
         heap m' = heap m_token_proc ++ [obj C_T_ARRAY C_ATTRIB_EXEC (PyList [0%nat]) 0 1] /\
         o_stack m' = []
    else if (ps.TYPE (obj C_T_ARRAY C_ATTRIB_EXEC (PyList [0%nat]) 0 1) =? C_T_OPERATOR)
            || (is_tokenizable_type (ps.TYPE (obj C_T_ARRAY C_ATTRIB_EXEC (PyList [0%nat]) 0 1))
                && (ps.attrib (obj C_T_ARRAY C_ATTRIB_EXEC (PyList [0%nat]) 0 1) =? C_ATTRIB_EXEC))
    then e_stack m' = e_stack m_token_proc ++ [1%nat] /\ heap m' = heap m_token_proc /\
         o_stack m' = []
    else m' = m_token_proc.
Proof.
  apply (token_at_top_level (fun _ _ => None) (fun _ => "x")
           m_token_proc [] 1%nat (obj C_T_ARRAY C_ATTRIB_EXEC (PyList [0%nat]) 0 1)).
  - reflexivity.
  - reflexivity.
  - unfold ACCESS_READ_ONLY. simpl. unfold ACCESS_UNLIMITED. lia.
  - discriminate.
Defined.

(** * The forall loop over an array *)

Lemma exec_steps_forall_one (obj_of : ref -> option ref) (m m1 : Machine)
    (rest : list ref) (top : ref) :
  e_stack m = rest ++ [top] ->
  exec_iter_forall obj_of m = Continue m1 ->
  forall k, exec_steps_forall obj_of (S k) m = exec_steps_forall obj_of k m1.
Proof.
  intros He Hit k. cbn [exec_steps_forall]. rewrite He, Hit.
  by destruct rest.
Qed.

Lemma exec_steps_forall_app (obj_of : ref -> option ref) (a b : nat) (m : Machine) :
  exec_steps_forall obj_of (a + b) m
    = m1 ← exec_steps_forall obj_of a m; exec_steps_forall obj_of b m1.
Proof.
  revert m. induction a as [|a IH]; intros m; [done|].
  cbn [Nat.add exec_steps_forall].
  destruct (e_stack m); [done|].
  destruct (exec_iter_forall obj_of m); first [done | apply IH].
Qed.

Lemma forall_advanced_elements (a : ps.PSObject) (e : ref) (elems : list ref) :
  elements a (e :: elems) -> elements (forall_advanced a) elems.
Proof.
  intros (pre & post & Hval & Hst & Hlen).
  exists (pre ++ [e]), post. simpl.
  rewrite Hval, Hst, Hlen, length_app, <- app_assoc. simpl.
  split; [done|]. split; lia.
Qed.

(** The marker of a [forall] is handed to [_handle_forall]. *)
Lemma exec_iter_forall_marker (obj_of : ref -> option ref) (m : Machine)
    (rest : list ref) (top : ref) (t : ps.PSObject) :
  e_stack m = rest ++ [top] ->
  heap m !! top = Some t ->
  ps.TYPE t = C_T_LOOP ->
  ps.attrib t = C_ATTRIB_EXEC ->
  ps.val t = PyInt C_LT_FORALL ->
  exists m1, exec_iter_forall obj_of m = _handle_forall obj_of top m1 /\
    same_stacks m m1.
Proof.
  intros He Ht Hty Ha Hval.
  destruct (exec_iter_dispatch m rest top t He Ht) as (m1 & Hit & Hs & _).
  exists m1. split; [|done].
  unfold exec_iter_forall. rewrite Hit, dispatch_loop by done.
  unfold _handle_loop. rewrite Hval.
  change (C_LT_FORALL =? C_LT_LOOP) with false.
  change (C_LT_FORALL =? C_LT_REPEAT) with false.
  change (C_LT_FORALL =? C_LT_FOR) with false.
  change (C_LT_FORALL =? C_LT_FORALL) with true.
  cbv iota. cbn [orb]. cbv iota.
  destruct Hs as (_ & He1 & _). by rewrite He1, He, py_top_snoc.
Qed.

(** One round of [forall] with an empty body. *)
Lemma forall_round (obj_of : ref -> option ref) (m : Machine) (rest elems : list ref)
    (top obj p e : ref) (t a body : ps.PSObject) :
  e_stack m = rest ++ [top] ->
  heap m !! top = Some t ->
  ps.TYPE t = C_T_LOOP ->
  ps.attrib t = C_ATTRIB_EXEC ->
  ps.val t = PyInt C_LT_FORALL ->
  obj_of top = Some obj ->
  heap m !! obj = Some a ->
  is_array_type (ps.TYPE a) = true ->
  elements a (e :: elems) ->
  ps.proc t = Some p ->
  heap m !! p = Some body ->
  is_procedure body ->
  ps.length body = 0 ->
  exists m', exec_steps_forall obj_of 2 m = Some m' /\
    e_stack m' = rest ++ [top] /\
    o_stack m' = o_stack m ++ [e] /\
    heap m' !! obj = Some (forall_advanced a) /\
    kept_except obj m m'.
Proof.
  intros He Ht Hty Ha Hval Hobj Hao Harr Hel Hp Hbody Hproc Hlen.
  pose proof Hel as (pre & post & Hlist & Hst & Hal).
  assert (ps.length a <> 0) as Hlen0 by (rewrite Hal; simpl; lia).
  assert (obj <> top) as Hne1.
  { intros ->. rewrite Ht in Hao. injection Hao as ->.
    rewrite Hty in Harr. discriminate. }
  assert (obj <> p) as Hne2.
  { intros ->. rewrite Hbody in Hao. injection Hao as ->. done. }
  destruct (exec_iter_forall_marker obj_of m rest top t He Ht Hty Ha Hval)
    as (m1 & Hit & Hs).
  pose proof Hs as (Ho1 & He1 & _ & _ & _ & Hpre).
  pose proof (same_stacks_lookup _ _ _ _ Hs Ht) as Ht1.
  pose proof (same_stacks_lookup _ _ _ _ Hs Hao) as Hao1.
  pose proof (same_stacks_lookup _ _ _ _ Hs Hbody) as Hbody1.
  pose proof (lookup_lt_Some _ _ _ Hao1) as Hlt.
  assert ((ps.TYPE a =? C_T_STRING) = false) as Hns.
  { unfold is_array_type in Harr.
    apply orb_prop in Harr as [E|E]; apply Z.eqb_eq in E; by rewrite E. }
  set (h2 := <[obj := forall_advanced a]> (heap m1)).
  assert (_handle_forall obj_of top m1 =
          Continue (push_e (List.length (heap m1))
                      (with_heap (h2 ++ [body]) (push_o e m1)))) as Hhf.
  { unfold _handle_forall. rewrite Hobj, Hao1, Hns, Harr.
    destruct (Z.eqb_spec (ps.length a) 0) as [|_]; [done|].
    rewrite Hlist, Hst. cbn [app]. rewrite py_index_middle.
    unfold update_obj. cbn [heap push_o with_o_stack with_heap].
    rewrite Hao1. cbn [heap with_heap].
    rewrite list_lookup_insert_eq by done.
    cbn [heap with_heap]. rewrite list_insert_insert_eq.
    unfold schedule_body. cbn [heap with_heap].
    rewrite list_lookup_insert_ne by done.
    rewrite Ht1, Hp. unfold py_copy. cbn [heap with_heap].
    rewrite list_lookup_insert_ne by done.
    rewrite Hbody1. unfold alloc. cbn [heap with_heap].
    rewrite length_insert. reflexivity. }
  rewrite Hhf in Hit.
  set (m2 := push_e (List.length (heap m1))
               (with_heap (h2 ++ [body]) (push_o e m1))) in *.
  assert (e_stack m2 = (rest ++ [top]) ++ [List.length (heap m1)]) as He2
    by (simpl; by rewrite He1, He).
  assert (heap m2 !! List.length (heap m1) = Some body) as Hb2.
  { simpl. unfold h2. rewrite lookup_app_r by (by rewrite length_insert).
    by rewrite length_insert, Nat.sub_diag. }
  destruct (step_empty_array m2 (rest ++ [top]) _ body He2 Hb2 Hproc Hlen)
    as (m3 & Hit3 & He3 & Ho3 & Hpre3).
  assert (exec_iter_forall obj_of m2 = Continue m3) as Hit3'
    by (unfold exec_iter_forall; by rewrite Hit3).
  exists m3.
  rewrite (exec_steps_forall_one obj_of m m2 rest top He Hit).
  rewrite (exec_steps_forall_one obj_of m2 m3 _ _ He2 Hit3').
  split; [done|]. split; [done|].
  split; [rewrite Ho3; simpl; by rewrite Ho1|].
  assert (forall r o, heap m2 !! r = Some o -> heap m3 !! r = Some o) as H23.
  { intros r o Hr. by eapply prefix_lookup_Some. }
  split.
  - apply H23. simpl. unfold h2.
    rewrite lookup_app_l by (by rewrite length_insert).
    by apply list_lookup_insert_eq.
  - intros r o Hr Hlk. apply H23. simpl. unfold h2.
    pose proof (same_stacks_lookup _ _ _ _ Hs Hlk) as Hlk1.
    rewrite lookup_app_l
      by (rewrite length_insert; by eapply lookup_lt_Some).
    by rewrite list_lookup_insert_ne.
Qed.

(** X19: a [forall] marker over an array, with an empty body, pushes the
    elements of the array onto the operand stack in order, each by
    reference whatever its type (where a procedure being executed pushes
    copies of its composite elements), and is popped after them.  The
    elements are taken off the front of the object the marker holds in
    [obj], which is left with length 0; no other object of the store
    changes. *)
Theorem forall_pushes_elements (obj_of : ref -> option ref) (m : Machine)
    (rest elems : list ref) (top obj p : ref) (t a body : ps.PSObject) :
  e_stack m = rest ++ [top] ->
  heap m !! top = Some t ->
  ps.TYPE t = C_T_LOOP ->
  ps.attrib t = C_ATTRIB_EXEC ->
  ps.val t = PyInt C_LT_FORALL ->
  obj_of top = Some obj ->
  heap m !! obj = Some a ->
  is_array_type (ps.TYPE a) = true ->
  elements a elems ->
  ps.proc t = Some p ->
  heap m !! p = Some body ->
  is_procedure body ->
  ps.length body = 0 ->
  exists m' a', exec_steps_forall obj_of (2 * List.length elems + 1) m = Some m' /\
    e_stack m' = rest /\
    o_stack m' = o_stack m ++ elems /\
    heap m' !! obj = Some a' /\ ps.length a' = 0 /\
    ps.start a' = ps.start a + ps.length a /\
    kept_except obj m m'.
Proof.
  intros He Ht Hty Ha Hval Hobj Hao Harr Hel Hp Hbody Hproc Hlen.
  revert m t a He Ht Hty Ha Hval Hao Harr Hel Hp Hbody.
  induction elems as [|e elems IH];
    intros m t a He Ht Hty Ha Hval Hao Harr Hel Hp Hbody.
  - destruct Hel as (pre & post & _ & _ & Hal). simpl in Hal.
    destruct (exec_iter_forall_marker obj_of m rest top t He Ht Hty Ha Hval)
      as (m1 & Hit & Hs).
    pose proof Hs as (Ho1 & He1 & _).
    pose proof (same_stacks_lookup _ _ _ _ Hs Hao) as Hao1.
    assert ((ps.TYPE a =? C_T_STRING) = false) as Hns.
    { unfold is_array_type in Harr.
      apply orb_prop in Harr as [E|E]; apply Z.eqb_eq in E; by rewrite E. }
    assert (_handle_forall obj_of top m1 = Continue (pop_e m1)) as Hhf.
    { unfold _handle_forall. by rewrite Hobj, Hao1, Hns, Harr, Hal. }
    rewrite Hhf in Hit.
    exists (pop_e m1), a.
    change (2 * List.length (@nil ref) + 1)%nat with 1%nat.
    rewrite (exec_steps_forall_one obj_of m _ rest top He Hit).
    split; [done|].
    split; [by simpl; rewrite He1, He, py_pop_snoc|].
    split; [by simpl; rewrite app_nil_r|].
    split; [done|]. split; [done|]. split; [lia|].
    intros r o _ Hr. exact (same_stacks_lookup _ _ _ _ Hs Hr).
  - destruct (forall_round obj_of m rest elems top obj p e t a body) as
      (m1 & Hsteps & He1 & Ho1 & Ha1 & Hk1); try done.
    assert (obj <> top) as Hne1.
    { intros ->. rewrite Ht in Hao. injection Hao as ->.
      rewrite Hty in Harr. discriminate. }
    assert (obj <> p) as Hne2.
    { intros ->. rewrite Hbody in Hao. injection Hao as ->.
      destruct Hel as (pre & post & _ & _ & Hal). simpl in Hal. lia. }
    destruct (IH m1 t (forall_advanced a)) as
      (m' & a' & Hsteps' & He' & Ho' & Ha' & Hl' & Hs' & Hk'); try done.
    { by apply Hk1. }
    { by apply forall_advanced_elements with e. }
    { by apply Hk1. }
    exists m', a'.
    replace (2 * List.length (e :: elems) + 1)%nat
      with (2 + (2 * List.length elems + 1))%nat by (simpl; lia).
    rewrite exec_steps_forall_app, Hsteps. cbn [mbind option_bind].
    split; [done|]. split; [done|]. split.
    + rewrite Ho', Ho1, <- app_assoc. done.
    + split; [done|]. split; [done|]. split.
      * rewrite Hs'. simpl. lia.
      * by eapply kept_except_trans.
Qed.

Lemma forall_pushes_elements_witness :
  exists m' a',
    exec_steps_forall forall_operand (2 * List.length [0%nat; 1%nat] + 1) m_forall
      = Some m' /\
    e_stack m' = [] /\
    o_stack m' = o_stack m_forall ++ [0%nat; 1%nat] /\
    heap m' !! 3%nat = Some a' /\ ps.length a' = 0 /\
    ps.start a' =
      ps.start (obj C_T_ARRAY C_ATTRIB_LIT (PyList [0%nat; 1%nat]) 0 2)
      + ps.length (obj C_T_ARRAY C_ATTRIB_LIT (PyList [0%nat; 1%nat]) 0 2) /\
    kept_except 3%nat m_forall m'.
Proof.
  apply (forall_pushes_elements forall_operand m_forall [] [0%nat; 1%nat]
           4%nat 3%nat 2%nat the_forall_marker
           (obj C_T_ARRAY C_ATTRIB_LIT (PyList [0%nat; 1%nat]) 0 2)
           (obj C_T_ARRAY C_ATTRIB_EXEC (PyList []) 0 0)).
  - reflexivity.
  - reflexivity.
  - reflexivity.
  - reflexivity.
  - reflexivity.
  - reflexivity.
  - reflexivity.
  - reflexivity.
  - exists [], []. done.
  - reflexivity.
  - reflexivity.
  - split; [by left|reflexivity].
  - reflexivity.
Defined.

(** * Grayscale below 8 bits *)

Lemma to_byte_is_byte (x : float) (v : Z) : to_byte x = Some v -> is_byte v.
Proof.
  unfold to_byte. destruct (trunc_double _) as [z|]; [|done].
  simpl. intros H. injection H as <-.
  unfold uchar, is_byte.
  pose proof (Z.mod_pos_bound
                (if (if z <? 0 then 0 else z) >? 255 then 255
                 else if z <? 0 then 0 else z) 256 ltac:(lia)).
  lia.
Qed.

Lemma gray_lut_is_table (n : nat) :
  forall (i : Z) (lo scale : float) (lut : list Z),
    gray_lut n i lo scale = Some lut -> is_table n lut.
Proof.
  induction n as [|n IH]; intros i lo scale lut H.
  - injection H as <-. by split.
  - cbn [gray_lut] in H.
    destruct (to_byte _) as [v|] eqn:Hv; [|done].
    destruct (gray_lut n (i + 1) lo scale) as [rest|] eqn:Hrest; [|done].
    injection H as <-.
    destruct (IH _ _ _ _ Hrest) as [Hlen Hall].
    split; [simpl; by rewrite Hlen|].
    constructor; [by eapply to_byte_is_byte|done].
Qed.

Lemma table_rd (n : nat) (lut : list Z) (s : Z) :
  is_table n lut -> 0 <= s < Z.of_nat n ->
  rd lut s = Some (lut_at lut s) /\ is_byte (lut_at lut s).
Proof.
  intros [Hlen Hbytes] Hs.
  destruct (lookup_lt_is_Some_2 lut (Z.to_nat s)) as [v Hv]; [lia|].
  rewrite rd_lookup by lia. unfold lut_at. rewrite Hv. simpl.
  split; [done|]. rewrite Forall_lookup in Hbytes. by eapply Hbytes.
Qed.

Lemma write_gray (pre : list Z) (s r : nat) (g : Z) :
  List.length pre = (4 * s)%nat ->
  is_byte g ->
  4 * (Z.of_nat s + 1) < 2 ^ 31 ->
  write_bgrx (pre ++ replicate (4 * S r) 0) (c_int (Z.of_nat s * 4)) g g g
    = Some ((pre ++ [g; g; g; 255]) ++ replicate (4 * r) 0).
Proof.
  intros Hp Hg Hb.
  rewrite (c_int_small (Z.of_nat s * 4)) by lia.
  rewrite replicate_4S, write_bgrx_app by lia.
  rewrite !uchar_byte by done. by rewrite <- app_assoc.
Qed.

Lemma gray4_loop_spec (lut : list Z) (fuel : nat) :
  is_table 16 lut ->
  forall (s j r : nat) (srcpre rest pre : list Z),
    List.length srcpre = j ->
    List.length pre = (4 * s)%nat ->
    (j <= s)%nat ->
    (r <= fuel)%nat ->
    (r <= 2 * List.length rest)%nat ->
    4 * Z.of_nat (s + r) < 2 ^ 31 ->
    Forall is_byte rest ->
    gray4_loop fuel (Z.of_nat s) (Z.of_nat j) (Z.of_nat (s + r))
      (srcpre ++ rest) lut (pre ++ replicate (4 * r) 0)
      = Some (pre ++ gray_pixels (lut_at lut <$> take r (unpack4 rest))).
Proof.
  intros Hlut.
  induction fuel as [|fuel IH];
    intros s j r srcpre rest pre Hsp Hp Hjs Hfuel Hlen Hbound Hbytes.
  - assert (r = 0%nat) as -> by lia. cbn [gray4_loop].
    destruct (Z.ltb_spec (Z.of_nat s) (Z.of_nat (s + 0))); [lia|].
    by rewrite take_0.
  - cbn [gray4_loop].
    destruct r as [|r].
    { destruct (Z.ltb_spec (Z.of_nat s) (Z.of_nat (s + 0))); [lia|].
      by rewrite take_0. }
    destruct (Z.ltb_spec (Z.of_nat s) (Z.of_nat (s + S r))) as [_|]; [|lia].
    destruct rest as [|b rest]; [simpl in Hlen; lia|].
    apply Forall_cons in Hbytes as [Hb Hbytes].
    destruct (nibble_range b Hb) as [Hhi Hlo].
    destruct (table_rd 16 lut _ Hlut Hhi) as [Hrd1 Hg1].
    destruct (table_rd 16 lut _ Hlut Hlo) as [Hrd2 Hg2].
    rewrite (rd_at _ srcpre rest b (Z.of_nat j)); [|done|lia].
    cbn [mbind option_bind]. rewrite Hrd1. cbn [mbind option_bind].
    rewrite write_gray by (done || lia).
    cbn [mbind option_bind].
    rewrite (c_int_small (Z.of_nat s + 1)) by lia.
    destruct r as [|r].
    { destruct (Z.geb_spec (Z.of_nat s + 1) (Z.of_nat (s + 1))); [|lia].
      simpl. by rewrite app_nil_r. }
    destruct (Z.geb_spec (Z.of_nat s + 1) (Z.of_nat (s + S (S r)))); [lia|].
    rewrite Hrd2. cbn [mbind option_bind].
    replace (Z.of_nat s + 1) with (Z.of_nat (S s)) by lia.
    rewrite write_gray; [|rewrite length_app; simpl; lia|done|lia].
    cbn [mbind option_bind].
    rewrite (c_int_small (Z.of_nat (S s) + 1)) by lia.
    rewrite (c_int_small (Z.of_nat j + 1)) by lia.
    replace (Z.of_nat (S s) + 1) with (Z.of_nat (S (S s))) by lia.
    replace (Z.of_nat j + 1) with (Z.of_nat (S j)) by lia.
    replace (Z.of_nat (s + S (S r))) with (Z.of_nat (S (S s) + r)) by lia.
    specialize (IH (S (S s)) (S j) r (srcpre ++ [b]) rest
                  ((pre ++ [lut_at lut (Z.land (Z.shiftr b 4) 15);
                            lut_at lut (Z.land (Z.shiftr b 4) 15);
                            lut_at lut (Z.land (Z.shiftr b 4) 15); 255])
                     ++ [lut_at lut (Z.land b 15); lut_at lut (Z.land b 15);
                         lut_at lut (Z.land b 15); 255])).
    rewrite <- (app_assoc srcpre [b] rest) in IH. cbn [app] in IH.
    rewrite IH.
    + cbn [unpack4 take fmap list_fmap gray_pixels].
      rewrite <- !app_assoc. done.
    + rewrite length_app. simpl. lia.
    + rewrite !length_app. simpl. lia.
    + lia.
    + lia.
    + simpl in Hlen. lia.
    + lia.
    + done.
Qed.

Lemma gray8_exact (src : list Z) (num_pixels : Z) :
  0 <= num_pixels ->
  4 * num_pixels < 2 ^ 31 ->
  Forall is_byte src ->
  num_pixels <= Z.of_nat (List.length src) ->
  gray8_to_bgrx src num_pixels = Some (gray_pixels (take (Z.to_nat num_pixels) src)).
Proof.
  intros Hn Hbound Hbytes Hlen. unfold gray8_to_bgrx.
  rewrite bytearray_zeros by done. cbn [mbind option_bind].
  apply (gray8_loop_spec (Z.to_nat num_pixels) 0%nat [] src []); try done; lia.
Qed.

Lemma unpack4_length (src : list Z) :
  List.length (unpack4 src) = (2 * List.length src)%nat.
Proof. induction src as [|b src IH]; simpl; lia. Qed.

Lemma unpack4_range (src : list Z) :
  Forall is_byte src -> Forall (fun v => 0 <= v < 16) (unpack4 src).
Proof.
  induction 1 as [|b src Hb _ IH]; [constructor|].
  destruct (nibble_range b Hb) as [H1 H2]. cbn [unpack4].
  constructor; [exact H1|]. constructor; [exact H2|]. exact IH.
Qed.

Lemma table_bytes (n : nat) (lut samples : list Z) :
  is_table n lut ->
  Forall (fun v => 0 <= v < Z.of_nat n) samples ->
  Forall is_byte (lut_at lut <$> samples).
Proof.
  intros Hlut Hs. apply Forall_fmap. eapply Forall_impl; [exact Hs|].
  intros v Hv. by apply (table_rd n lut v Hlut).
Qed.

Lemma gray4_exact (src lut : list Z) (width height : Z) (lo hi : float) :
  0 <= width * height ->
  4 * (width * height) < 2 ^ 31 ->
  Forall is_byte src ->
  width * height <= 2 * Z.of_nat (List.length src) ->
  gray_lut 16 0 lo ((hi - lo) / 15)%float = Some lut ->
  gray4_to_bgrx src width height lo hi
    = Some (gray_pixels (lut_at lut <$> take (Z.to_nat (width * height)) (unpack4 src))).
Proof.
  intros Hn Hbound Hbytes Hlen Hlut.
  pose proof (gray_lut_is_table _ _ _ _ _ Hlut) as Htab.
  unfold gray4_to_bgrx.
  rewrite (c_int_small (width * height)) by lia.
  rewrite bytearray_zeros by done. cbn [mbind option_bind].
  rewrite Hlut. cbn [mbind option_bind].
  pose proof (gray4_loop_spec lut (Z.to_nat (width * height)) Htab
                0%nat 0%nat (Z.to_nat (width * height)) [] src []) as H.
  cbn [app Nat.add] in H. rewrite Z2Nat.id in H by done.
  apply H; try done; simpl; lia.
Qed.



Lemma fmap_ext_range (f g : Z -> Z) (n : Z) (l : list Z) :
  (forall v, 0 <= v < n -> f v = g v) ->
  Forall (fun v => 0 <= v < n) l -> f <$> l = g <$> l.
Proof.
  intros Hfg. induction 1 as [|v l Hv _ IH]; [done|].
  cbn [fmap list_fmap]. rewrite Hfg by done. f_equal. exact IH.
Qed.

Lemma sixteen_cases (P : Z -> Prop) :
  P 0 -> P 1 -> P 2 -> P 3 -> P 4 -> P 5 -> P 6 -> P 7 ->
  P 8 -> P 9 -> P 10 -> P 11 -> P 12 -> P 13 -> P 14 -> P 15 ->
  forall v, 0 <= v < 16 -> P v.
Proof.
  intros ? ? ? ? ? ? ? ? ? ? ? ? ? ? ? ? v Hv.
  assert (v = 0 \/ v = 1 \/ v = 2 \/ v = 3 \/ v = 4 \/ v = 5 \/ v = 6 \/ v = 7 \/
          v = 8 \/ v = 9 \/ v = 10 \/ v = 11 \/ v = 12 \/ v = 13 \/ v = 14 \/ v = 15)
    as Hc by lia.
  repeat (destruct Hc as [->|Hc]; [done|]). by subst.
Qed.



(** ** One bit per sample *)

Lemma bit_range (x : Z) : 0 <= Z.land x 1 < 2.
Proof.
  change (Z.land x 1) with (Z.land x (Z.ones 1)).
  rewrite Z.land_ones by lia. apply Z.mod_pos_bound. lia.
Qed.

Lemma gray_pixels_app (l1 l2 : list Z) :
  gray_pixels (l1 ++ l2) = gray_pixels l1 ++ gray_pixels l2.
Proof. induction l1 as [|g l1 IH]; [done|]. simpl. by rewrite IH. Qed.

Lemma bits_from_length (n : nat) (bit bv : Z) : List.length (bits_from n bit bv) = n.
Proof. revert bit. induction n as [|n IH]; intros bit; [done|]. simpl. by rewrite IH. Qed.

Lemma bits_from_range (n : nat) (bit bv : Z) :
  Forall (fun v => 0 <= v < 2) (bits_from n bit bv).
Proof.
  revert bit. induction n as [|n IH]; intros bit; [constructor|].
  cbn [bits_from]. constructor; [apply bit_range|apply IH].
Qed.

Lemma gray1_bits_spec (lut : list Z) (bv : Z) (n : nat) :
  is_table 2 lut ->
  forall (bit : Z) (s r : nat) (pre : list Z),
    List.length pre = (4 * s)%nat ->
    4 * Z.of_nat (s + r) < 2 ^ 31 ->
    gray1_bits n bit bv (Z.of_nat s) (Z.of_nat (s + r)) lut
      (pre ++ replicate (4 * r) 0)
      = Some (Z.of_nat (s + Nat.min n r),
              (pre ++ gray_pixels (lut_at lut <$> take r (bits_from n bit bv)))
                ++ replicate (4 * (r - n)) 0).
Proof.
  intros Hlut.
  induction n as [|n IH]; intros bit s r pre Hp Hbound.
  - cbn [gray1_bits bits_from]. rewrite take_nil. cbn [fmap list_fmap gray_pixels].
    by rewrite Nat.add_0_r, Nat.sub_0_r, app_nil_r.
  - cbn [gray1_bits].
    destruct r as [|r].
    { destruct (Z.geb_spec (Z.of_nat s) (Z.of_nat (s + 0))); [|lia].
      rewrite take_0. cbn [fmap list_fmap gray_pixels].
      by rewrite Nat.min_0_r, Nat.add_0_r, !app_nil_r. }
    destruct (Z.geb_spec (Z.of_nat s) (Z.of_nat (s + S r))); [lia|].
    destruct (table_rd 2 lut _ Hlut (bit_range (Z.shiftr bv (7 - bit))))
      as [Hrd Hg].
    rewrite Hrd. cbn [mbind option_bind].
    rewrite write_gray by (done || lia).
    cbn [mbind option_bind].
    rewrite (c_int_small (Z.of_nat s + 1)) by lia.
    replace (Z.of_nat s + 1) with (Z.of_nat (S s)) by lia.
    replace (Z.of_nat (s + S r)) with (Z.of_nat (S s + r)) by lia.
    rewrite IH; [|rewrite length_app; simpl; lia|lia].
    cbn [bits_from take fmap list_fmap gray_pixels].
    replace (S s + Nat.min n r)%nat with (s + Nat.min (S n) (S r))%nat
      by (simpl; lia).
    replace (S r - S n)%nat with (r - n)%nat by lia.
    by rewrite <- !app_assoc.
Qed.

Lemma gray1_loop_spec (lut : list Z) (fuel : nat) :
  is_table 2 lut ->
  forall (s j r : nat) (srcpre rest pre : list Z),
    List.length srcpre = j ->
    List.length pre = (4 * s)%nat ->
    (j <= s)%nat ->
    (r <= fuel)%nat ->
    (r <= 8 * List.length rest)%nat ->
    4 * Z.of_nat (s + r) < 2 ^ 31 ->
    gray1_loop fuel (Z.of_nat s) (Z.of_nat j) (Z.of_nat (s + r))
      (srcpre ++ rest) lut (pre ++ replicate (4 * r) 0)
      = Some (pre ++ gray_pixels (lut_at lut <$> take r (unpack1 rest))).
Proof.
  intros Hlut.
  induction fuel as [|fuel IH];
    intros s j r srcpre rest pre Hsp Hp Hjs Hfuel Hlen Hbound.
  - assert (r = 0%nat) as -> by lia. cbn [gray1_loop].
    destruct (Z.ltb_spec (Z.of_nat s) (Z.of_nat (s + 0))); [lia|].
    by rewrite take_0.
  - cbn [gray1_loop].
    destruct r as [|r].
    { destruct (Z.ltb_spec (Z.of_nat s) (Z.of_nat (s + 0))); [lia|].
      by rewrite take_0. }
    destruct (Z.ltb_spec (Z.of_nat s) (Z.of_nat (s + S r))) as [_|]; [|lia].
    destruct rest as [|b rest]; [simpl in Hlen; lia|].
    rewrite (rd_at _ srcpre rest b (Z.of_nat j)); [|done|lia].
    cbn [mbind option_bind].
    rewrite (gray1_bits_spec lut b 8 Hlut 0 s (S r) pre Hp Hbound).
    cbn [mbind option_bind].
    rewrite (c_int_small (Z.of_nat j + 1)) by lia.
    replace (Z.of_nat j + 1) with (Z.of_nat (S j)) by lia.
    replace (Z.of_nat (s + S r))
      with (Z.of_nat ((s + Nat.min 8 (S r)) + (S r - 8))) by lia.
    specialize (IH (s + Nat.min 8 (S r))%nat (S j) (S r - 8)%nat
                  (srcpre ++ [b]) rest
                  (pre ++ gray_pixels (lut_at lut <$> take (S r) (bits_from 8 0 b)))).
    rewrite <- (app_assoc srcpre [b] rest) in IH. cbn [app] in IH.
    rewrite IH.
    + cbn [unpack1]. rewrite take_app, bits_from_length.
      by rewrite fmap_app, gray_pixels_app, <- app_assoc.
    + rewrite length_app. simpl. lia.
    + rewrite length_app.
      assert (forall l, List.length (gray_pixels l) = (4 * List.length l)%nat) as Hgl.
      { induction l as [|x l IHl]; simpl; lia. }
      rewrite Hgl, length_fmap, length_take, bits_from_length. lia.
    + lia.
    + lia.
    + simpl in Hlen. lia.
    + lia.
Qed.

Lemma unpack1_length (src : list Z) :
  List.length (unpack1 src) = (8 * List.length src)%nat.
Proof.
  induction src as [|b src IH]; [done|].
  cbn [unpack1]. rewrite length_app, bits_from_length, IH. simpl. lia.
Qed.

Lemma unpack1_range (src : list Z) : Forall (fun v => 0 <= v < 2) (unpack1 src).
Proof.
  induction src as [|b src IH]; [constructor|].
  cbn [unpack1]. apply Forall_app. split; [apply bits_from_range|exact IH].
Qed.



(** ** Two bits per sample *)

Lemma pair_range (x : Z) : 0 <= Z.land x 3 < 4.
Proof.
  change (Z.land x 3) with (Z.land x (Z.ones 2)).
  rewrite Z.land_ones by lia. apply Z.mod_pos_bound. lia.
Qed.

Lemma pairs_from_length (i : nat) (bv : Z) :
  List.length (pairs_from i bv) = (4 - i)%nat.
Proof. unfold pairs_from. by rewrite length_fmap, length_drop. Qed.

Lemma pairs_from_range (i : nat) (bv : Z) :
  Forall (fun v => 0 <= v < 4) (pairs_from i bv).
Proof.
  unfold pairs_from. apply Forall_fmap, Forall_forall.
  intros sh _. apply pair_range.
Qed.

Lemma pairs_from_step (i : nat) (bv : Z) :
  (i < 4)%nat ->
  exists shift, rd gray2_shifts (Z.of_nat i) = Some shift /\
    pairs_from i bv = Z.land (Z.shiftr bv shift) 3 :: pairs_from (S i) bv.
Proof.
  intros Hi.
  destruct i as [|[|[|[|i]]]]; try lia; eexists; (split; [reflexivity|reflexivity]).
Qed.

Lemma gray2_samples_spec (lut srcpre rest : list Z) (b : Z) (n : nat) :
  is_table 4 lut ->
  forall (i s r : nat) (pre : list Z),
    (i + n = 4)%nat ->
    List.length pre = (4 * s)%nat ->
    4 * Z.of_nat (s + r) < 2 ^ 31 ->
    gray2_samples n (Z.of_nat i) (Z.of_nat (List.length srcpre)) (Z.of_nat s)
      (Z.of_nat (s + r)) (srcpre ++ b :: rest) lut (pre ++ replicate (4 * r) 0)
      = Some (Z.of_nat (s + Nat.min n r),
              (pre ++ gray_pixels (lut_at lut <$> take r (pairs_from i b)))
                ++ replicate (4 * (r - n)) 0).
Proof.
  intros Hlut.
  induction n as [|n IH]; intros i s r pre Hin Hp Hbound.
  - cbn [gray2_samples].
    assert (pairs_from i b = []) as ->.
    { apply length_zero_iff_nil. rewrite pairs_from_length. lia. }
    rewrite take_nil. cbn [fmap list_fmap gray_pixels].
    by rewrite Nat.add_0_r, Nat.sub_0_r, app_nil_r.
  - cbn [gray2_samples].
    destruct r as [|r].
    { destruct (Z.geb_spec (Z.of_nat s) (Z.of_nat (s + 0))); [|lia].
      rewrite take_0. cbn [fmap list_fmap gray_pixels].
      by rewrite Nat.min_0_r, Nat.add_0_r, !app_nil_r. }
    destruct (Z.geb_spec (Z.of_nat s) (Z.of_nat (s + S r))); [lia|].
    rewrite (rd_at _ srcpre rest b (Z.of_nat (List.length srcpre))); [|done|done].
    cbn [mbind option_bind].
    destruct (pairs_from_step i b) as (shift & Hsh & Hpairs); [lia|].
    rewrite Hsh. cbn [mbind option_bind].
    destruct (table_rd 4 lut _ Hlut (pair_range (Z.shiftr b shift))) as [Hrd Hg].
    rewrite Hrd. cbn [mbind option_bind].
    rewrite write_gray by (done || lia).
    cbn [mbind option_bind].
    rewrite (c_int_small (Z.of_nat s + 1)) by lia.
    replace (Z.of_nat s + 1) with (Z.of_nat (S s)) by lia.
    replace (Z.of_nat i + 1) with (Z.of_nat (S i)) by lia.
    replace (Z.of_nat (s + S r)) with (Z.of_nat (S s + r)) by lia.
    rewrite IH; [|lia|rewrite length_app; simpl; lia|lia].
    rewrite Hpairs. cbn [take fmap list_fmap gray_pixels].
    replace (S s + Nat.min n r)%nat with (s + Nat.min (S n) (S r))%nat
      by (simpl; lia).
    replace (S r - S n)%nat with (r - n)%nat by lia.
    by rewrite <- !app_assoc.
Qed.

Lemma gray2_loop_spec (lut : list Z) (fuel : nat) :
  is_table 4 lut ->
  forall (s r : nat) (srcpre rest pre : list Z),
    List.length pre = (4 * s)%nat ->
    (List.length srcpre <= s)%nat ->
    (r <= fuel)%nat ->
    (r <= 4 * List.length rest)%nat ->
    4 * Z.of_nat (s + r) < 2 ^ 31 ->
    gray2_loop fuel (Z.of_nat s) (Z.of_nat (List.length srcpre)) (Z.of_nat (s + r))
      (srcpre ++ rest) lut (pre ++ replicate (4 * r) 0)
      = Some (pre ++ gray_pixels (lut_at lut <$> take r (unpack2 rest))).
Proof.
  intros Hlut.
  induction fuel as [|fuel IH];
    intros s r srcpre rest pre Hp Hjs Hfuel Hlen Hbound.
  - assert (r = 0%nat) as -> by lia. cbn [gray2_loop].
    destruct (Z.ltb_spec (Z.of_nat s) (Z.of_nat (s + 0))); [lia|].
    by rewrite take_0.
  - cbn [gray2_loop].
    destruct r as [|r].
    { destruct (Z.ltb_spec (Z.of_nat s) (Z.of_nat (s + 0))); [lia|].
      by rewrite take_0. }
    destruct (Z.ltb_spec (Z.of_nat s) (Z.of_nat (s + S r))) as [_|]; [|lia].
    destruct rest as [|b rest]; [simpl in Hlen; lia|].
    pose proof (gray2_samples_spec lut srcpre rest b 4 Hlut 0 s (S r) pre
                  eq_refl Hp Hbound) as Hin.
    change (Z.of_nat 0) with 0 in Hin. rewrite Hin.
    cbn [mbind option_bind].
    rewrite (c_int_small (Z.of_nat (List.length srcpre) + 1)) by lia.
    replace (Z.of_nat (List.length srcpre) + 1)
      with (Z.of_nat (List.length (srcpre ++ [b])))
      by (rewrite length_app; simpl; lia).
    replace (Z.of_nat (s + S r))
      with (Z.of_nat ((s + Nat.min 4 (S r)) + (S r - 4))) by lia.
    specialize (IH (s + Nat.min 4 (S r))%nat (S r - 4)%nat
                  (srcpre ++ [b]) rest
                  (pre ++ gray_pixels (lut_at lut <$> take (S r) (pairs_from 0 b)))).
    rewrite <- (app_assoc srcpre [b] rest) in IH. cbn [app] in IH.
    rewrite IH.
    + cbn [unpack2]. rewrite take_app, pairs_from_length.
      by rewrite fmap_app, gray_pixels_app, <- app_assoc.
    + rewrite length_app.
      assert (forall l, List.length (gray_pixels l) = (4 * List.length l)%nat) as Hgl.
      { induction l as [|x l IHl]; simpl; lia. }
      rewrite Hgl, length_fmap, length_take, pairs_from_length. lia.
    + rewrite length_app. simpl. lia.
    + lia.
    + simpl in Hlen. lia.
    + lia.
Qed.

Lemma unpack2_length (src : list Z) :
  List.length (unpack2 src) = (4 * List.length src)%nat.
Proof.
  induction src as [|b src IH]; [done|].
  cbn [unpack2]. rewrite length_app, pairs_from_length, IH. simpl. lia.
Qed.

Lemma unpack2_range (src : list Z) : Forall (fun v => 0 <= v < 4) (unpack2 src).
Proof.
  induction src as [|b src IH]; [constructor|].
  cbn [unpack2]. apply Forall_app. split; [apply pairs_from_range|exact IH].
Qed.



(** * Rows padded to bytes: RGB at 4 bits per sample *)

Lemma unpack4_lookup (rest : list Z) :
  forall si : nat,
    unpack4 rest !! si
      = (fun b => if Nat.even si then Z.land (Z.shiftr b 4) 15 else Z.land b 15)
          <$> rest !! (si / 2)%nat.
Proof.
  induction rest as [|b rest IH]; intros si.
  - by rewrite !lookup_nil.
  - destruct si as [|[|si]]; [done|done|].
    cbn [unpack4 lookup list_lookup].
    replace (S (S si) / 2)%nat with (S (si / 2))%nat.
    + cbn [lookup list_lookup]. rewrite IH. done.
    + replace (S (S si)) with (si + 1 * 2)%nat by lia.
      rewrite Nat.div_add by lia. lia.
Qed.

Lemma sample4_spec (srcpre rowrest : list Z) (si : nat) (v : Z) :
  unpack4 rowrest !! si = Some v ->
  Z.of_nat (List.length srcpre) + Z.of_nat si < 2 ^ 31 ->
  sample4 (srcpre ++ rowrest) (Z.of_nat (List.length srcpre)) (Z.of_nat si) = Some v.
Proof.
  intros Hv Hb. rewrite unpack4_lookup in Hv.
  destruct (rowrest !! (si / 2)%nat) as [b|] eqn:Hbyte; [|done].
  injection Hv as <-.
  unfold sample4.
  assert (Z.quot (Z.of_nat si) 2 = Z.of_nat (si / 2)) as Hq.
  { rewrite Z.quot_div_nonneg by lia. by rewrite Nat2Z.inj_div. }
  assert (Z.rem (Z.of_nat si) 2 = Z.of_nat (si mod 2)) as Hr.
  { rewrite Z.rem_mod_nonneg by lia. by rewrite Nat2Z.inj_mod. }
  rewrite Hq, Hr.
  pose proof (Nat.div_mod_eq si 2) as Hdm.
  pose proof (Nat.mod_upper_bound si 2 ltac:(lia)) as Hm.
  rewrite c_int_small by lia.
  rewrite rd_lookup by lia.
  replace (Z.to_nat (Z.of_nat (List.length srcpre) + Z.of_nat (si / 2)))
    with (List.length srcpre + si / 2)%nat by lia.
  rewrite lookup_app_r by lia.
  replace (List.length srcpre + si / 2 - List.length srcpre)%nat
    with (si / 2)%nat by lia.
  rewrite Hbyte. cbn [mbind option_bind]. f_equal.
  destruct (Nat.even si) eqn:He.
  - apply Nat.even_spec in He. destruct He as [k ->].
    replace ((2 * k) mod 2)%nat with 0%nat; [done|].
    rewrite Nat.mul_comm. by rewrite Nat.Div0.mod_mul.
  - assert (Nat.odd si = true) as Ho by (by rewrite <- Nat.negb_even, He).
    apply Nat.odd_spec in Ho. destruct Ho as [k ->].
    replace ((2 * k + 1) mod 2)%nat with 1%nat; [done|].
    rewrite Nat.add_comm, Nat.mul_comm, Nat.Div0.mod_add. done.
Qed.

Lemma gray_lut_entry (n : nat) :
  forall (i : Z) (lo scale : float) (lut : list Z),
    gray_lut n i lo scale = Some lut ->
    forall k : nat, (k < n)%nat ->
      to_byte (decode_sample lo scale (i + Z.of_nat k)) = Some (lut_at lut (Z.of_nat k)).
Proof.
  induction n as [|n IH]; intros i lo scale lut H k Hk; [lia|].
  cbn [gray_lut] in H.
  destruct (to_byte (decode_sample lo scale i)) as [v|] eqn:Hv; [|done].
  destruct (gray_lut n (i + 1) lo scale) as [rest|] eqn:Hrest; [|done].
  injection H as <-.
  destruct k as [|k].
  - by rewrite Z.add_0_r.
  - replace (i + Z.of_nat (S k)) with (i + 1 + Z.of_nat k) by lia.
    rewrite (IH _ _ _ _ Hrest k) by lia.
    unfold lut_at. by rewrite !Nat2Z.id.
Qed.

Lemma table_entry (lo scale : float) (lut : list Z) (v : Z) :
  gray_lut 16 0 lo scale = Some lut ->
  0 <= v < 16 ->
  to_byte (decode_sample lo scale v) = Some (lut_at lut v) /\ is_byte (lut_at lut v).
Proof.
  intros Hlut Hv.
  pose proof (gray_lut_entry 16 0 lo scale lut Hlut (Z.to_nat v) ltac:(lia)) as H.
  rewrite Z.add_0_l, Z2Nat.id in H by lia.
  split; [done|]. by eapply to_byte_is_byte.
Qed.

Section Rgb4.

Variables (r_min g_min b_min r_scale g_scale b_scale : float).
Variables (r_lut g_lut b_lut : list Z).
Hypothesis Hr_lut : gray_lut 16 0 r_min r_scale = Some r_lut.
Hypothesis Hg_lut : gray_lut 16 0 g_min g_scale = Some g_lut.
Hypothesis Hb_lut : gray_lut 16 0 b_min b_scale = Some b_lut.

Lemma rgb4_pixel_spec (srcpre rowrest pre : list Z) (row col w later : nat)
    (rv gv bv : Z) :
  Forall is_byte rowrest ->
  List.length pre = (4 * (row * w + col))%nat ->
  unpack4 rowrest !! (3 * col)%nat = Some rv ->
  unpack4 rowrest !! (3 * col + 1)%nat = Some gv ->
  unpack4 rowrest !! (3 * col + 2)%nat = Some bv ->
  Z.of_nat (List.length srcpre) + Z.of_nat (3 * col + 2) < 2 ^ 31 ->
  4 * Z.of_nat (row * w + col + 1) < 2 ^ 31 ->
  rgb4_pixel (Z.of_nat row) (Z.of_nat col) (Z.of_nat w)
    (Z.of_nat (List.length srcpre))
    (r_min, g_min, b_min) (r_scale, g_scale, b_scale)
    (srcpre ++ rowrest) (pre ++ replicate (4 * S later) 0)
    = Some ((pre ++ [lut_at b_lut bv; lut_at g_lut gv; lut_at r_lut rv; 255])
              ++ replicate (4 * later) 0).
Proof.
  intros Hbytes Hp Hrv Hgv Hbv Hsrc Hbound.
  pose proof (unpack4_range rowrest Hbytes) as Hrange.
  rewrite Forall_lookup in Hrange.
  pose proof (Hrange _ _ Hrv) as Hr. pose proof (Hrange _ _ Hgv) as Hg.
  pose proof (Hrange _ _ Hbv) as Hb. cbv beta in Hr, Hg, Hb.
  destruct (table_entry _ _ _ _ Hr_lut Hr) as [Htr Hbr].
  destruct (table_entry _ _ _ _ Hg_lut Hg) as [Htg Hbg].
  destruct (table_entry _ _ _ _ Hb_lut Hb) as [Htb Hbb].
  unfold rgb4_pixel.
  rewrite (c_int_small (Z.of_nat col * 3)) by lia.
  rewrite (c_int_small (Z.of_nat col * 3 + 1)) by lia.
  rewrite (c_int_small (Z.of_nat col * 3 + 2)) by lia.
  rewrite (c_int_small (Z.of_nat row * Z.of_nat w)) by nia.
  rewrite (c_int_small (Z.of_nat row * Z.of_nat w + Z.of_nat col)) by nia.
  rewrite (c_int_small ((Z.of_nat row * Z.of_nat w + Z.of_nat col) * 4)) by nia.
  replace (Z.of_nat col * 3) with (Z.of_nat (3 * col)) by lia.
  replace (Z.of_nat (3 * col) + 1) with (Z.of_nat (3 * col + 1)) by lia.
  replace (Z.of_nat (3 * col) + 2) with (Z.of_nat (3 * col + 2)) by lia.
  rewrite (sample4_spec srcpre rowrest (3 * col) rv Hrv) by lia.
  rewrite (sample4_spec srcpre rowrest (3 * col + 1) gv Hgv) by lia.
  rewrite (sample4_spec srcpre rowrest (3 * col + 2) bv Hbv) by lia.
  cbn [mbind option_bind]. rewrite Htb, Htg, Htr. cbn [mbind option_bind].
  rewrite replicate_4S.
  rewrite (wr_at _ pre (0 :: 0 :: 0 :: replicate (4 * later) 0) 0 (lut_at b_lut bv));
    [|done|nia].
  cbn [mbind option_bind].
  rewrite (wr_at _ (pre ++ [lut_at b_lut bv]) (0 :: 0 :: replicate (4 * later) 0) 0
             (lut_at g_lut gv));
    [|by rewrite <- app_assoc|rewrite length_app; simpl; nia].
  cbn [mbind option_bind].
  rewrite (wr_at _ ((pre ++ [lut_at b_lut bv]) ++ [lut_at g_lut gv])
             (0 :: replicate (4 * later) 0) 0 (lut_at r_lut rv));
    [|by rewrite <- !app_assoc|rewrite !length_app; simpl; nia].
  cbn [mbind option_bind].
  rewrite (wr_at _ (((pre ++ [lut_at b_lut bv]) ++ [lut_at g_lut gv]) ++ [lut_at r_lut rv])
             (replicate (4 * later) 0) 0 255);
    [|by rewrite <- !app_assoc|rewrite !length_app; simpl; nia].
  by rewrite <- !app_assoc.
Qed.

Lemma rgb4_cols_spec (srcpre rowrest : list Z) (row w later : nat) (n : nat) :
  Forall is_byte rowrest ->
  forall (col : nat) (spre srest pre : list Z),
    take (3 * (col + n)) (unpack4 rowrest) = spre ++ srest ->
    List.length spre = (3 * col)%nat ->
    List.length srest = (3 * n)%nat ->
    List.length pre = (4 * (row * w + col))%nat ->
    Z.of_nat (List.length srcpre) + Z.of_nat (3 * (col + n)) < 2 ^ 31 ->
    4 * Z.of_nat (row * w + col + n) < 2 ^ 31 ->
    rgb4_cols n (Z.of_nat row) (Z.of_nat col) (Z.of_nat w)
      (Z.of_nat (List.length srcpre))
      (r_min, g_min, b_min) (r_scale, g_scale, b_scale)
      (srcpre ++ rowrest) (pre ++ replicate (4 * (n + later)) 0)
      = Some ((pre ++ table_pixels r_lut g_lut b_lut srest)
                ++ replicate (4 * later) 0).
Proof.
  intros Hbytes.
  induction n as [|n IH]; intros col spre srest pre Htake Hsp Hsr Hp Hsrc Hbound.
  - destruct srest; [|simpl in Hsr; lia]. cbn [rgb4_cols table_pixels].
    by rewrite app_nil_r.
  - destruct srest as [|rv [|gv [|bv srest]]]; simpl in Hsr; try lia.
    assert (forall (k : nat) (x : Z),
              (spre ++ rv :: gv :: bv :: srest) !! k = Some x ->
              unpack4 rowrest !! k = Some x) as Hlk.
    { intros k x Hx. rewrite <- Htake in Hx.
      apply lookup_take_Some in Hx. tauto. }
    cbn [rgb4_cols]. change (S n + later)%nat with (S (n + later)).
    rewrite (rgb4_pixel_spec srcpre rowrest pre row col w (n + later) rv gv bv);
      try done; try lia.
    + cbn [mbind option_bind].
      replace (Z.of_nat col + 1) with (Z.of_nat (S col)) by lia.
      rewrite (IH (S col) (spre ++ [rv; gv; bv]) srest
                 (pre ++ [lut_at b_lut bv; lut_at g_lut gv; lut_at r_lut rv; 255])).
      * cbn [table_pixels]. by rewrite <- !app_assoc.
      * rewrite <- app_assoc. cbn [app].
        by replace (S col + n)%nat with (col + S n)%nat by lia.
      * rewrite length_app. simpl. lia.
      * lia.
      * rewrite length_app. simpl. lia.
      * lia.
      * lia.
    + apply Hlk. rewrite lookup_app_r by lia.
      by replace (3 * col - List.length spre)%nat with 0%nat by lia.
    + apply Hlk. rewrite lookup_app_r by lia.
      by replace (3 * col + 1 - List.length spre)%nat with 1%nat by lia.
    + apply Hlk. rewrite lookup_app_r by lia.
      by replace (3 * col + 2 - List.length spre)%nat with 2%nat by lia.
Qed.

Lemma table_pixels_app (l1 l2 : list Z) (k : nat) :
  List.length l1 = (3 * k)%nat ->
  table_pixels r_lut g_lut b_lut (l1 ++ l2)
    = table_pixels r_lut g_lut b_lut l1 ++ table_pixels r_lut g_lut b_lut l2.
Proof.
  revert l1. induction k as [|k IH]; intros l1 Hl.
  - by destruct l1.
  - destruct l1 as [|r [|g [|b l1]]]; simpl in Hl; try lia.
    cbn [app table_pixels]. rewrite IH by lia. done.
Qed.

Lemma table_pixels_length (l : list Z) (k : nat) :
  List.length l = (3 * k)%nat ->
  List.length (table_pixels r_lut g_lut b_lut l) = (4 * k)%nat.
Proof.
  revert l. induction k as [|k IH]; intros l Hl.
  - by destruct l.
  - destruct l as [|r [|g [|b l]]]; simpl in Hl; try lia.
    cbn [table_pixels List.length]. rewrite IH by lia. lia.
Qed.

Lemma rgb4_rows_spec (w bpr : nat) (n : nat) :
  (3 * w <= 2 * bpr)%nat ->
  forall (row : nat) (srcpre rest pre : list Z),
    Forall is_byte rest ->
    List.length srcpre = (row * bpr)%nat ->
    List.length pre = (4 * (row * w))%nat ->
    (n * bpr <= List.length rest)%nat ->
    Z.of_nat (List.length srcpre) + Z.of_nat (List.length rest) < 2 ^ 31 ->
    4 * Z.of_nat ((row + n) * w) < 2 ^ 31 ->
    rgb4_rows n (Z.of_nat row) (Z.of_nat w) (Z.of_nat bpr)
      (r_min, g_min, b_min) (r_scale, g_scale, b_scale)
      (srcpre ++ rest) (pre ++ replicate (4 * (n * w)) 0)
      = Some (pre ++ table_pixels r_lut g_lut b_lut (unpack_rows4 n bpr (3 * w) rest)).
Proof.
  intros Hbpr.
  induction n as [|n IH];
    intros row srcpre rest pre Hbytes Hsp Hp Hlen Hsrc Hbound.
  - cbn [rgb4_rows unpack_rows4 table_pixels]. done.
  - cbn [rgb4_rows].
    rewrite (c_int_small (Z.of_nat row * Z.of_nat bpr)) by nia.
    replace (Z.of_nat row * Z.of_nat bpr) with (Z.of_nat (List.length srcpre)) by nia.
    rewrite Nat2Z.id.
    assert (List.length (take (3 * w) (unpack4 rest)) = (3 * w)%nat) as Htl.
    { rewrite length_take, unpack4_length. simpl in Hlen. nia. }
    replace (4 * (S n * w))%nat with (4 * (w + n * w))%nat by lia.
    pose proof (rgb4_cols_spec srcpre rest row w (n * w) w Hbytes 0%nat []
                  (take (3 * w) (unpack4 rest)) pre) as Hcols.
    change (Z.of_nat 0) with 0 in Hcols.
    rewrite Hcols; try done; try (simpl in *; nia).
    cbn [mbind option_bind].
    replace (Z.of_nat row + 1) with (Z.of_nat (S row)) by lia.
    rewrite <- (take_drop bpr rest) at 1. rewrite app_assoc.
    rewrite (IH (S row) (srcpre ++ take bpr rest) (drop bpr rest)
               (pre ++ table_pixels r_lut g_lut b_lut (take (3 * w) (unpack4 rest)))).
    + cbn [unpack_rows4].
      rewrite (table_pixels_app _ _ w) by done.
      by rewrite <- app_assoc.
    + by apply Forall_drop.
    + rewrite length_app, length_take. simpl in Hlen. nia.
    + rewrite length_app, (table_pixels_length _ w) by done. nia.
    + rewrite length_drop. simpl in Hlen. nia.
    + rewrite length_app, length_take, length_drop. simpl in Hlen. nia.
    + replace (S row + n)%nat with (row + S n)%nat by lia. done.
Qed.

End Rgb4.

Lemma unpack_rows4_length (h bpr spr : nat) :
  (spr <= 2 * bpr)%nat ->
  forall src, (h * bpr <= List.length src)%nat ->
    List.length (unpack_rows4 h bpr spr src) = (h * spr)%nat.
Proof.
  intros Hs. induction h as [|h IH]; intros src Hlen; [done|].
  cbn [unpack_rows4]. rewrite length_app, length_take, unpack4_length.
  rewrite IH by (rewrite length_drop; simpl in Hlen; lia).
  simpl in Hlen. nia.
Qed.

Lemma unpack_rows4_range (h bpr spr : nat) :
  forall src, Forall is_byte src ->
    Forall (fun v => 0 <= v < 16) (unpack_rows4 h bpr spr src).
Proof.
  induction h as [|h IH]; intros src Hbytes; [constructor|].
  cbn [unpack_rows4]. apply Forall_app. split.
  - by apply Forall_take, unpack4_range.
  - by apply IH, Forall_drop.
Qed.

Lemma table_pixels_decode (r_lut g_lut b_lut : list Z) (n : nat) :
  forall samples, List.length samples = (3 * n)%nat ->
    table_pixels r_lut g_lut b_lut samples
      = bgrx_pixels (decode_rgb r_lut g_lut b_lut samples n) n.
Proof.
  induction n as [|n IH]; intros samples Hl.
  - by destruct samples.
  - destruct samples as [|r [|g [|b samples]]]; simpl in Hl; try lia.
    cbn [table_pixels decode_rgb bgrx_pixels]. by rewrite IH by lia.
Qed.

Lemma decode_rgb_table_bytes (r_lut g_lut b_lut : list Z) (n : nat) :
  is_table 16 r_lut -> is_table 16 g_lut -> is_table 16 b_lut ->
  forall samples, Forall (fun v => 0 <= v < 16) samples ->
    List.length samples = (3 * n)%nat ->
    Forall is_byte (decode_rgb r_lut g_lut b_lut samples n) /\
    List.length (decode_rgb r_lut g_lut b_lut samples n) = (3 * n)%nat.
Proof.
  intros Hr Hg Hb.
  induction n as [|n IH]; intros samples Hrange Hl.
  - by destruct samples.
  - destruct samples as [|r [|g [|b samples]]]; simpl in Hl; try lia.
    apply Forall_cons in Hrange as [H1 Hrange].
    apply Forall_cons in Hrange as [H2 Hrange].
    apply Forall_cons in Hrange as [H3 Hrange].
    destruct (IH samples Hrange) as [IH1 IH2]; [lia|].
    cbn [decode_rgb]. split.
    + constructor; [by apply (table_rd 16)|].
      constructor; [by apply (table_rd 16)|].
      constructor; [by apply (table_rd 16)|]. done.
    + simpl. lia.
Qed.

Lemma rgb4_exact (src r_lut g_lut b_lut : list Z) (width height : Z)
    (r_min r_max g_min g_max b_min b_max : float) :
  0 <= width -> 0 <= height ->
  4 * (width * height) < 2 ^ 31 ->
  12 * width + 7 < 2 ^ 31 ->
  Forall is_byte src ->
  height * ((12 * width + 7) / 8) <= Z.of_nat (List.length src) ->
  Z.of_nat (List.length src) < 2 ^ 31 ->
  channel_table r_min r_max r_lut ->
  channel_table g_min g_max g_lut ->
  channel_table b_min b_max b_lut ->
  rgb4_to_bgrx src width height [r_min; r_max; g_min; g_max; b_min; b_max]
    = Some (table_pixels r_lut g_lut b_lut
              (unpack_rows4 (Z.to_nat height) (Z.to_nat ((12 * width + 7) / 8))
                 (3 * Z.to_nat width) src)).
Proof.
  intros Hw Hh Hbound Hrow Hbytes Hlen Hsrc Hr Hg Hb.
  assert (0 <= (12 * width + 7) / 8) as Hbpr0 by (apply Z.div_pos; lia).
  assert (3 * width <= 2 * ((12 * width + 7) / 8)) as Hbpr
    by (Z.div_mod_to_equations; lia).
  unfold rgb4_to_bgrx.
  rewrite (c_int_small (width * height)) by nia.
  rewrite bytearray_zeros by nia.
  cbn [mbind option_bind decode_scales3 lookup list_lookup].
  rewrite (c_int_small (width * 3)) by lia.
  rewrite (c_int_small (width * 3 * 4)) by lia.
  rewrite (c_int_small (width * 3 * 4 + 7)) by lia.
  rewrite Z.quot_div_nonneg by lia.
  replace (width * 3 * 4 + 7) with (12 * width + 7) by lia.
  pose proof (rgb4_rows_spec r_min g_min b_min _ _ _ r_lut g_lut b_lut Hr Hg Hb
                (Z.to_nat width) (Z.to_nat ((12 * width + 7) / 8))
                (Z.to_nat height) ltac:(lia) 0%nat [] src []) as H.
  rewrite !Z2Nat.id in H by done.
  change (Z.of_nat 0) with 0 in H. cbn [app] in H.
  replace (4 * Z.to_nat (width * height))%nat
    with (4 * (Z.to_nat height * Z.to_nat width))%nat
    by (rewrite Z2Nat.inj_mul by done; lia).
  apply H; try done; simpl; nia.
Qed.



(** * Color key masking at 4 bits per sample *)

Lemma unpack_rows4_lookup (bpr spr : nat) (row : nat) :
  (spr <= 2 * bpr)%nat ->
  forall (h : nat) (src : list Z) (k : nat),
    (row < h)%nat -> (k < spr)%nat ->
    (h * bpr <= List.length src)%nat ->
    unpack_rows4 h bpr spr src !! (row * spr + k)%nat
      = unpack4 (drop (row * bpr) src) !! k.
Proof.
  intros Hs.
  induction row as [|row IH]; intros h src k Hrow Hk Hlen.
  - destruct h as [|h]; [lia|]. cbn [unpack_rows4]. simpl in Hlen.
    rewrite lookup_app_l
      by (rewrite length_take, unpack4_length; simpl; lia).
    simpl. rewrite drop_0. by rewrite lookup_take_lt by lia.
  - destruct h as [|h]; [lia|]. cbn [unpack_rows4]. simpl in Hlen.
    rewrite lookup_app_r
      by (rewrite length_take, unpack4_length; simpl; nia).
    rewrite length_take, unpack4_length.
    replace (S row * spr + k - Nat.min spr (2 * List.length src))%nat
      with (row * spr + k)%nat by nia.
    rewrite IH; [|lia|lia|rewrite length_drop; nia].
    rewrite drop_drop. by replace (bpr + row * bpr)%nat with (S row * bpr)%nat by lia.
Qed.

Section ColorKey4.

Variables (sample_data mask_color : list Z) (is_range : bool).
Variables (w h n bpr : nat).

Hypothesis Hbpr : (w * n <= 2 * bpr)%nat.
Hypothesis Hdata : (h * bpr <= List.length sample_data)%nat.
Hypothesis Hslen : Z.of_nat (List.length sample_data) < 2 ^ 31.
Hypothesis Hsamples : Z.of_nat (h * w * n) + Z.of_nat n < 2 ^ 31.
Hypothesis Hpixels : 4 * Z.of_nat (h * w) + 3 < 2 ^ 31.

(** The samples as [apply_color_key_mask_8] wants them. *)
Let unpacked : list Z := unpack_rows4 h bpr (w * n) sample_data.

Lemma unpacked_length : List.length unpacked = (h * (w * n))%nat.
Proof. unfold unpacked. by apply unpack_rows4_length. Qed.

(** A sample of a pixel read from the packed rows is the sample
    [apply_color_key_mask_8] reads at [pixel_idx * n + si]. *)
Lemma sample4_unpacked (row col si : nat) :
  (row < h)%nat -> (col < w)%nat -> (si < n)%nat ->
  sample4 sample_data (c_int (Z.of_nat row * Z.of_nat bpr))
    (c_int (c_int (Z.of_nat col * Z.of_nat n) + Z.of_nat si))
    = rd unpacked (c_int (c_int (Z.of_nat (row * w + col) * Z.of_nat n) + Z.of_nat si)).
Proof.
  intros Hrow Hcol Hsi.
  assert (col * n + si < w * n)%nat as Hk by nia.
  assert (row * bpr <= List.length sample_data)%nat as Hrb by nia.
  rewrite (c_int_small (Z.of_nat row * Z.of_nat bpr)) by nia.
  rewrite (c_int_small (Z.of_nat col * Z.of_nat n)) by nia.
  rewrite (c_int_small (Z.of_nat col * Z.of_nat n + Z.of_nat si)) by nia.
  rewrite (c_int_small (Z.of_nat (row * w + col) * Z.of_nat n)) by nia.
  rewrite (c_int_small (Z.of_nat (row * w + col) * Z.of_nat n + Z.of_nat si)) by nia.
  rewrite rd_lookup by lia.
  replace (Z.to_nat (Z.of_nat (row * w + col) * Z.of_nat n + Z.of_nat si))
    with (row * (w * n) + (col * n + si))%nat by nia.
  unfold unpacked. rewrite unpack_rows4_lookup by done.
  destruct (unpack4 (drop (row * bpr) sample_data) !! (col * n + si)%nat)
    as [v|] eqn:Hv.
  - pose proof (sample4_spec (take (row * bpr) sample_data)
                  (drop (row * bpr) sample_data) (col * n + si) v Hv) as Hs.
    rewrite take_drop, length_take in Hs.
    replace (Nat.min (row * bpr) (List.length sample_data)) with (row * bpr)%nat
      in Hs by lia.
    replace (Z.of_nat row * Z.of_nat bpr) with (Z.of_nat (row * bpr)) by lia.
    replace (Z.of_nat col * Z.of_nat n + Z.of_nat si)
      with (Z.of_nat (col * n + si)) by lia.
    apply Hs. nia.
  - apply lookup_ge_None in Hv. rewrite unpack4_length, length_drop in Hv. nia.
Qed.

Lemma match4_unpacked (row col : nat) (cnt : nat) :
  (row < h)%nat -> (col < w)%nat ->
  forall si : nat,
    (si + cnt <= n)%nat ->
    match4 cnt (Z.of_nat si) (c_int (Z.of_nat col * Z.of_nat n))
      (Z.of_nat row) (Z.of_nat bpr) is_range sample_data mask_color
      = if is_range
        then match_range cnt (Z.of_nat si)
               (c_int (Z.of_nat (row * w + col) * Z.of_nat n)) unpacked mask_color
        else match_exact cnt (Z.of_nat si)
               (c_int (Z.of_nat (row * w + col) * Z.of_nat n)) unpacked mask_color.
Proof.
  intros Hrow Hcol.
  induction cnt as [|cnt IH]; intros si Hsi.
  - by destruct is_range.
  - cbn [match4 match_range match_exact].
    rewrite (sample4_unpacked row col si) by (done || lia).
    replace (Z.of_nat si + 1) with (Z.of_nat (S si)) by lia.
    rewrite (IH (S si)) by lia.
    by destruct is_range.
Qed.

(** A pixel of the 4-bit masking is an iteration of the 8-bit loop on the
    unpacked samples. *)
Lemma mask4_pixel_unpacked (row col : nat) (rest : nat) (pd : list Z) :
  (row < h)%nat -> (col < w)%nat ->
  mask8_loop (S rest) (Z.of_nat (row * w + col)) (Z.of_nat n) is_range
    unpacked mask_color pd
  = pd' ← mask4_pixel (Z.of_nat row) (Z.of_nat col) (Z.of_nat w) (Z.of_nat n)
            (Z.of_nat bpr) is_range sample_data mask_color pd;
    mask8_loop rest (Z.of_nat (row * w + col) + 1) (Z.of_nat n) is_range
      unpacked mask_color pd'.
Proof.
  intros Hrow Hcol.
  cbn [mask8_loop]. unfold mask4_pixel.
  rewrite unpacked_length.
  assert ((row * w + col + 1) * n <= h * (w * n))%nat as Hin by nia.
  rewrite (c_int_small (Z.of_nat (row * w + col) * Z.of_nat n)) by nia.
  rewrite (c_int_small (Z.of_nat (row * w + col) * Z.of_nat n + Z.of_nat n)) by nia.
  rewrite (c_int_small (Z.of_nat (h * (w * n)))) by nia.
  destruct (Z.gtb_spec (Z.of_nat (row * w + col) * Z.of_nat n + Z.of_nat n)
              (Z.of_nat (h * (w * n)))) as [Hgt|_]; [nia|].
  rewrite Nat2Z.id.
  pose proof (match4_unpacked row col n Hrow Hcol 0%nat ltac:(lia)) as Hm.
  change (Z.of_nat 0) with 0 in Hm. rewrite Hm.
  rewrite (c_int_small (Z.of_nat (row * w + col) * Z.of_nat n)) by nia.
  rewrite (c_int_small (Z.of_nat row * Z.of_nat w)) by nia.
  rewrite (c_int_small (Z.of_nat row * Z.of_nat w + Z.of_nat col)) by nia.
  replace (Z.of_nat row * Z.of_nat w + Z.of_nat col)
    with (Z.of_nat (row * w + col)) by lia.
  clear Hm.
  destruct (Bool.bool_dec is_range true) as [E|E].
  - rewrite E.
    destruct (match_range n 0 _ unpacked mask_color) as [[|]|]; reflexivity.
  - apply not_true_is_false in E. rewrite E.
    destruct (match_exact n 0 _ unpacked mask_color) as [[|]|]; reflexivity.
Qed.

Lemma mask4_cols_unpacked (row : nat) (cnt : nat) :
  (row < h)%nat ->
  forall (col rest : nat) (pd : list Z),
    (col + cnt <= w)%nat ->
    mask8_loop (cnt + rest) (Z.of_nat (row * w + col)) (Z.of_nat n) is_range
      unpacked mask_color pd
    = pd' ← mask4_cols cnt (Z.of_nat row) (Z.of_nat col) (Z.of_nat w) (Z.of_nat n)
              (Z.of_nat bpr) is_range sample_data mask_color pd;
      mask8_loop rest (Z.of_nat (row * w + col + cnt)) (Z.of_nat n) is_range
        unpacked mask_color pd'.
Proof.
  intros Hrow.
  induction cnt as [|cnt IH]; intros col rest pd Hcol.
  - cbn [mask4_cols Nat.add mbind option_bind]. by rewrite Nat.add_0_r.
  - change (S cnt + rest)%nat with (S (cnt + rest)).
    rewrite mask4_pixel_unpacked by (done || lia).
    cbn [mask4_cols].
    destruct (mask4_pixel _ _ _ _ _ _ _ _ pd) as [pd'|]; [|done].
    cbn [mbind option_bind].
    replace (Z.of_nat (row * w + col) + 1) with (Z.of_nat (row * w + S col)) by lia.
    replace (Z.of_nat col + 1) with (Z.of_nat (S col)) by lia.
    rewrite (IH (S col) rest pd') by lia.
    by replace (row * w + S col + cnt)%nat with (row * w + col + S cnt)%nat by lia.
Qed.

Lemma mask4_rows_unpacked (cnt : nat) :
  forall (row : nat) (pd : list Z),
    (row + cnt <= h)%nat ->
    mask4_rows cnt (Z.of_nat row) (Z.of_nat w) (Z.of_nat n) (Z.of_nat bpr)
      is_range sample_data mask_color pd
    = mask8_loop (cnt * w) (Z.of_nat (row * w)) (Z.of_nat n) is_range
        unpacked mask_color pd.
Proof.
  induction cnt as [|cnt IH]; intros row pd Hrow.
  - done.
  - cbn [mask4_rows]. rewrite Nat2Z.id.
    change (S cnt * w)%nat with (w + cnt * w)%nat.
    pose proof (mask4_cols_unpacked row w ltac:(lia) 0%nat (cnt * w)%nat pd
                  ltac:(lia)) as Hc.
    rewrite Nat.add_0_r in Hc. change (Z.of_nat 0) with 0 in Hc.
    rewrite Hc.
    destruct (mask4_cols _ _ _ _ _ _ _ _ _ pd) as [pd'|]; [|done].
    cbn [mbind option_bind].
    replace (Z.of_nat row + 1) with (Z.of_nat (S row)) by lia.
    rewrite IH by lia.
    by replace (S row * w)%nat with (row * w + w)%nat by lia.
Qed.

End ColorKey4.



(** The call of the witness clears the alpha byte of the first pixel, whose
    samples 1, 2, 3 are the first three nibbles of the first row; the
    fourth nibble is padding. *)
Example color_key_mask_4_sample :
  apply_color_key_mask_4 [30; 20; 10; 255; 60; 50; 40; 255] [18; 48; 69; 96]
    1 2 3 [1; 2; 3] false
    = Some [30; 20; 10; 0; 60; 50; 40; 255].
Proof. vm_compute. reflexivity. Qed.

(** * Twelve bits per sample *)

Lemma lor_bound (n x y : Z) :
  0 <= n -> 0 <= x < 2 ^ n -> 0 <= y < 2 ^ n -> 0 <= Z.lor x y < 2 ^ n.
Proof.
  intros Hn Hx Hy.
  split; [apply Z.lor_nonneg; lia|].
  destruct (Z.eq_dec x 0) as [->|Hx0]; [rewrite Z.lor_0_l; lia|].
  destruct (Z.eq_dec y 0) as [->|Hy0]; [rewrite Z.lor_0_r; lia|].
  assert (0 < Z.lor x y) as Hpos.
  { assert (0 <= Z.lor x y) by (apply Z.lor_nonneg; lia).
    destruct (Z.eq_dec (Z.lor x y) 0) as [E|]; [|lia].
    apply Z.lor_eq_0_iff in E. lia. }
  apply Z.log2_lt_pow2; [done|].
  rewrite Z.log2_lor by lia.
  apply Z.max_lub_lt; apply Z.log2_lt_pow2; lia.
Qed.

Lemma sample12_values (a b : Z) :
  is_byte a -> is_byte b ->
  0 <= Z.lor (Z.shiftl a 4) (Z.shiftr b 4) < 4096 /\
  0 <= Z.lor (Z.shiftl (Z.land a 15) 8) b < 4096.
Proof.
  unfold is_byte. intros Ha Hb.
  change 4096 with (2 ^ 12).
  split; apply lor_bound; try lia.
  - rewrite Z.shiftl_mul_pow2 by lia. change (2 ^ 4) with 16. lia.
  - rewrite Z.shiftr_div_pow2 by lia. change (2 ^ 4) with 16.
    split; [apply Z.div_pos; lia|].
    apply Z.div_lt_upper_bound; lia.
  - rewrite Z.shiftl_mul_pow2 by lia. change (2 ^ 8) with 256.
    change 15 with (Z.ones 4). rewrite Z.land_ones by lia.
    pose proof (Z.mod_pos_bound a (2 ^ 4) ltac:(lia)). change (2 ^ 4) with 16 in *.
    lia.
Qed.

Lemma unpack12_lookup (fuel : nat) :
  forall (rest : list Z) (k : nat) (v : Z),
    (List.length rest <= fuel)%nat ->
    unpack12 rest !! k = Some v ->
    exists a b,
      rest !! (3 * (k / 2) + k mod 2)%nat = Some a /\
      rest !! (3 * (k / 2) + k mod 2 + 1)%nat = Some b /\
      v = if Nat.even k then Z.lor (Z.shiftl a 4) (Z.shiftr b 4)
          else Z.lor (Z.shiftl (Z.land a 15) 8) b.
Proof.
  induction fuel as [|fuel IH]; intros rest k v Hlen Hv.
  - destruct rest; [done|simpl in Hlen; lia].
  - destruct rest as [|a [|b [|c rest]]]; try done.
    + destruct k as [|k]; [|done].
      injection Hv as <-. by exists a, b.
    + destruct k as [|[|k]].
      * injection Hv as <-. by exists a, b.
      * injection Hv as <-. by exists b, c.
      * cbn [unpack12 lookup list_lookup] in Hv.
        destruct (IH rest k v) as (a' & b' & Ha & Hb & Heq);
          [simpl in Hlen; lia|done|].
        exists a', b'.
        replace (S (S k) / 2)%nat with (S (k / 2))%nat
          by (replace (S (S k)) with (k + 1 * 2)%nat by lia;
              rewrite Nat.div_add by lia; lia).
        replace (S (S k) mod 2)%nat with (k mod 2)%nat
          by (replace (S (S k)) with (k + 1 * 2)%nat by lia;
              by rewrite Nat.Div0.mod_add).
        replace (3 * S (k / 2) + k mod 2)%nat
          with (S (S (S (3 * (k / 2) + k mod 2))))%nat by lia.
        split; [exact Ha|]. split; [exact Hb|]. exact Heq.
Qed.

Lemma even_mod2 (k : nat) : (k mod 2 = if Nat.even k then 0 else 1)%nat.
Proof.
  destruct (Nat.even k) eqn:He.
  - apply Nat.even_spec in He. destruct He as [j ->].
    rewrite Nat.mul_comm. by rewrite Nat.Div0.mod_mul.
  - assert (Nat.odd k = true) as Ho by (by rewrite <- Nat.negb_even, He).
    apply Nat.odd_spec in Ho. destruct Ho as [j ->].
    by rewrite Nat.add_comm, Nat.mul_comm, Nat.Div0.mod_add.
Qed.

Lemma sample12_spec (srcpre rowrest : list Z) (k : nat) (v : Z) :
  unpack12 rowrest !! k = Some v ->
  Z.of_nat (List.length srcpre) + Z.of_nat (List.length rowrest) < 2 ^ 31 ->
  12 * Z.of_nat k < 2 ^ 31 ->
  sample12 (srcpre ++ rowrest) (Z.of_nat (List.length srcpre)) (Z.of_nat k) = Some v.
Proof.
  intros Hv Hlen Hk.
  destruct (unpack12_lookup (List.length rowrest) rowrest k v (Nat.le_refl _) Hv)
    as (a & b & Ha & Hb & ->).
  pose proof (lookup_lt_Some _ _ _ Hb) as Hlt.
  pose proof (Nat.div_mod_eq k 2) as Hdm.
  pose proof (even_mod2 k) as Hm.
  unfold sample12.
  rewrite (c_int_small (Z.of_nat k * 12)) by lia.
  assert (Z.quot (Z.of_nat k * 12) 8 = Z.of_nat (3 * (k / 2) + k mod 2)) as Hq.
  { rewrite Z.quot_div_nonneg by lia.
    symmetry. apply (Z.div_unique_pos _ _ _ (4 * Z.of_nat (k mod 2))).
    - destruct (Nat.even k); rewrite Hm; lia.
    - lia. }
  assert (Z.rem (Z.of_nat k * 12) 8 = 4 * Z.of_nat (k mod 2)) as Hr.
  { rewrite Z.rem_mod_nonneg by lia.
    symmetry. apply (Z.mod_unique_pos _ _ (Z.of_nat (3 * (k / 2) + k mod 2))).
    - destruct (Nat.even k); rewrite Hm; lia.
    - lia. }
  rewrite Hq, Hr.
  rewrite c_int_small by lia.
  rewrite !rd_lookup by lia.
  replace (Z.to_nat (Z.of_nat (List.length srcpre)
                     + Z.of_nat (3 * (k / 2) + k mod 2)))
    with (List.length srcpre + (3 * (k / 2) + k mod 2))%nat by lia.
  replace (Z.to_nat (Z.of_nat (List.length srcpre)
                     + Z.of_nat (3 * (k / 2) + k mod 2) + 1))
    with (List.length srcpre + (3 * (k / 2) + k mod 2 + 1))%nat by lia.
  rewrite !lookup_app_r by lia.
  replace (List.length srcpre + (3 * (k / 2) + k mod 2) - List.length srcpre)%nat
    with (3 * (k / 2) + k mod 2)%nat by lia.
  replace (List.length srcpre + (3 * (k / 2) + k mod 2 + 1) - List.length srcpre)%nat
    with (3 * (k / 2) + k mod 2 + 1)%nat by lia.
  rewrite Ha, Hb. cbn [mbind option_bind]. f_equal.
  rewrite Hm. by destruct (Nat.even k).
Qed.

Lemma unpack12_length (fuel : nat) :
  forall rest, (List.length rest <= fuel)%nat ->
    (2 * List.length rest <= 3 * List.length (unpack12 rest) + 2)%nat /\
    (3 * List.length (unpack12 rest) <= 2 * List.length rest)%nat.
Proof.
  induction fuel as [|fuel IH]; intros rest Hlen.
  - destruct rest; [simpl; lia|simpl in Hlen; lia].
  - destruct rest as [|a [|b [|c rest]]]; try (simpl; lia).
    cbn [unpack12 List.length].
    destruct (IH rest) as [H1 H2]; [simpl in Hlen; lia|]. lia.
Qed.

Lemma unpack12_range (fuel : nat) :
  forall rest, (List.length rest <= fuel)%nat -> Forall is_byte rest ->
    Forall (fun v => 0 <= v < 4096) (unpack12 rest).
Proof.
  induction fuel as [|fuel IH]; intros rest Hlen Hbytes.
  - destruct rest; [constructor|simpl in Hlen; lia].
  - destruct rest as [|a [|b [|c rest]]]; try constructor.
    + apply Forall_cons in Hbytes as [Ha Hbytes].
      apply Forall_cons in Hbytes as [Hb _].
      apply (sample12_values a b Ha Hb).
    + constructor.
    + apply Forall_cons in Hbytes as [Ha Hbytes].
      apply Forall_cons in Hbytes as [Hb _].
      apply (sample12_values a b Ha Hb).
    + apply Forall_cons in Hbytes as [Ha Hbytes].
      apply Forall_cons in Hbytes as [Hb Hbytes].
      apply Forall_cons in Hbytes as [Hc Hbytes].
      constructor; [apply (sample12_values b c Hb Hc)|].
      apply IH; [simpl in Hlen; lia|done].
Qed.

Lemma unpack12_long (rest : list Z) (w bpr : nat) :
  (3 * w <= 2 * bpr)%nat -> (bpr <= List.length rest)%nat ->
  (w <= List.length (unpack12 rest))%nat.
Proof.
  intros Hw Hlen.
  destruct (unpack12_length (List.length rest) rest (Nat.le_refl _)) as [H1 H2].
  lia.
Qed.

Lemma table12_entry (lo scale : float) (lut : list Z) (v : Z) :
  gray_lut 4096 0 lo scale = Some lut ->
  0 <= v < 4096 ->
  to_byte (decode_sample lo scale v) = Some (lut_at lut v) /\ is_byte (lut_at lut v).
Proof.
  intros Hlut Hv.
  pose proof (gray_lut_entry 4096 0 lo scale lut Hlut (Z.to_nat v) ltac:(lia)) as H.
  rewrite Z.add_0_l, Z2Nat.id in H by lia.
  split; [done|]. by eapply to_byte_is_byte.
Qed.

Section Gray12.

Variables (decode_min scale : float) (lut : list Z).
Hypothesis Hlut : gray_lut 4096 0 decode_min scale = Some lut.

Lemma gray12_pixel_spec (srcpre rowrest pre : list Z) (row col w later : nat)
    (v : Z) :
  Forall is_byte rowrest ->
  List.length pre = (4 * (row * w + col))%nat ->
  unpack12 rowrest !! col = Some v ->
  Z.of_nat (List.length srcpre) + Z.of_nat (List.length rowrest) < 2 ^ 31 ->
  12 * Z.of_nat col < 2 ^ 31 ->
  4 * Z.of_nat (row * w + col + 1) < 2 ^ 31 ->
  gray12_pixel (Z.of_nat row) (Z.of_nat col) (Z.of_nat w)
    (Z.of_nat (List.length srcpre)) decode_min scale
    (srcpre ++ rowrest) (pre ++ replicate (4 * S later) 0)
    = Some ((pre ++ [lut_at lut v; lut_at lut v; lut_at lut v; 255])
              ++ replicate (4 * later) 0).
Proof.
  intros Hbytes Hp Hv Hsrc Hcol Hbound.
  pose proof (unpack12_range (List.length rowrest) rowrest (Nat.le_refl _) Hbytes)
    as Hrange.
  rewrite Forall_lookup in Hrange.
  pose proof (Hrange _ _ Hv) as Hr. cbv beta in Hr.
  destruct (table12_entry _ _ _ _ Hlut Hr) as [Ht Hb].
  unfold gray12_pixel.
  rewrite (sample12_spec srcpre rowrest col v Hv Hsrc Hcol).
  cbn [mbind option_bind]. rewrite Ht. cbn [mbind option_bind].
  rewrite (c_int_small (Z.of_nat row * Z.of_nat w)) by nia.
  rewrite (c_int_small (Z.of_nat row * Z.of_nat w + Z.of_nat col)) by nia.
  replace (Z.of_nat row * Z.of_nat w + Z.of_nat col)
    with (Z.of_nat (row * w + col)) by lia.
  apply write_gray; [done|done|lia].
Qed.

Lemma gray12_cols_spec (srcpre rowrest : list Z) (row w later : nat) (n : nat) :
  Forall is_byte rowrest ->
  forall (col : nat) (spre srest pre : list Z),
    take (col + n) (unpack12 rowrest) = spre ++ srest ->
    List.length spre = col ->
    List.length srest = n ->
    List.length pre = (4 * (row * w + col))%nat ->
    Z.of_nat (List.length srcpre) + Z.of_nat (List.length rowrest) < 2 ^ 31 ->
    12 * Z.of_nat (col + n) < 2 ^ 31 ->
    4 * Z.of_nat (row * w + col + n) < 2 ^ 31 ->
    gray12_cols n (Z.of_nat row) (Z.of_nat col) (Z.of_nat w)
      (Z.of_nat (List.length srcpre)) decode_min scale
      (srcpre ++ rowrest) (pre ++ replicate (4 * (n + later)) 0)
      = Some ((pre ++ gray_pixels (lut_at lut <$> srest))
                ++ replicate (4 * later) 0).
Proof.
  intros Hbytes.
  induction n as [|n IH];
    intros col spre srest pre Htake Hsp Hsr Hp Hsrc Hcol Hbound.
  - destruct srest; [|simpl in Hsr; lia]. cbn [gray12_cols fmap list_fmap gray_pixels].
    by rewrite app_nil_r.
  - destruct srest as [|v srest]; simpl in Hsr; try lia.
    assert (unpack12 rowrest !! col = Some v) as Hv.
    { assert ((spre ++ v :: srest) !! col = Some v) as Hx
        by (rewrite lookup_app_r by lia;
            by replace (col - List.length spre)%nat with 0%nat by lia).
      rewrite <- Htake in Hx. apply lookup_take_Some in Hx. tauto. }
    cbn [gray12_cols]. change (S n + later)%nat with (S (n + later)).
    rewrite (gray12_pixel_spec srcpre rowrest pre row col w (n + later) v);
      try done; try lia.
    cbn [mbind option_bind].
    replace (Z.of_nat col + 1) with (Z.of_nat (S col)) by lia.
    rewrite (IH (S col) (spre ++ [v]) srest
               (pre ++ [lut_at lut v; lut_at lut v; lut_at lut v; 255])).
    + cbn [fmap list_fmap gray_pixels]. by rewrite <- !app_assoc.
    + rewrite <- app_assoc. cbn [app].
      by replace (S col + n)%nat with (col + S n)%nat by lia.
    + rewrite length_app. simpl. lia.
    + lia.
    + rewrite length_app. simpl. lia.
    + done.
    + lia.
    + lia.
Qed.

Lemma gray12_rows_spec (w bpr : nat) (n : nat) :
  (3 * w <= 2 * bpr)%nat ->
  12 * Z.of_nat w < 2 ^ 31 ->
  forall (row : nat) (srcpre rest pre : list Z),
    Forall is_byte rest ->
    List.length srcpre = (row * bpr)%nat ->
    List.length pre = (4 * (row * w))%nat ->
    (n * bpr <= List.length rest)%nat ->
    Z.of_nat (List.length srcpre) + Z.of_nat (List.length rest) < 2 ^ 31 ->
    4 * Z.of_nat ((row + n) * w) < 2 ^ 31 ->
    gray12_rows n (Z.of_nat row) (Z.of_nat w) (Z.of_nat bpr) decode_min scale
      (srcpre ++ rest) (pre ++ replicate (4 * (n * w)) 0)
      = Some (pre ++ gray_pixels (lut_at lut <$> unpack_rows12 n bpr w rest)).
Proof.
  intros Hbpr Hw.
  induction n as [|n IH];
    intros row srcpre rest pre Hbytes Hsp Hp Hlen Hsrc Hbound.
  - cbn [gray12_rows unpack_rows12 fmap list_fmap gray_pixels]. done.
  - cbn [gray12_rows].
    rewrite (c_int_small (Z.of_nat row * Z.of_nat bpr)) by nia.
    replace (Z.of_nat row * Z.of_nat bpr) with (Z.of_nat (List.length srcpre)) by nia.
    rewrite Nat2Z.id.
    assert (List.length (take w (unpack12 rest)) = w) as Htl.
    { rewrite length_take.
      pose proof (unpack12_long rest w bpr Hbpr ltac:(simpl in Hlen; nia)). lia. }
    replace (4 * (S n * w))%nat with (4 * (w + n * w))%nat by lia.
    pose proof (gray12_cols_spec srcpre rest row w (n * w) w Hbytes 0%nat []
                  (take w (unpack12 rest)) pre) as Hcols.
    change (Z.of_nat 0) with 0 in Hcols.
    rewrite Hcols; try done; try (simpl in Hlen; simpl; nia).
    cbn [mbind option_bind].
    replace (Z.of_nat row + 1) with (Z.of_nat (S row)) by lia.
    rewrite <- (take_drop bpr rest) at 1. rewrite app_assoc.
    rewrite (IH (S row) (srcpre ++ take bpr rest) (drop bpr rest)
               (pre ++ gray_pixels (lut_at lut <$> take w (unpack12 rest)))).
    + cbn [unpack_rows12].
      by rewrite fmap_app, gray_pixels_app, <- app_assoc.
    + by apply Forall_drop.
    + rewrite length_app, length_take. simpl in Hlen. nia.
    + rewrite length_app.
      assert (forall l, List.length (gray_pixels l) = (4 * List.length l)%nat) as Hgl.
      { induction l as [|x l IHl]; simpl; lia. }
      rewrite Hgl, length_fmap, Htl. nia.
    + rewrite length_drop. simpl in Hlen. nia.
    + rewrite length_app, length_take, length_drop. simpl in Hlen. nia.
    + replace (S row + n)%nat with (row + S n)%nat by lia. done.
Qed.

End Gray12.

Lemma unpack_rows12_length (h bpr spr : nat) :
  (3 * spr <= 2 * bpr)%nat ->
  forall src, (h * bpr <= List.length src)%nat ->
    List.length (unpack_rows12 h bpr spr src) = (h * spr)%nat.
Proof.
  intros Hs. induction h as [|h IH]; intros src Hlen; [done|].
  cbn [unpack_rows12]. rewrite length_app, length_take.
  rewrite IH by (rewrite length_drop; simpl in Hlen; lia).
  pose proof (unpack12_long src spr bpr Hs ltac:(simpl in Hlen; nia)).
  simpl. lia.
Qed.

Lemma unpack_rows12_range (h bpr spr : nat) :
  forall src, Forall is_byte src ->
    Forall (fun v => 0 <= v < 4096) (unpack_rows12 h bpr spr src).
Proof.
  induction h as [|h IH]; intros src Hbytes; [constructor|].
  cbn [unpack_rows12]. apply Forall_app. split.
  - apply Forall_take. by apply (unpack12_range (List.length src)).
  - by apply IH, Forall_drop.
Qed.

Lemma gray12_exact (src lut : list Z) (width height : Z) (lo hi : float) :
  0 <= width -> 0 <= height ->
  4 * (width * height) < 2 ^ 31 ->
  12 * width + 7 < 2 ^ 31 ->
  Forall is_byte src ->
  height * ((12 * width + 7) / 8) <= Z.of_nat (List.length src) ->
  Z.of_nat (List.length src) < 2 ^ 31 ->
  gray_lut 4096 0 lo ((hi - lo) / 4095)%float = Some lut ->
  gray12_to_bgrx src width height [lo; hi]
    = Some (gray_pixels
              (lut_at lut <$> unpack_rows12 (Z.to_nat height)
                                (Z.to_nat ((12 * width + 7) / 8))
                                (Z.to_nat width) src)).
Proof.
  intros Hw Hh Hbound Hrow Hbytes Hlen Hsrc Hlut.
  assert (0 <= (12 * width + 7) / 8) as Hbpr0 by (apply Z.div_pos; lia).
  assert (3 * width <= 2 * ((12 * width + 7) / 8)) as Hbpr
    by (Z.div_mod_to_equations; lia).
  unfold gray12_to_bgrx.
  rewrite (c_int_small (width * height)) by nia.
  rewrite bytearray_zeros by nia.
  cbn [mbind option_bind lookup list_lookup].
  rewrite (c_int_small (width * 12)) by lia.
  rewrite (c_int_small (width * 12 + 7)) by lia.
  rewrite Z.quot_div_nonneg by lia.
  replace (width * 12 + 7) with (12 * width + 7) by lia.
  pose proof (gray12_rows_spec lo _ lut Hlut
                (Z.to_nat width) (Z.to_nat ((12 * width + 7) / 8))
                (Z.to_nat height) ltac:(lia) ltac:(lia) 0%nat [] src []) as H.
  rewrite !Z2Nat.id in H by done.
  change (Z.of_nat 0) with 0 in H. cbn [app] in H.
  replace (4 * Z.to_nat (width * height))%nat
    with (4 * (Z.to_nat height * Z.to_nat width))%nat
    by (rewrite Z2Nat.inj_mul by done; lia).
  apply H; try done; simpl; nia.
Qed.

Lemma gray12_as_gray8 (src : list Z) (f : Z -> Z) (width height : Z) :
  0 <= width -> 0 <= height ->
  4 * (width * height) < 2 ^ 31 ->
  12 * width + 7 < 2 ^ 31 ->
  Forall is_byte src ->
  height * ((12 * width + 7) / 8) <= Z.of_nat (List.length src) ->
  (forall v, 0 <= v < 4096 -> is_byte (f v)) ->
  gray8_to_bgrx
    (f <$> unpack_rows12 (Z.to_nat height) (Z.to_nat ((12 * width + 7) / 8))
             (Z.to_nat width) src) (width * height)
  = Some (gray_pixels
            (f <$> unpack_rows12 (Z.to_nat height)
                     (Z.to_nat ((12 * width + 7) / 8)) (Z.to_nat width) src)).
Proof.
  intros Hw Hh Hbound Hrow Hbytes Hlen Hf.
  assert (0 <= (12 * width + 7) / 8) as Hbpr0 by (apply Z.div_pos; lia).
  assert (3 * width <= 2 * ((12 * width + 7) / 8)) as Hbpr
    by (Z.div_mod_to_equations; lia).
  set (samples := unpack_rows12 _ _ _ src).
  assert (List.length samples = Z.to_nat (width * height)) as Hsl.
  { unfold samples. rewrite unpack_rows12_length by nia.
    rewrite Z2Nat.inj_mul by done. lia. }
  rewrite gray8_exact; try nia.
  - rewrite <- Hsl, <- (length_fmap f samples). by rewrite take_ge.
  - apply Forall_fmap. eapply Forall_impl;
      [by apply unpack_rows12_range|].
    intros v Hv. by apply Hf.
  - rewrite length_fmap, Hsl. lia.
Qed.



Lemma samples12_table (f : Z -> Z) (v : Z) :
  0 <= v < 4096 -> lut_at (f <$> samples12) v = f v.
Proof.
  intros Hv. unfold lut_at, samples12.
  rewrite !list_lookup_fmap, lookup_seq_lt by lia. simpl.
  by rewrite Z2Nat.id by lia.
Qed.

Lemma gray12_table_decode (src : list Z) (f : Z -> Z) (width height : Z)
    (lo hi : float) :
  0 <= width -> 0 <= height ->
  4 * (width * height) < 2 ^ 31 ->
  12 * width + 7 < 2 ^ 31 ->
  Forall is_byte src ->
  height * ((12 * width + 7) / 8) <= Z.of_nat (List.length src) ->
  Z.of_nat (List.length src) < 2 ^ 31 ->
  gray_lut 4096 0 lo ((hi - lo) / 4095)%float = Some (f <$> samples12) ->
  gray12_to_bgrx src width height [lo; hi]
    = gray8_to_bgrx
        (f <$> unpack_rows12 (Z.to_nat height)
                 (Z.to_nat ((12 * width + 7) / 8)) (Z.to_nat width) src)
        (width * height).
Proof.
  intros Hw Hh Hbound Hrow Hbytes Hlen Hsrc Hlut.
  rewrite (gray12_exact src _ width height _ _ Hw Hh Hbound Hrow Hbytes Hlen
             Hsrc Hlut).
  assert (forall v, 0 <= v < 4096 -> is_byte (f v)) as Hf.
  { intros v Hv. rewrite <- samples12_table by done.
    by apply (table12_entry _ _ _ _ Hlut). }
  rewrite gray12_as_gray8 by done.
  do 2 f_equal.
  apply (fmap_ext_range _ _ 4096).
  - intros v Hv. by apply samples12_table.
  - by apply unpack_rows12_range.
Qed.



(** ** RGB at 12 bits per sample *)

Lemma decode_rgb_range_bytes (size : nat) (r_lut g_lut b_lut : list Z) (n : nat) :
  is_table size r_lut -> is_table size g_lut -> is_table size b_lut ->
  forall samples, Forall (fun v => 0 <= v < Z.of_nat size) samples ->
    List.length samples = (3 * n)%nat ->
    Forall is_byte (decode_rgb r_lut g_lut b_lut samples n) /\
    List.length (decode_rgb r_lut g_lut b_lut samples n) = (3 * n)%nat.
Proof.
  intros Hr Hg Hb.
  induction n as [|n IH]; intros samples Hrange Hl.
  - by destruct samples.
  - destruct samples as [|r [|g [|b samples]]]; simpl in Hl; try lia.
    apply Forall_cons in Hrange as [H1 Hrange].
    apply Forall_cons in Hrange as [H2 Hrange].
    apply Forall_cons in Hrange as [H3 Hrange].
    destruct (IH samples Hrange) as [IH1 IH2]; [lia|].
    cbn [decode_rgb]. split.
    + constructor; [by apply (table_rd size)|].
      constructor; [by apply (table_rd size)|].
      constructor; [by apply (table_rd size)|]. done.
    + simpl. lia.
Qed.

Section Rgb12.

Variables (r_min g_min b_min r_scale g_scale b_scale : float).
Variables (r_lut g_lut b_lut : list Z).
Hypothesis Hr_lut : gray_lut 4096 0 r_min r_scale = Some r_lut.
Hypothesis Hg_lut : gray_lut 4096 0 g_min g_scale = Some g_lut.
Hypothesis Hb_lut : gray_lut 4096 0 b_min b_scale = Some b_lut.

Lemma rgb12_pixel_spec (srcpre rowrest pre : list Z) (row col w later : nat)
    (rv gv bv : Z) :
  Forall is_byte rowrest ->
  List.length pre = (4 * (row * w + col))%nat ->
  unpack12 rowrest !! (3 * col)%nat = Some rv ->
  unpack12 rowrest !! (3 * col + 1)%nat = Some gv ->
  unpack12 rowrest !! (3 * col + 2)%nat = Some bv ->
  Z.of_nat (List.length srcpre) + Z.of_nat (List.length rowrest) < 2 ^ 31 ->
  12 * Z.of_nat (3 * col + 2) < 2 ^ 31 ->
  4 * Z.of_nat (row * w + col + 1) < 2 ^ 31 ->
  rgb12_pixel (Z.of_nat row) (Z.of_nat col) (Z.of_nat w)
    (Z.of_nat (List.length srcpre))
    (r_min, g_min, b_min) (r_scale, g_scale, b_scale)
    (srcpre ++ rowrest) (pre ++ replicate (4 * S later) 0)
    = Some ((pre ++ [lut_at b_lut bv; lut_at g_lut gv; lut_at r_lut rv; 255])
              ++ replicate (4 * later) 0).
Proof.
  intros Hbytes Hp Hrv Hgv Hbv Hsrc Hcol Hbound.
  pose proof (unpack12_range (List.length rowrest) rowrest (Nat.le_refl _) Hbytes)
    as Hrange.
  rewrite Forall_lookup in Hrange.
  pose proof (Hrange _ _ Hrv) as Hr. pose proof (Hrange _ _ Hgv) as Hg.
  pose proof (Hrange _ _ Hbv) as Hb. cbv beta in Hr, Hg, Hb.
  destruct (table12_entry _ _ _ _ Hr_lut Hr) as [Htr Hbr].
  destruct (table12_entry _ _ _ _ Hg_lut Hg) as [Htg Hbg].
  destruct (table12_entry _ _ _ _ Hb_lut Hb) as [Htb Hbb].
  unfold rgb12_pixel.
  rewrite (c_int_small (Z.of_nat col * 3)) by lia.
  rewrite (c_int_small (Z.of_nat col * 3 + 0)) by lia.
  rewrite (c_int_small (Z.of_nat col * 3 + 1)) by lia.
  rewrite (c_int_small (Z.of_nat col * 3 + 2)) by lia.
  rewrite (c_int_small (Z.of_nat row * Z.of_nat w)) by nia.
  rewrite (c_int_small (Z.of_nat row * Z.of_nat w + Z.of_nat col)) by nia.
  rewrite (c_int_small ((Z.of_nat row * Z.of_nat w + Z.of_nat col) * 4)) by nia.
  replace (Z.of_nat col * 3 + 0) with (Z.of_nat (3 * col)) by lia.
  replace (Z.of_nat col * 3 + 1) with (Z.of_nat (3 * col + 1)) by lia.
  replace (Z.of_nat col * 3 + 2) with (Z.of_nat (3 * col + 2)) by lia.
  rewrite (sample12_spec srcpre rowrest (3 * col) rv Hrv) by lia.
  rewrite (sample12_spec srcpre rowrest (3 * col + 1) gv Hgv) by lia.
  rewrite (sample12_spec srcpre rowrest (3 * col + 2) bv Hbv) by lia.
  cbn [mbind option_bind]. rewrite Htb, Htg, Htr. cbn [mbind option_bind].
  rewrite replicate_4S.
  rewrite (wr_at _ pre (0 :: 0 :: 0 :: replicate (4 * later) 0) 0 (lut_at b_lut bv));
    [|done|nia].
  cbn [mbind option_bind].
  rewrite (wr_at _ (pre ++ [lut_at b_lut bv]) (0 :: 0 :: replicate (4 * later) 0) 0
             (lut_at g_lut gv));
    [|by rewrite <- app_assoc|rewrite length_app; simpl; nia].
  cbn [mbind option_bind].
  rewrite (wr_at _ ((pre ++ [lut_at b_lut bv]) ++ [lut_at g_lut gv])
             (0 :: replicate (4 * later) 0) 0 (lut_at r_lut rv));
    [|by rewrite <- !app_assoc|rewrite !length_app; simpl; nia].
  cbn [mbind option_bind].
  rewrite (wr_at _ (((pre ++ [lut_at b_lut bv]) ++ [lut_at g_lut gv]) ++ [lut_at r_lut rv])
             (replicate (4 * later) 0) 0 255);
    [|by rewrite <- !app_assoc|rewrite !length_app; simpl; nia].
  by rewrite <- !app_assoc.
Qed.

Lemma rgb12_cols_spec (srcpre rowrest : list Z) (row w later : nat) (n : nat) :
  Forall is_byte rowrest ->
  forall (col : nat) (spre srest pre : list Z),
    take (3 * (col + n)) (unpack12 rowrest) = spre ++ srest ->
    List.length spre = (3 * col)%nat ->
    List.length srest = (3 * n)%nat ->
    List.length pre = (4 * (row * w + col))%nat ->
    Z.of_nat (List.length srcpre) + Z.of_nat (List.length rowrest) < 2 ^ 31 ->
    12 * Z.of_nat (3 * (col + n)) < 2 ^ 31 ->
    4 * Z.of_nat (row * w + col + n) < 2 ^ 31 ->
    rgb12_cols n (Z.of_nat row) (Z.of_nat col) (Z.of_nat w)
      (Z.of_nat (List.length srcpre))
      (r_min, g_min, b_min) (r_scale, g_scale, b_scale)
      (srcpre ++ rowrest) (pre ++ replicate (4 * (n + later)) 0)
      = Some ((pre ++ table_pixels r_lut g_lut b_lut srest)
                ++ replicate (4 * later) 0).
Proof.
  intros Hbytes.
  induction n as [|n IH];
    intros col spre srest pre Htake Hsp Hsr Hp Hsrc Hcol Hbound.
  - destruct srest; [|simpl in Hsr; lia]. cbn [rgb12_cols table_pixels].
    by rewrite app_nil_r.
  - destruct srest as [|rv [|gv [|bv srest]]]; simpl in Hsr; try lia.
    assert (forall (k : nat) (x : Z),
              (spre ++ rv :: gv :: bv :: srest) !! k = Some x ->
              unpack12 rowrest !! k = Some x) as Hlk.
    { intros k x Hx. rewrite <- Htake in Hx.
      apply lookup_take_Some in Hx. tauto. }
    cbn [rgb12_cols]. change (S n + later)%nat with (S (n + later)).
    rewrite (rgb12_pixel_spec srcpre rowrest pre row col w (n + later) rv gv bv);
      try done; try lia.
    + cbn [mbind option_bind].
      replace (Z.of_nat col + 1) with (Z.of_nat (S col)) by lia.
      rewrite (IH (S col) (spre ++ [rv; gv; bv]) srest
                 (pre ++ [lut_at b_lut bv; lut_at g_lut gv; lut_at r_lut rv; 255])).
      * cbn [table_pixels]. by rewrite <- !app_assoc.
      * rewrite <- app_assoc. cbn [app].
        by replace (S col + n)%nat with (col + S n)%nat by lia.
      * rewrite length_app. simpl. lia.
      * lia.
      * rewrite length_app. simpl. lia.
      * done.
      * lia.
      * lia.
    + apply Hlk. rewrite lookup_app_r by lia.
      by replace (3 * col - List.length spre)%nat with 0%nat by lia.
    + apply Hlk. rewrite lookup_app_r by lia.
      by replace (3 * col + 1 - List.length spre)%nat with 1%nat by lia.
    + apply Hlk. rewrite lookup_app_r by lia.
      by replace (3 * col + 2 - List.length spre)%nat with 2%nat by lia.
Qed.

Lemma rgb12_rows_spec (w bpr : nat) (n : nat) :
  (9 * w <= 2 * bpr)%nat ->
  36 * Z.of_nat w < 2 ^ 31 ->
  forall (row : nat) (srcpre rest pre : list Z),
    Forall is_byte rest ->
    List.length srcpre = (row * bpr)%nat ->
    List.length pre = (4 * (row * w))%nat ->
    (n * bpr <= List.length rest)%nat ->
    Z.of_nat (List.length srcpre) + Z.of_nat (List.length rest) < 2 ^ 31 ->
    4 * Z.of_nat ((row + n) * w) < 2 ^ 31 ->
    rgb12_rows n (Z.of_nat row) (Z.of_nat w) (Z.of_nat bpr)
      (r_min, g_min, b_min) (r_scale, g_scale, b_scale)
      (srcpre ++ rest) (pre ++ replicate (4 * (n * w)) 0)
      = Some (pre ++ table_pixels r_lut g_lut b_lut (unpack_rows12 n bpr (3 * w) rest)).
Proof.
  intros Hbpr Hw.
  induction n as [|n IH];
    intros row srcpre rest pre Hbytes Hsp Hp Hlen Hsrc Hbound.
  - cbn [rgb12_rows unpack_rows12 table_pixels]. done.
  - cbn [rgb12_rows].
    rewrite (c_int_small (Z.of_nat row * Z.of_nat bpr)) by nia.
    replace (Z.of_nat row * Z.of_nat bpr) with (Z.of_nat (List.length srcpre)) by nia.
    rewrite Nat2Z.id.
    assert (List.length (take (3 * w) (unpack12 rest)) = (3 * w)%nat) as Htl.
    { rewrite length_take.
      pose proof (unpack12_long rest (3 * w) bpr ltac:(lia)
                    ltac:(simpl in Hlen; nia)). lia. }
    replace (4 * (S n * w))%nat with (4 * (w + n * w))%nat by lia.
    pose proof (rgb12_cols_spec srcpre rest row w (n * w) w Hbytes 0%nat []
                  (take (3 * w) (unpack12 rest)) pre) as Hcols.
    change (Z.of_nat 0) with 0 in Hcols.
    rewrite Hcols; try done; try (simpl in Hlen; simpl; nia).
    cbn [mbind option_bind].
    replace (Z.of_nat row + 1) with (Z.of_nat (S row)) by lia.
    rewrite <- (take_drop bpr rest) at 1. rewrite app_assoc.
    rewrite (IH (S row) (srcpre ++ take bpr rest) (drop bpr rest)
               (pre ++ table_pixels r_lut g_lut b_lut (take (3 * w) (unpack12 rest)))).
    + cbn [unpack_rows12].
      rewrite (table_pixels_app _ _ _ _ _ w) by done.
      by rewrite <- app_assoc.
    + by apply Forall_drop.
    + rewrite length_app, length_take. simpl in Hlen. nia.
    + rewrite length_app, (table_pixels_length _ _ _ _ w) by done. nia.
    + rewrite length_drop. simpl in Hlen. nia.
    + rewrite length_app, length_take, length_drop. simpl in Hlen. nia.
    + replace (S row + n)%nat with (row + S n)%nat by lia. done.
Qed.

End Rgb12.

Lemma rgb12_exact (src r_lut g_lut b_lut : list Z) (width height : Z)
    (r_min r_max g_min g_max b_min b_max : float) :
  0 <= width -> 0 <= height ->
  4 * (width * height) < 2 ^ 31 ->
  36 * width + 7 < 2 ^ 31 ->
  Forall is_byte src ->
  height * ((36 * width + 7) / 8) <= Z.of_nat (List.length src) ->
  Z.of_nat (List.length src) < 2 ^ 31 ->
  channel_table12 r_min r_max r_lut ->
  channel_table12 g_min g_max g_lut ->
  channel_table12 b_min b_max b_lut ->
  rgb12_to_bgrx src width height [r_min; r_max; g_min; g_max; b_min; b_max]
    = Some (table_pixels r_lut g_lut b_lut
              (unpack_rows12 (Z.to_nat height) (Z.to_nat ((36 * width + 7) / 8))
                 (3 * Z.to_nat width) src)).
Proof.
  intros Hw Hh Hbound Hrow Hbytes Hlen Hsrc Hr Hg Hb.
  assert (0 <= (36 * width + 7) / 8) as Hbpr0 by (apply Z.div_pos; lia).
  assert (9 * width <= 2 * ((36 * width + 7) / 8)) as Hbpr
    by (Z.div_mod_to_equations; lia).
  unfold rgb12_to_bgrx.
  rewrite (c_int_small (width * height)) by nia.
  rewrite bytearray_zeros by nia.
  cbn [mbind option_bind decode_scales3 lookup list_lookup].
  rewrite (c_int_small (width * 3)) by lia.
  rewrite (c_int_small (width * 3 * 12)) by lia.
  rewrite (c_int_small (width * 3 * 12 + 7)) by lia.
  rewrite Z.quot_div_nonneg by lia.
  replace (width * 3 * 12 + 7) with (36 * width + 7) by lia.
  pose proof (rgb12_rows_spec r_min g_min b_min _ _ _ r_lut g_lut b_lut Hr Hg Hb
                (Z.to_nat width) (Z.to_nat ((36 * width + 7) / 8))
                (Z.to_nat height) ltac:(lia) ltac:(lia) 0%nat [] src []) as H.
  rewrite !Z2Nat.id in H by done.
  change (Z.of_nat 0) with 0 in H. cbn [app] in H.
  replace (4 * Z.to_nat (width * height))%nat
    with (4 * (Z.to_nat height * Z.to_nat width))%nat
    by (rewrite Z2Nat.inj_mul by done; lia).
  apply H; try done; simpl; nia.
Qed.



(** ** Color key masking at 12 bits per sample *)

Lemma unpack_rows12_lookup (bpr spr : nat) (row : nat) :
  (3 * spr <= 2 * bpr)%nat ->
  forall (h : nat) (src : list Z) (k : nat),
    (row < h)%nat -> (k < spr)%nat ->
    (h * bpr <= List.length src)%nat ->
    unpack_rows12 h bpr spr src !! (row * spr + k)%nat
      = unpack12 (drop (row * bpr) src) !! k.
Proof.
  intros Hs.
  induction row as [|row IH]; intros h src k Hrow Hk Hlen.
  - destruct h as [|h]; [lia|]. cbn [unpack_rows12]. simpl in Hlen.
    pose proof (unpack12_long src spr bpr Hs ltac:(nia)) as Hlong.
    rewrite lookup_app_l by (rewrite length_take; simpl; lia).
    simpl. rewrite drop_0. by rewrite lookup_take_lt by lia.
  - destruct h as [|h]; [lia|]. cbn [unpack_rows12]. simpl in Hlen.
    pose proof (unpack12_long src spr bpr Hs ltac:(nia)) as Hlong.
    rewrite lookup_app_r by (rewrite length_take; simpl; nia).
    rewrite length_take.
    replace (S row * spr + k - Nat.min spr (List.length (unpack12 src)))%nat
      with (row * spr + k)%nat by nia.
    rewrite IH; [|lia|lia|rewrite length_drop; nia].
    rewrite drop_drop. by replace (bpr + row * bpr)%nat with (S row * bpr)%nat by lia.
Qed.

Section ColorKey12.

Variables (sample_data mask_color : list Z) (is_range : bool).
Variables (w h n bpr : nat).

Hypothesis Hbpr : (3 * (w * n) <= 2 * bpr)%nat.
Hypothesis Hdata : (h * bpr <= List.length sample_data)%nat.
Hypothesis Hslen : Z.of_nat (List.length sample_data) < 2 ^ 31.
Hypothesis Hrow : 12 * Z.of_nat (w * n) < 2 ^ 31.
Hypothesis Hsamples : Z.of_nat (h * w * n) + Z.of_nat n < 2 ^ 31.
Hypothesis Hpixels : 4 * Z.of_nat (h * w) + 3 < 2 ^ 31.

(** The samples as [apply_color_key_mask_8] wants them. *)
Let unpacked12 : list Z := unpack_rows12 h bpr (w * n) sample_data.

Lemma unpacked12_length : List.length unpacked12 = (h * (w * n))%nat.
Proof. unfold unpacked12. by apply unpack_rows12_length. Qed.

Lemma sample12_unpacked (row col si : nat) :
  (row < h)%nat -> (col < w)%nat -> (si < n)%nat ->
  sample12 sample_data (c_int (Z.of_nat row * Z.of_nat bpr))
    (c_int (c_int (Z.of_nat col * Z.of_nat n) + Z.of_nat si))
    = rd unpacked12
        (c_int (c_int (Z.of_nat (row * w + col) * Z.of_nat n) + Z.of_nat si)).
Proof.
  intros Hr Hcol Hsi.
  assert (col * n + si < w * n)%nat as Hk by nia.
  assert (row * bpr <= List.length sample_data)%nat as Hrb by nia.
  rewrite (c_int_small (Z.of_nat row * Z.of_nat bpr)) by nia.
  rewrite (c_int_small (Z.of_nat col * Z.of_nat n)) by nia.
  rewrite (c_int_small (Z.of_nat col * Z.of_nat n + Z.of_nat si)) by nia.
  rewrite (c_int_small (Z.of_nat (row * w + col) * Z.of_nat n)) by nia.
  rewrite (c_int_small (Z.of_nat (row * w + col) * Z.of_nat n + Z.of_nat si)) by nia.
  rewrite rd_lookup by lia.
  replace (Z.to_nat (Z.of_nat (row * w + col) * Z.of_nat n + Z.of_nat si))
    with (row * (w * n) + (col * n + si))%nat by nia.
  unfold unpacked12. rewrite unpack_rows12_lookup by done.
  destruct (unpack12 (drop (row * bpr) sample_data) !! (col * n + si)%nat)
    as [v|] eqn:Hv.
  - pose proof (sample12_spec (take (row * bpr) sample_data)
                  (drop (row * bpr) sample_data) (col * n + si) v Hv) as Hs.
    rewrite take_drop, length_take, length_drop in Hs.
    replace (Nat.min (row * bpr) (List.length sample_data)) with (row * bpr)%nat
      in Hs by lia.
    replace (Z.of_nat row * Z.of_nat bpr) with (Z.of_nat (row * bpr)) by lia.
    replace (Z.of_nat col * Z.of_nat n + Z.of_nat si)
      with (Z.of_nat (col * n + si)) by lia.
    apply Hs; nia.
  - apply lookup_ge_None in Hv.
    pose proof (unpack12_long (drop (row * bpr) sample_data) (w * n) bpr Hbpr
                  ltac:(rewrite length_drop; nia)).
    lia.
Qed.

Lemma match12_unpacked (row col : nat) (cnt : nat) :
  (row < h)%nat -> (col < w)%nat ->
  forall si : nat,
    (si + cnt <= n)%nat ->
    match12 cnt (Z.of_nat si) (c_int (Z.of_nat col * Z.of_nat n))
      (c_int (Z.of_nat row * Z.of_nat bpr)) is_range sample_data mask_color
      = if is_range
        then match_range cnt (Z.of_nat si)
               (c_int (Z.of_nat (row * w + col) * Z.of_nat n)) unpacked12 mask_color
        else match_exact cnt (Z.of_nat si)
               (c_int (Z.of_nat (row * w + col) * Z.of_nat n)) unpacked12 mask_color.
Proof.
  intros Hr Hcol.
  induction cnt as [|cnt IH]; intros si Hsi.
  - by destruct is_range.
  - cbn [match12 match_range match_exact].
    rewrite (sample12_unpacked row col si) by (done || lia).
    replace (Z.of_nat si + 1) with (Z.of_nat (S si)) by lia.
    rewrite (IH (S si)) by lia.
    by destruct is_range.
Qed.

Lemma mask12_pixel_unpacked (row col : nat) (rest : nat) (pd : list Z) :
  (row < h)%nat -> (col < w)%nat ->
  mask8_loop (S rest) (Z.of_nat (row * w + col)) (Z.of_nat n) is_range
    unpacked12 mask_color pd
  = pd' ← mask12_pixel (Z.of_nat row) (Z.of_nat col) (Z.of_nat w) (Z.of_nat n)
            (c_int (Z.of_nat row * Z.of_nat bpr)) is_range sample_data mask_color pd;
    mask8_loop rest (Z.of_nat (row * w + col) + 1) (Z.of_nat n) is_range
      unpacked12 mask_color pd'.
Proof.
  intros Hr Hcol.
  cbn [mask8_loop]. unfold mask12_pixel.
  rewrite unpacked12_length.
  assert ((row * w + col + 1) * n <= h * (w * n))%nat as Hin by nia.
  rewrite (c_int_small (Z.of_nat (row * w + col) * Z.of_nat n)) by nia.
  rewrite (c_int_small (Z.of_nat (row * w + col) * Z.of_nat n + Z.of_nat n)) by nia.
  rewrite (c_int_small (Z.of_nat (h * (w * n)))) by nia.
  destruct (Z.gtb_spec (Z.of_nat (row * w + col) * Z.of_nat n + Z.of_nat n)
              (Z.of_nat (h * (w * n)))) as [Hgt|_]; [nia|].
  rewrite Nat2Z.id.
  pose proof (match12_unpacked row col n Hr Hcol 0%nat ltac:(lia)) as Hm.
  change (Z.of_nat 0) with 0 in Hm. rewrite Hm.
  rewrite (c_int_small (Z.of_nat (row * w + col) * Z.of_nat n)) by nia.
  rewrite (c_int_small (Z.of_nat row * Z.of_nat w)) by nia.
  rewrite (c_int_small (Z.of_nat row * Z.of_nat w + Z.of_nat col)) by nia.
  replace (Z.of_nat row * Z.of_nat w + Z.of_nat col)
    with (Z.of_nat (row * w + col)) by lia.
  clear Hm.
  destruct (Bool.bool_dec is_range true) as [E|E].
  - rewrite E.
    destruct (match_range n 0 _ unpacked12 mask_color) as [[|]|]; reflexivity.
  - apply not_true_is_false in E. rewrite E.
    destruct (match_exact n 0 _ unpacked12 mask_color) as [[|]|]; reflexivity.
Qed.

Lemma mask12_cols_unpacked (row : nat) (cnt : nat) :
  (row < h)%nat ->
  forall (col rest : nat) (pd : list Z),
    (col + cnt <= w)%nat ->
    mask8_loop (cnt + rest) (Z.of_nat (row * w + col)) (Z.of_nat n) is_range
      unpacked12 mask_color pd
    = pd' ← mask12_cols cnt (Z.of_nat row) (Z.of_nat col) (Z.of_nat w) (Z.of_nat n)
              (c_int (Z.of_nat row * Z.of_nat bpr)) is_range sample_data
              mask_color pd;
      mask8_loop rest (Z.of_nat (row * w + col + cnt)) (Z.of_nat n) is_range
        unpacked12 mask_color pd'.
Proof.
  intros Hr.
  induction cnt as [|cnt IH]; intros col rest pd Hcol.
  - cbn [mask12_cols Nat.add mbind option_bind]. by rewrite Nat.add_0_r.
  - change (S cnt + rest)%nat with (S (cnt + rest)).
    rewrite mask12_pixel_unpacked by (done || lia).
    cbn [mask12_cols].
    destruct (mask12_pixel _ _ _ _ _ _ _ _ pd) as [pd'|]; [|done].
    cbn [mbind option_bind].
    replace (Z.of_nat (row * w + col) + 1) with (Z.of_nat (row * w + S col)) by lia.
    replace (Z.of_nat col + 1) with (Z.of_nat (S col)) by lia.
    rewrite (IH (S col) rest pd') by lia.
    by replace (row * w + S col + cnt)%nat with (row * w + col + S cnt)%nat by lia.
Qed.

Lemma mask12_rows_unpacked (cnt : nat) :
  forall (row : nat) (pd : list Z),
    (row + cnt <= h)%nat ->
    mask12_rows cnt (Z.of_nat row) (Z.of_nat w) (Z.of_nat n) (Z.of_nat bpr)
      is_range sample_data mask_color pd
    = mask8_loop (cnt * w) (Z.of_nat (row * w)) (Z.of_nat n) is_range
        unpacked12 mask_color pd.
Proof.
  induction cnt as [|cnt IH]; intros row pd Hr.
  - done.
  - cbn [mask12_rows]. rewrite Nat2Z.id.
    change (S cnt * w)%nat with (w + cnt * w)%nat.
    pose proof (mask12_cols_unpacked row w ltac:(lia) 0%nat (cnt * w)%nat pd
                  ltac:(lia)) as Hc.
    rewrite Nat.add_0_r in Hc. change (Z.of_nat 0) with 0 in Hc.
    rewrite Hc.
    destruct (mask12_cols _ _ _ _ _ _ _ _ _ pd) as [pd'|]; [|done].
    cbn [mbind option_bind].
    replace (Z.of_nat row + 1) with (Z.of_nat (S row)) by lia.
    rewrite IH by lia.
    by replace (S row * w)%nat with (row * w + w)%nat by lia.
Qed.

End ColorKey12.



(** The call of the witness clears the alpha byte of the first pixel, whose
    sample is 291 (0x123), the first twelve bits of the first row. *)
Example color_key_mask_12_sample :
  apply_color_key_mask_12 [30; 20; 10; 255; 60; 50; 40; 255] [18; 48; 69; 96]
    1 2 1 [291] false
    = Some [30; 20; 10; 0; 60; 50; 40; 255].
Proof. vm_compute. reflexivity. Qed.
